(** * The impedance tensor of mtpy-v2

    A shallow embedding of [mtpy/core/transfer_function/z.py] (class [Z]).

    Numbers: the source computes with IEEE doubles (numpy [float64] and
    [complex128]); here every float is an exact real number of [R] and a
    complex number is a pair of reals.  Rounding, NaN and Inf are outside the
    model, so an equation proved below is the exact identity that the source
    approximates to floating-point precision.

    Arrays: an array of shape (N,2,2) is a list of N two-by-two matrices, a
    one-dimensional array is a list.

    Exceptions: a method returns a value of [res]; a method that assigns to
    [self] also returns the object it leaves behind. *)

From Stdlib Require Import String Ascii Bool Arith ZArith List Reals Lra Lia.
Import ListNotations.
Local Open Scope R_scope.

(** ** Exceptions and results *)

Inductive exn : Type :=
| TypeError (msg : string)
| ValueError (msg : string)
| KeyError (key : string)
| IndexError (msg : string)
| AttributeError (msg : string)
| UnboundLocalError (name : string)
| ShapeMismatchError (expected received : nat).

Inductive res (A : Type) : Type :=
| Ok (a : A)
| Err (e : exn).

Arguments Ok {A} a.
Arguments Err {A} e.

Definition bind {A B : Type} (c : res A) (k : A -> res B) : res B :=
  match c with
  | Ok a => k a
  | Err e => Err e
  end.

Notation "x <- c ;; k" := (bind c (fun x => k))
  (at level 61, c at next level, right associativity).

(** ** The fragment of numpy the class uses *)

Module Np.

Record complex : Type := mkC { re : R; im : R }.

Definition RtoC (x : R) : complex := mkC x 0.

Definition Cadd (a b : complex) : complex := mkC (re a + re b) (im a + im b).

Definition Csub (a b : complex) : complex := mkC (re a - re b) (im a - im b).

Definition Cmul (a b : complex) : complex :=
  mkC (re a * re b - im a * im b) (re a * im b + im a * re b).

Definition Cdiv (a b : complex) : complex :=
  let d := re b * re b + im b * im b in
  mkC ((re a * re b + im a * im b) / d) ((im a * re b - re a * im b) / d).

(** [np.abs] of a complex number. *)
Definition Cabs (a : complex) : R := sqrt (re a * re a + im a * im a).

(** [np.arctan2 y x], the angle of the point (x, y) in (-pi, pi]. *)
Definition arctan2 (y x : R) : R :=
  if Rlt_dec 0 x then atan (y / x)
  else if Rlt_dec x 0 then
    if Rle_dec 0 y then atan (y / x) + PI else atan (y / x) - PI
  else if Rlt_dec 0 y then PI / 2
  else if Rlt_dec y 0 then - (PI / 2)
  else 0.

(** [np.angle]. *)
Definition angle (a : complex) : R := arctan2 (im a) (re a).

(** [np.radians] and [np.rad2deg] (also [np.degrees]). *)
Definition radians (d : R) : R := d * (PI / 180).
Definition rad2deg (r : R) : R := r * (180 / PI).

(** [np.exp] of a complex number; [Cj] is the literal [1j]. *)
Definition Cexp (a : complex) : complex :=
  mkC (exp (re a) * cos (im a)) (exp (re a) * sin (im a)).
Definition Cj : complex := mkC 0 1.

(** [x ** 0.5] of a complex number: the principal square root. *)
Definition Csqrt (a : complex) : complex :=
  mkC (sqrt (Cabs a) * cos (angle a / 2)) (sqrt (Cabs a) * sin (angle a / 2)).

(** A comparison of floats as a boolean. *)
Definition Rgtb (x y : R) : bool := if Rlt_dec y x then true else false.

(** Two-by-two matrices, the trailing (2,2) axes of every array. *)
Record mat2 (A : Type) : Type := mkMat { m00 : A; m01 : A; m10 : A; m11 : A }.

Arguments mkMat {A} _ _ _ _.
Arguments m00 {A} _.
Arguments m01 {A} _.
Arguments m10 {A} _.
Arguments m11 {A} _.

Definition mat_map {A B : Type} (f : A -> B) (m : mat2 A) : mat2 B :=
  mkMat (f (m00 m)) (f (m01 m)) (f (m10 m)) (f (m11 m)).

Definition mat_map2 {A B C : Type} (f : A -> B -> C) (m : mat2 A) (n : mat2 B)
  : mat2 C :=
  mkMat (f (m00 m) (m00 n)) (f (m01 m) (m01 n))
        (f (m10 m) (m10 n)) (f (m11 m) (m11 n)).

(** [m[ii, jj]]; an index other than 0 and 1 is out of bounds. *)
Definition mat_get {A : Type} (m : mat2 A) (ii jj : nat) : option A :=
  match ii, jj with
  | O, O => Some (m00 m)
  | O, S O => Some (m01 m)
  | S O, O => Some (m10 m)
  | S O, S O => Some (m11 m)
  | _, _ => None
  end.

(** [np.linalg.det] of one complex matrix. *)
Definition det2 (m : mat2 complex) : complex :=
  Csub (Cmul (m00 m) (m11 m)) (Cmul (m01 m) (m10 m)).

(** Arrays of shape (N,2,2), complex and real. *)
Abbreviation carray := (list (mat2 complex)) (only parsing).
Abbreviation rarray := (list (mat2 R)) (only parsing).

Fixpoint zip_with {A B C : Type} (f : A -> B -> C) (xs : list A) (ys : list B)
  : list C :=
  match xs, ys with
  | x :: xs', y :: ys' => f x y :: zip_with f xs' ys'
  | _, _ => []
  end.

(** A binary operation on two arrays whose leading axes are broadcast
    together: equal lengths go elementwise, an axis of length one is
    stretched, anything else is numpy's ValueError. *)
Definition broadcast {A B C : Type} (f : A -> B -> C)
  (xs : list A) (ys : list B) : res (list C) :=
  if Nat.eqb (length xs) (length ys) then Ok (zip_with f xs ys)
  else match xs, ys with
       | [x], _ => Ok (map (f x) ys)
       | _, [y] => Ok (map (fun x => f x y) xs)
       | _, _ => Err (ValueError "operands could not be broadcast together")
       end.

(** A complex array times, or divided by, a real scalar: numpy promotes the
    scalar to a complex number. *)
Definition cscale (a : carray) (s : R) : carray :=
  map (mat_map (fun x => Cmul x (RtoC s))) a.
Definition cunscale (a : carray) (s : R) : carray :=
  map (mat_map (fun x => Cdiv x (RtoC s))) a.
Definition rscale (a : rarray) (s : R) : rarray :=
  map (mat_map (fun x => x * s)) a.
Definition runscale (a : rarray) (s : R) : rarray :=
  map (mat_map (fun x => x / s)) a.

(** [a[:, ii, jj]]. *)
Fixpoint column {A : Type} (a : list (mat2 A)) (ii jj : nat) : res (list A) :=
  match a with
  | [] => match mat_get (mkMat tt tt tt tt) ii jj with
          | Some _ => Ok []
          | None => Err (IndexError "index out of bounds")
          end
  | m :: a' =>
      match mat_get m ii jj with
      | Some x => xs <- column a' ii jj ;; Ok (x :: xs)
      | None => Err (IndexError "index out of bounds")
      end
  end.

End Np.
Import Np.

(** ** The container underneath: class TFBase *)

Module TFBase.

(** Modelled from the spec: the storage of the transfer-function container
    (class TFBase of mtpy/core/transfer_function/base.py, which is not among
    the sources).  It stores the complex (N,2,2) array, its error array, its
    model-error array and the frequency axis, and signals the absence of
    each distinctly from a zero-filled array. *)
Record Dataset : Type := mkDataset {
  transfer_function : option carray;
  transfer_function_error : option rarray;
  transfer_function_model_error : option rarray;
  frequency : option (list R)
}.

(** Modelled from the spec: the container without any data (TFBase is
    missing), as an object constructed from no array has it. *)
Definition empty : Dataset := mkDataset None None None None.

Definition present {A : Type} (o : option A) : bool :=
  match o with
  | Some _ => true
  | None => false
  end.

(** Modelled from the spec: the four presence tests of the missing TFBase
    ([_has_tf], [_has_tf_error], [_has_tf_model_error], [_has_frequency]). *)
Definition _has_tf (d : Dataset) : bool := present (transfer_function d).
Definition _has_tf_error (d : Dataset) : bool :=
  present (transfer_function_error d).
Definition _has_tf_model_error (d : Dataset) : bool :=
  present (transfer_function_model_error d).
Definition _has_frequency (d : Dataset) : bool := present (frequency d).

(** Modelled from the spec: the negation of the "is populated" predicate of
    the missing TFBase; a container that holds a frequency axis only is
    populated, so that a later write preserves the axis. *)
Definition _is_empty (d : Dataset) : bool :=
  negb (_has_tf d || _has_tf_error d || _has_tf_model_error d
        || _has_frequency d).

(** Modelled from the spec: the leading dimension N that the stored fields
    of the missing TFBase establish, if any does. *)
Definition n_periods (d : Dataset) : option nat :=
  match transfer_function d with
  | Some a => Some (length a)
  | None =>
    match transfer_function_error d with
    | Some a => Some (length a)
    | None =>
      match transfer_function_model_error d with
      | Some a => Some (length a)
      | None => option_map (@length R) (frequency d)
      end
    end
  end.

(** Modelled from the spec: [.shape] of a field of the missing container;
    the fields share the leading axis, so an absent field has the length the
    container has established, and none in an empty container. *)
Definition shape {A : Type} (field : option (list A)) (d : Dataset)
  : option nat :=
  match field with
  | Some a => Some (length a)
  | None => n_periods d
  end.

(** Modelled from the spec: [_validate_array_input] of the missing TFBase.
    [None] is passed through; an array whose leading length disagrees with
    the established one is rejected with the error that names the expected
    and the received length.  The trailing (2,2) axes and the dtype are
    fixed by the type of the array. *)
Definition _validate_array_input {A : Type}
  (tf_array : option (list (mat2 A))) (old_shape : option nat)
  : res (option (list (mat2 A))) :=
  match tf_array with
  | None => Ok None
  | Some a =>
    match old_shape with
    | None => Ok (Some a)
    | Some n =>
      if Nat.eqb (length a) n then Ok (Some a)
      else Err (ShapeMismatchError n (length a))
    end
  end.

(** Modelled from the spec: [_validate_frequency] of the missing TFBase,
    the validation of a frequency axis for positivity. *)
Definition _validate_frequency (f : list R) : res (list R) :=
  if forallb (fun x => Rgtb x 0) f then Ok f
  else Err (ValueError "frequency must be positive").

Definition agree (expected received : option nat) : res (option nat) :=
  match expected, received with
  | Some e, Some r =>
    if Nat.eqb e r then Ok (Some e) else Err (ShapeMismatchError e r)
  | Some e, None => Ok (Some e)
  | None, r => Ok r
  end.

(** Modelled from the spec: [_initialize] of the missing TFBase, the
    "initialize from first write" operation; fields given together must
    agree on the leading length. *)
Definition _initialize (tf : option carray) (tf_error tf_model_error : option rarray)
  (freq : option (list R)) : res Dataset :=
  n1 <- agree (option_map (@length R) freq)
              (option_map (@length (mat2 complex)) tf) ;;
  n2 <- agree n1 (option_map (@length (mat2 R)) tf_error) ;;
  _ <- agree n2 (option_map (@length (mat2 R)) tf_model_error) ;;
  Ok (mkDataset tf tf_error tf_model_error freq).

(** Modelled from the spec: the constructor of the missing TFBase. *)
Definition __init__ (tf : option carray) (tf_error tf_model_error : option rarray)
  (freq : option (list R)) : res Dataset :=
  freq' <- match freq with
           | None => Ok None
           | Some f => f' <- _validate_frequency f ;; Ok (Some f')
           end ;;
  _initialize tf tf_error tf_model_error freq'.

(** Modelled from the spec: the [frequency] setter of the missing TFBase;
    the new axis must have the established length. *)
Definition set_frequency (f : list R) (d : Dataset) : res Dataset :=
  match n_periods d with
  | None =>
    Ok (mkDataset (transfer_function d) (transfer_function_error d)
                  (transfer_function_model_error d) (Some f))
  | Some n =>
    if Nat.eqb n (length f)
    then Ok (mkDataset (transfer_function d) (transfer_function_error d)
                       (transfer_function_model_error d) (Some f))
    else Err (ShapeMismatchError n (length f))
  end.

(** Modelled from the spec: assignment to one stored field of the missing
    container, [_dataset[name].loc[comps] = value]; the other fields are
    preserved. *)
Definition set_tf (a : carray) (d : Dataset) : Dataset :=
  mkDataset (Some a) (transfer_function_error d)
            (transfer_function_model_error d) (frequency d).
Definition set_tf_error (a : rarray) (d : Dataset) : Dataset :=
  mkDataset (transfer_function d) (Some a)
            (transfer_function_model_error d) (frequency d).
Definition set_tf_model_error (a : rarray) (d : Dataset) : Dataset :=
  mkDataset (transfer_function d) (transfer_function_error d)
            (Some a) (frequency d).

(** Modelled from the spec: the [period] axis of the missing TFBase, the
    reciprocal of the frequency. *)
Definition period (d : Dataset) : option (list R) :=
  option_map (map (fun f => 1 / f)) (frequency d).

End TFBase.
Import TFBase.

(** ** Python values the class handles *)

Definition lower_ascii (c : ascii) : ascii :=
  let n := nat_of_ascii c in
  if (Nat.leb 65 n && Nat.leb n 90)%bool then ascii_of_nat (n + 32) else c.

(** [str.lower]. *)
Fixpoint lower (s : string) : string :=
  match s with
  | EmptyString => EmptyString
  | String c s' => String (lower_ascii c) (lower s')
  end.

(** A dict with string keys, in insertion order. *)
Definition dict (V : Type) : Type := list (string * V).

Definition keys {V : Type} (d : dict V) : list string := map fst d.

Fixpoint dict_get {V : Type} (d : dict V) (k : string) : res V :=
  match d with
  | [] => Err (KeyError k)
  | (k', v) :: d' => if String.eqb k' k then Ok v else dict_get d' k
  end.

Definition str_in (k : string) (ks : list string) : bool :=
  existsb (String.eqb k) ks.

(** A static-shift factor as [remove_ss] may receive it: a number, a Python
    list of numbers or a one-dimensional array of numbers. *)
Inductive factor : Type :=
| Scalar (x : R)
| PyList (l : list R)
| NdArray (l : list R).

(** [np.iterable]. *)
Definition iterable (f : factor) : bool :=
  match f with
  | Scalar _ => false
  | PyList _ | NdArray _ => true
  end.

(** [len]. *)
Definition py_len (f : factor) : res nat :=
  match f with
  | Scalar _ => Err (TypeError "object of type 'float' has no len()")
  | PyList l | NdArray l => Ok (length l)
  end.

(** [float]. *)
Definition py_float (f : factor) : res R :=
  match f with
  | Scalar x => Ok x
  | PyList _ =>
    Err (TypeError "float() argument must be a string or a real number")
  | NdArray [x] => Ok x
  | NdArray _ =>
    Err (TypeError "only length-1 arrays can be converted to Python scalars")
  end.

(** [np.array(factor, dtype=float)]. *)
Definition np_array (f : factor) : list R :=
  match f with
  | Scalar x => [x]
  | PyList l | NdArray l => l
  end.

(** [len] of an optional array: [None] has no length. *)
Definition len_opt {A : Type} (a : option (list A)) : res nat :=
  match a with
  | Some l => Ok (length l)
  | None => Err (TypeError "object of type 'NoneType' has no len()")
  end.

(** ** The class Z *)

Record ZObj : Type := mkZ {
  _ohm_factor : R;
  _unit_factors : dict R;
  _units : string;
  _dataset : Dataset
}.

Definition with_units (self : ZObj) (u : string) : ZObj :=
  mkZ (_ohm_factor self) (_unit_factors self) u (_dataset self).

Definition with_dataset (self : ZObj) (d : Dataset) : ZObj :=
  mkZ (_ohm_factor self) (_unit_factors self) (_units self) d.

(** What the phase tensor exposes to this class. *)
Record PhaseTensorObj : Type := mkPT {
  eccentricity : list R;
  skew : list R
}.

(** A method that may assign to [self]: the result or the exception, and
    the object as the call leaves it. *)
Definition M (A : Type) : Type := ZObj -> res A * ZObj.

Definition retM {A : Type} (a : A) : M A := fun self => (Ok a, self).

Definition bindM {A B : Type} (c : M A) (k : A -> M B) : M B :=
  fun self =>
    match c self with
    | (Ok a, self') => k a self'
    | (Err e, self') => (Err e, self')
    end.

(** A computation that reads [self] only. *)
Definition readM {A : Type} (r : ZObj -> res A) : M A :=
  fun self => (r self, self).

Notation "x <~ c ;; k" := (bindM c (fun x => k))
  (at level 61, c at next level, right associativity).

Section ZClass.

(** The package constant [MT_TO_OHM_FACTOR], imported by z.py from the
    package's __init__, which is not among the sources. *)
Variable MT_TO_OHM_FACTOR : R.

(** Modelled from the spec: the table [IMPEDANCE_UNITS] of the missing
    package __init__, the fixed map from the unit keys to the scale factors:
    1 for the field unit, the conversion constant for Ohm. *)
Definition IMPEDANCE_UNITS : dict R :=
  [("mt"%string, 1); ("ohm"%string, MT_TO_OHM_FACTOR)].

(** The collaborators of z_analysis.py and pt.py, which are not among the
    sources. *)
Variable remove_distortion_from_z_object :
  ZObj -> mat2 R -> option (mat2 R) -> res (carray * rarray).
Variable find_distortion :
  ZObj -> string -> bool -> bool -> res (mat2 R * option (mat2 R)).
Variable PhaseTensor :
  option carray -> option rarray -> option rarray -> option (list R) ->
  res PhaseTensorObj.

(** [units] getter and setter.  The setter tests the lower-cased value and
    stores the value as given; that it is a string is its type here. *)
Definition units (self : ZObj) : string := _units self.

Definition units_setter (value : string) : M unit :=
  fun self =>
    if negb (str_in (lower value) (keys (_unit_factors self)))
    then (Err (ValueError "not an acceptable unit for impedance"), self)
    else (Ok tt, with_units self value).

(** [_scale_factor]. *)
Definition _scale_factor (self : ZObj) : res R :=
  dict_get (_unit_factors self) (_units self).

Definition scaled_c (self : ZObj) (a : option carray) : res (option carray) :=
  match a with
  | None => Ok None
  | Some v => sf <- _scale_factor self ;; Ok (Some (cscale v sf))
  end.

Definition scaled_r (self : ZObj) (a : option rarray) : res (option rarray) :=
  match a with
  | None => Ok None
  | Some v => sf <- _scale_factor self ;; Ok (Some (rscale v sf))
  end.

(** [Z.__init__]. *)
Definition __init__ (z : option carray) (z_error : option rarray)
  (frequency : option (list R)) (z_model_error : option rarray)
  (units : string) : res ZObj :=
  let self0 := mkZ MT_TO_OHM_FACTOR IMPEDANCE_UNITS EmptyString TFBase.empty in
  match units_setter units self0 with
  | (Err e, _) => Err e
  | (Ok _, self) =>
    z' <- scaled_c self z ;;
    z_error' <- scaled_r self z_error ;;
    z_model_error' <- scaled_r self z_model_error ;;
    d <- TFBase.__init__ z' z_error' z_model_error' frequency ;;
    Ok (with_dataset self d)
  end.

(** The [frequency] property inherited from TFBase. *)
Definition frequency (self : ZObj) : option (list R) :=
  TFBase.frequency (_dataset self).

(** [z] getter. *)
Definition z (self : ZObj) : res (option carray) :=
  match transfer_function (_dataset self) with
  | Some values => sf <- _scale_factor self ;; Ok (Some (cunscale values sf))
  | None => Ok None
  end.

(** [z] setter. *)
Definition z_setter (z : option carray) : M unit :=
  fun self =>
    let d := _dataset self in
    let old_shape :=
      if _has_tf d then shape (transfer_function d) d
      else if _has_frequency d then option_map (@length R) (frequency self)
      else None in
    match _validate_array_input z old_shape with
    | Err e => (Err e, self)
    | Ok None => (Ok tt, self)
    | Ok (Some z) =>
      if _is_empty d then
        match _initialize (Some z) None None None with
        | Ok d' => (Ok tt, with_dataset self d')
        | Err e => (Err e, self)
        end
      else (Ok tt, with_dataset self (set_tf z d))
    end.

(** [z_error] getter. *)
Definition z_error (self : ZObj) : res (option rarray) :=
  match transfer_function_error (_dataset self) with
  | Some values => sf <- _scale_factor self ;; Ok (Some (runscale values sf))
  | None => Ok None
  end.

(** [z_error] setter. *)
Definition z_error_setter (z_error : option rarray) : M unit :=
  fun self =>
    let d := _dataset self in
    let old_shape :=
      if negb (_has_tf_error d) then shape (transfer_function_error d) d
      else if _has_frequency d then option_map (@length R) (frequency self)
      else None in
    match _validate_array_input z_error old_shape with
    | Err e => (Err e, self)
    | Ok None => (Ok tt, self)
    | Ok (Some z_error) =>
      if _is_empty d then
        match _initialize None (Some z_error) None None with
        | Ok d' => (Ok tt, with_dataset self d')
        | Err e => (Err e, self)
        end
      else (Ok tt, with_dataset self (set_tf_error z_error d))
    end.

(** [z_model_error] getter. *)
Definition z_model_error (self : ZObj) : res (option rarray) :=
  match transfer_function_model_error (_dataset self) with
  | Some values => sf <- _scale_factor self ;; Ok (Some (runscale values sf))
  | None => Ok None
  end.

(** [z_model_error] setter: the old shape is read from the error array, and
    an empty container is initialised through [tf_error]. *)
Definition z_model_error_setter (z_model_error : option rarray) : M unit :=
  fun self =>
    let d := _dataset self in
    let old_shape :=
      if negb (_has_tf_model_error d) then shape (transfer_function_error d) d
      else if _has_frequency d then option_map (@length R) (frequency self)
      else None in
    match _validate_array_input z_model_error old_shape with
    | Err e => (Err e, self)
    | Ok None => (Ok tt, self)
    | Ok (Some z_model_error) =>
      if _is_empty d then
        match _initialize None (Some z_model_error) None None with
        | Ok d' => (Ok tt, with_dataset self d')
        | Err e => (Err e, self)
        end
      else (Ok tt, with_dataset self (set_tf_model_error z_model_error d))
    end.

(** The [frequency] setter inherited from TFBase. *)
Definition frequency_setter (f : list R) : M unit :=
  fun self =>
    match set_frequency f (_dataset self) with
    | Ok d => (Ok tt, with_dataset self d)
    | Err e => (Err e, self)
    end.

(** *** Static shift *)

(** The local function [_validate_factor_single] of [remove_ss]; [float]
    raises no ValueError on the factors of type [factor]. *)
Definition _validate_factor_single (self : ZObj) (factor : factor)
  : res (list R) :=
  x_factor <- py_float factor ;;
  zv <- z self ;;
  n <- len_opt zv ;;
  Ok (repeat x_factor n).

(** The local function [_validate_ss_input] of [remove_ss]; it closes over
    [reduce_res_factor_x], whose length the second branch takes whichever
    factor is being validated. *)
Definition _validate_ss_input (self : ZObj) (reduce_res_factor_x : factor)
  (factor : factor) : res (list R) :=
  x_factor <-
    (if negb (iterable factor) then _validate_factor_single self factor
     else
       n <- py_len reduce_res_factor_x ;;
       if Nat.eqb n 1 then _validate_factor_single self factor
       else Ok (np_array factor)) ;;
  zv <- z self ;;
  n <- len_opt zv ;;
  if negb (Nat.eqb (length x_factor) n)
  then Err (ValueError "Length of reduce_res_factor_x needs to be len(z)")
  else Ok x_factor.

(** The four assignments [z_corrected[:, i, j] = (self.z[:, i, j] *
    self._scale_factor) / factors] of [remove_ss]. *)
Definition ss_correct (sf : R) (m : mat2 complex) (xy : R * R) : mat2 complex :=
  mkMat (Cdiv (Cmul (m00 m) (RtoC sf)) (RtoC (fst xy)))
        (Cdiv (Cmul (m01 m) (RtoC sf)) (RtoC (fst xy)))
        (Cdiv (Cmul (m10 m) (RtoC sf)) (RtoC (snd xy)))
        (Cdiv (Cmul (m11 m) (RtoC sf)) (RtoC (snd xy))).

Definition ss_corrected (self : ZObj)
  (reduce_res_factor_x reduce_res_factor_y : factor) : res carray :=
  xv <- _validate_ss_input self reduce_res_factor_x reduce_res_factor_x ;;
  let x_factors := map sqrt xv in
  yv <- _validate_ss_input self reduce_res_factor_x reduce_res_factor_y ;;
  let y_factors := map sqrt yv in
  zv <- z self ;;
  match zv with
  | None => Err (TypeError "'NoneType' object is not subscriptable")
  | Some zd =>
    sf <- _scale_factor self ;;
    let z_corrected :=
      zip_with (ss_correct sf) zd (combine x_factors y_factors) in
    Ok (cunscale z_corrected sf)
  end.

(** [remove_ss]. *)
Definition remove_ss (reduce_res_factor_x reduce_res_factor_y : factor)
  (inplace : bool) : M (option ZObj) :=
  fun self =>
    match ss_corrected self reduce_res_factor_x reduce_res_factor_y with
    | Err e => (Err e, self)
    | Ok z_corrected =>
      if inplace then
        (_ <~ z_setter (Some z_corrected) ;; retM None) self
      else
        (ze <- z_error self ;;
         zme <- z_model_error self ;;
         new <- __init__ (Some z_corrected) ze (frequency self) zme
                         (units self) ;;
         Ok (Some new), self)
    end.

(** *** Distortion *)

(** [estimate_distortion]. *)
Definition estimate_distortion (self : ZObj) (n_frequencies : option nat)
  (comp : string) (only_2d clockwise : bool)
  : res (mat2 R * option (mat2 R)) :=
  nf <- match n_frequencies with
        | Some n => Ok n
        | None =>
          match frequency self with
          | Some f => Ok (length f)
          | None => Err (AttributeError "'NoneType' object has no attribute 'size'")
          end
        end ;;
  new_z_object <-
    match transfer_function (_dataset self) with
    | None => Err (UnboundLocalError "new_z_object")
    | Some values =>
      f <- match frequency self with
           | Some f => Ok (firstn nf f)
           | None => Err (TypeError "'NoneType' object is not subscriptable")
           end ;;
      o <- __init__ (Some (firstn nf values)) None (Some f) None "mt" ;;
      match transfer_function_error (_dataset self) with
      | None => Ok o
      | Some e =>
        match z_error_setter (Some (firstn nf e)) o with
        | (Ok _, o') => Ok o'
        | (Err x, _) => Err x
        end
      end
    end ;;
  find_distortion new_z_object comp only_2d clockwise.

(** [remove_distortion]. *)
Definition remove_distortion (distortion_tensor distortion_error_tensor : option (mat2 R))
  (n_frequencies : option nat) (comp : string) (only_2d inplace : bool)
  : M (option ZObj) :=
  fun self =>
    match
      (dd <- match distortion_tensor with
             | Some d => Ok (d, distortion_error_tensor)
             | None => estimate_distortion self n_frequencies comp only_2d true
             end ;;
       cc <- remove_distortion_from_z_object self (fst dd) (snd dd) ;;
       sf <- _scale_factor self ;;
       sf' <- _scale_factor self ;;
       Ok (cscale (fst cc) sf, rscale (snd cc) sf'))
    with
    | Err e => (Err e, self)
    | Ok (z_corrected, z_corrected_error) =>
      if inplace then
        (_ <~ z_setter (Some z_corrected) ;;
         _ <~ z_error_setter (Some z_corrected_error) ;;
         retM None) self
      else
        (zme <- z_model_error self ;;
         z_object <- __init__ (Some z_corrected) (Some z_corrected_error)
                              (frequency self) zme "mt" ;;
         match units_setter (units self) z_object with
         | (Ok _, z_object') => Ok (Some z_object')
         | (Err e, _) => Err e
         end, self)
    end.

(** *** Resistivity and phase *)

(** [resistivity]: [np.apply_along_axis] hands each column [x] of the
    array, of length N, to the function, which divides it by the frequency
    axis with numpy's broadcasting. *)
Definition resistivity (self : ZObj) : res (option rarray) :=
  zv <- z self ;;
  match zv with
  | None => Ok None
  | Some zd =>
    sf <- _scale_factor self ;;
    match frequency self with
    | None => Err (TypeError "unsupported operand type(s) for /")
    | Some f =>
      r <- broadcast
             (fun m fr => mat_map (fun x => Cabs x ^ 2 / fr * 0.2) m)
             (cscale zd sf) f ;;
      Ok (Some r)
    end
  end.

(** [phase]. *)
Definition phase (self : ZObj) : res (option rarray) :=
  zv <- z self ;;
  match zv with
  | None => Ok None
  | Some zd =>
    sf <- _scale_factor self ;;
    Ok (Some (map (mat_map (fun x => rad2deg (angle x))) (cscale zd sf)))
  end.

(** [_compute_z_error]. *)
Definition _compute_z_error (self : ZObj) (res_error phase_error : option rarray)
  : res (option rarray) :=
  match res_error with
  | None => Ok None
  | Some rerr =>
    match frequency self with
    | None => Err (TypeError "unsupported operand type(s) for *")
    | Some f =>
      a <- broadcast (fun m fr => mat_map (fun r => sqrt (fr * r * 250)) m)
                     rerr f ;;
      match phase_error with
      | None => Err (TypeError "loop of ufunc does not support NoneType")
      | Some perr =>
        b <- broadcast (mat_map2 (fun x p => Rabs (x * tan (radians p))))
                       a perr ;;
        Ok (Some b)
      end
    end
  end.

(** [abs_z * np.exp(1j * np.radians(phase))] on one entry. *)
Definition polar (abs_z ph : R) : complex :=
  Cmul (RtoC abs_z) (Cexp (Cmul Cj (RtoC (radians ph)))).

(** [set_resistivity_phase]. *)
Definition set_resistivity_phase (resistivity phase : option rarray)
  (frequency_in : option (list R))
  (res_error phase_error res_model_error phase_model_error : option rarray)
  : M unit :=
  match resistivity, phase, frequency_in with
  | Some rho, Some ph, Some fq =>
    f <~ readM (fun _ => _validate_frequency fq) ;;
    _ <~ frequency_setter f ;;
    rho' <~ readM (fun _ => _validate_array_input (Some rho) None) ;;
    ph' <~ readM (fun _ => _validate_array_input (Some ph) None) ;;
    res_error <~ readM (fun _ => _validate_array_input res_error None) ;;
    phase_error <~ readM (fun _ => _validate_array_input phase_error None) ;;
    res_model_error <~
      readM (fun _ => _validate_array_input res_model_error None) ;;
    phase_model_error <~
      readM (fun _ => _validate_array_input phase_model_error None) ;;
    zval <~ readM (fun self =>
      match rho', ph', frequency self with
      | Some r, Some p, Some fr =>
        abs_z <- broadcast
                   (fun m f1 => mat_map (fun x => sqrt (5 * f1 * x)) m) r fr ;;
        broadcast (mat_map2 polar) abs_z p
      | _, _, _ => Err (TypeError "unsupported operand type(s) for *")
      end) ;;
    _ <~ z_setter (Some zval) ;;
    ze <~ readM (fun self => _compute_z_error self res_error phase_error) ;;
    _ <~ z_error_setter ze ;;
    zme <~ readM (fun self =>
             _compute_z_error self res_model_error phase_model_error) ;;
    z_model_error_setter zme
  | _, _, _ => retM tt
  end.

(** *** Determinant *)

(** [det]. *)
Definition det (self : ZObj) : res (option (list complex)) :=
  zv <- z self ;;
  match zv with
  | None => Ok None
  | Some [] => Ok (Some [])
  | Some zd =>
    sf <- _scale_factor self ;;
    Ok (Some (map (fun ii =>
                     Csqrt (det2 (mat_map (fun x => Cmul x (RtoC sf)) ii)))
                  zd))
  end.

(** [(np.abs(np.linalg.det(z + e) - np.linalg.det(z - e)) / 2.0) ** 0.5] for
    a complex array [z] and a real array [e]. *)
Definition det_spread (zd : carray) (e : rarray) : res (list R) :=
  plus <- broadcast (mat_map2 (fun x y => Cadd x (RtoC y))) zd e ;;
  minus <- broadcast (mat_map2 (fun x y => Csub x (RtoC y))) zd e ;;
  d <- broadcast Csub (map det2 plus) (map det2 minus) ;;
  Ok (map (fun c => sqrt (Cabs c / 2)) d).

(** [target[:] = rhs] for a one-dimensional target of length [n]. *)
Definition assign_all {A : Type} (n : nat) (rhs : list A) : res (list A) :=
  if Nat.eqb (length rhs) n then Ok rhs
  else match rhs with
       | [x] => Ok (repeat x n)
       | _ => Err (ValueError "could not broadcast input array")
       end.

(** The operands [self.z] and an error array of the two determinant
    errors; [None] has no sum with an array. *)
Definition z_operand (self : ZObj) : res carray :=
  zv <- z self ;;
  match zv with
  | Some zd => Ok zd
  | None => Err (TypeError "unsupported operand type(s) for +")
  end.

(** [det_error]. *)
Definition det_error (self : ZObj) : res (option (list R)) :=
  ze <- z_error self ;;
  match ze with
  | None => Ok None
  | Some e =>
    dt <- det self ;;
    sf <- _scale_factor self ;;
    zd <- z_operand self ;;
    s <- det_spread zd e ;;
    match dt with
    | Some l => r <- assign_all (length l) (map (fun v => sf * v) s) ;;
                Ok (Some r)
    | None => Err (IndexError "too many indices for array")
    end
  end.

(** [det_model_error]. *)
Definition det_model_error (self : ZObj) : res (option (list R)) :=
  zme <- z_model_error self ;;
  match zme with
  | None => Ok None
  | Some e =>
    dt <- det self ;;
    zd <- z_operand self ;;
    s <- det_spread zd e ;;
    match dt with
    | Some l => r <- assign_all (length l) s ;; Ok (Some r)
    | None => Err (IndexError "too many indices for array")
    end
  end.

(** *** Components *)

(** [s[-k]] for a string. *)
Definition neg_index (s : string) (k : nat) : res string :=
  if Nat.ltb (String.length s) k then Err (IndexError "string index out of range")
  else Ok (substring (String.length s - k) 1 s).

Definition index_dict : dict nat := [("x"%string, 0%nat); ("y"%string, 1%nat)].

(** [_get_component]. *)
Definition _get_component {A : Type} (comp : string)
  (array : option (list (mat2 A))) : res (option (list A)) :=
  match array with
  | None => Ok None
  | Some a =>
    c2 <- neg_index comp 2 ;;
    ii <- dict_get index_dict c2 ;;
    c1 <- neg_index comp 1 ;;
    jj <- dict_get index_dict c1 ;;
    col <- column a ii jj ;;
    Ok (Some col)
  end.

Definition res_xx (self : ZObj) : res (option (list R)) :=
  a <- resistivity self ;; _get_component "xx" a.
Definition res_xy (self : ZObj) : res (option (list R)) :=
  a <- resistivity self ;; _get_component "xy" a.
Definition res_yx (self : ZObj) : res (option (list R)) :=
  a <- resistivity self ;; _get_component "yx" a.
Definition res_yy (self : ZObj) : res (option (list R)) :=
  a <- resistivity self ;; _get_component "yy" a.
Definition phase_xx (self : ZObj) : res (option (list R)) :=
  a <- phase self ;; _get_component "xx" a.
Definition phase_xy (self : ZObj) : res (option (list R)) :=
  a <- phase self ;; _get_component "xy" a.
Definition phase_yx (self : ZObj) : res (option (list R)) :=
  a <- phase self ;; _get_component "yx" a.
Definition phase_yy (self : ZObj) : res (option (list R)) :=
  a <- phase self ;; _get_component "yy" a.

(** *** Dimensionality *)

(** [phase_tensor]. *)
Definition phase_tensor (self : ZObj) : res PhaseTensorObj :=
  zv <- z self ;;
  ze <- z_error self ;;
  zme <- z_model_error self ;;
  PhaseTensor zv ze zme (frequency self).

(** [np.where(cond)[0]] for a one-dimensional condition. *)
Definition np_where {A : Type} (cond : A -> bool) (l : list A) : list nat :=
  map fst (filter (fun ix => cond (snd ix)) (combine (seq 0 (length l)) l)).

(** [a[i] = v]. *)
Fixpoint set_index {A : Type} (a : list A) (i : nat) (v : A) : res (list A) :=
  match a, i with
  | [], _ => Err (IndexError "index is out of bounds")
  | _ :: a', O => Ok (v :: a')
  | x :: a', S i' => r <- set_index a' i' v ;; Ok (x :: r)
  end.

(** [a[indices] = v]. *)
Fixpoint assign_at {A : Type} (a : list A) (indices : list nat) (v : A)
  : res (list A) :=
  match indices with
  | [] => Ok a
  | i :: indices' => a' <- set_index a i v ;; assign_at a' indices' v
  end.

(** [estimate_dimensionality]. *)
Definition estimate_dimensionality (self : ZObj)
  (skew_threshold eccentricity_threshold : R) : res (list Z) :=
  n <- match period (_dataset self) with
       | Some p => Ok (length p)
       | None => Err (AttributeError "'NoneType' object has no attribute 'size'")
       end ;;
  let dimensionality := repeat 1%Z n in
  pt <- phase_tensor self ;;
  dimensionality <-
    assign_at dimensionality
      (np_where (fun e => Rgtb e eccentricity_threshold) (eccentricity pt))
      2%Z ;;
  pt' <- phase_tensor self ;;
  assign_at dimensionality
    (np_where (fun s => Rgtb (Rabs s) skew_threshold) (skew pt')) 3%Z.

End ZClass.

Arguments units_setter value self /.
Arguments frequency_setter f self /.

(** ** Well-formed objects *)

(** An instance of the package constant: the conversion between mV/km/nT
    and Ohm, 10^4 / (4 pi), about 795.77. *)
Definition MT_TO_OHM_FACTOR_value : R := 2500 / PI.

(** The unit keys of the table. *)
Definition recognized (u : string) : Prop := u = "mt"%string \/ u = "ohm"%string.

Definition has_length {A : Type} (o : option (list A)) (n : nat) : Prop :=
  match o with
  | Some a => length a = n
  | None => True
  end.

(** The stored fields agree on the leading length. *)
Definition consistent (d : Dataset) : Prop :=
  forall n, n_periods d = Some n ->
    has_length (transfer_function d) n /\
    has_length (transfer_function_error d) n /\
    has_length (transfer_function_model_error d) n /\
    has_length (TFBase.frequency d) n.

Definition positive_axis (f : option (list R)) : Prop :=
  match f with
  | Some l => Forall (fun x => 0 < x) l
  | None => True
  end.

(** The invariant of an object of the class: the constant and the table
    are the package's, the unit is one of the table's keys, the frequencies
    are positive and the container is consistent. *)
Record wf (F : R) (self : ZObj) : Prop := mkWf {
  wf_ohm : _ohm_factor self = F;
  wf_table : _unit_factors self = IMPEDANCE_UNITS F;
  wf_units : recognized (_units self);
  wf_freq : positive_axis (TFBase.frequency (_dataset self));
  wf_shape : consistent (_dataset self)
}.

(** The scale factor of a unit key. *)
Definition factor_of (F : R) (u : string) : R :=
  if String.eqb u "mt" then 1 else F.

(** ** Scenarios and formulas of the statements *)

(** The scenario of the round trip: construct an object with the unit [U]
    and no data, assign [X] through the setter, read [z]. *)
Definition set_then_get (F : R) (U : string) (X : carray) : res (option carray) :=
  match __init__ F None None None None U with
  | Err e => Err e
  | Ok s0 =>
    match z_setter (Some X) s0 with
    | (Err e, _) => Err e
    | (Ok _, s1) => z s1
    end
  end.

(** The same through the constructor: construct with the unit [U] and the
    tensor [X], read [z]. *)
Definition construct_then_get (F : R) (U : string) (X : carray)
  : res (option carray) :=
  match __init__ F (Some X) None None None U with
  | Err e => Err e
  | Ok s => z s
  end.

Definition identity_tensor : mat2 complex :=
  mkMat (RtoC 1) (RtoC 0) (RtoC 0) (RtoC 1).

(** The formula of the spec for one frequency:
    sqrt(|det(Z+E) - det(Z-E)| / 2). *)
Definition spec_det_error (m : mat2 complex) (e : mat2 R) : R :=
  sqrt (Cabs (Csub (det2 (mat_map2 (fun x y => Cadd x (RtoC y)) m e))
                   (det2 (mat_map2 (fun x y => Csub x (RtoC y)) m e))) / 2).

(** The determinant error as the claim states it: the formula, divided by
    the unit scale factor. *)
Definition claimed_det_error (sf : R) (zs : carray) (es : rarray) : list R :=
  map (fun v => v / sf) (zip_with spec_det_error zs es).

Definition identity_error : mat2 R := mkMat 1 0 0 1.

(** An object with the unit "ohm" that holds the identity tensor, the
    identity error and the frequency 1, as its constructor stores them. *)
Definition ohm_identity_object : ZObj :=
  mkZ MT_TO_OHM_FACTOR_value (IMPEDANCE_UNITS MT_TO_OHM_FACTOR_value) "ohm"
      (mkDataset (Some (cscale [identity_tensor] MT_TO_OHM_FACTOR_value))
                 (Some (rscale [identity_error] MT_TO_OHM_FACTOR_value))
                 None (Some [1])).

(** The tensor of the end-to-end example,
    [[[1+1j, 0.1+0.1j], [0.1+0.1j, 1+1j]]]. *)
Definition example_tensor : mat2 complex :=
  mkMat (mkC 1 1) (mkC 0.1 0.1) (mkC 0.1 0.1) (mkC 1 1).

(** The object of the end-to-end example, constructed in field units. *)
Definition example_object (F : R) : res ZObj :=
  __init__ F (Some [example_tensor]) None (Some [1]) None "mt".

Definition mat_all {A : Type} (P : A -> Prop) (m : mat2 A) : Prop :=
  P (m00 m) /\ P (m01 m) /\ P (m10 m) /\ P (m11 m).

(** The tensor that [set_resistivity_phase] builds from arrays of equal
    length. *)
Definition reconstructed (rho phi : rarray) (f : list R) : carray :=
  zip_with (mat_map2 polar)
    (zip_with (fun m f1 => mat_map (fun x => sqrt (5 * f1 * x)) m) rho f) phi.

(** The scenario of the round trip: call [set_resistivity_phase] with the
    three arrays and no errors, then read [resistivity] and [phase]. *)
Definition reread (self : ZObj) (rho phi : rarray) (f : list R)
  : res (option rarray * option rarray) :=
  match set_resistivity_phase (Some rho) (Some phi) (Some f)
          None None None None self with
  | (Err e, _) => Err e
  | (Ok _, self') => r <- resistivity self' ;; p <- phase self' ;; Ok (r, p)
  end.

(** The object a constructor call without data returns. *)
Definition empty_object (F : R) (U : string) : ZObj :=
  mkZ F (IMPEDANCE_UNITS F) U TFBase.empty.

Definition zero_resistivity : mat2 R := mkMat 0 0 0 0.

Definition ninety_degrees : mat2 R := mkMat 90 90 90 90.

Definition unit_resistivity : mat2 R := mkMat 1 1 1 1.

(** One matrix with the xx/xy row divided by sqrt(factor_x) and the yx/yy
    row divided by sqrt(factor_y). *)
Definition shift_rows (fx fy : R) (m : mat2 complex) : mat2 complex :=
  mkMat (Cdiv (m00 m) (RtoC (sqrt fx))) (Cdiv (m01 m) (RtoC (sqrt fx)))
        (Cdiv (m10 m) (RtoC (sqrt fy))) (Cdiv (m11 m) (RtoC (sqrt fy))).

(** The dimensionality of one frequency as the spec words it: 1, raised to
    2 where the eccentricity exceeds its threshold, then to 3 where |skew|
    exceeds its threshold, the later assignment winning. *)
Definition classify (skew_threshold eccentricity_threshold e s : R) : Z :=
  if Rgtb (Rabs s) skew_threshold then 3%Z
  else if Rgtb e eccentricity_threshold then 2%Z
  else 1%Z.

(** An object with three frequencies and no array, and a phase tensor with
    the skews and eccentricities of the example. *)
Definition three_frequency_object : ZObj :=
  mkZ MT_TO_OHM_FACTOR_value (IMPEDANCE_UNITS MT_TO_OHM_FACTOR_value) "mt"
      (mkDataset None None None (Some [1; 2; 3])).

Definition example_phase_tensor : PhaseTensorObj :=
  mkPT [0; 0.2; 0] [0; 0; 10].

(** The object [Z(z=[identity], z_error=[identity], frequency=[1],
    z_model_error=[identity], units="ohm")] as the constructor stores it. *)
Definition ohm_model_object : ZObj :=
  mkZ MT_TO_OHM_FACTOR_value (IMPEDANCE_UNITS MT_TO_OHM_FACTOR_value) "ohm"
      (mkDataset (Some (cscale [identity_tensor] MT_TO_OHM_FACTOR_value))
                 (Some (rscale [identity_error] MT_TO_OHM_FACTOR_value))
                 (Some (rscale [identity_error] MT_TO_OHM_FACTOR_value))
                 (Some [1])).

(** ** More properties of the class: error and determinant quantities *)

(** [resistivity_error]. *)
Definition resistivity_error (self : ZObj) : res (option rarray) :=
  zv <- z self ;;
  match zv with
  | None => Ok None
  | Some _ =>
    ze <- z_error self ;;
    match ze with
    | None => Ok None
    | Some _ =>
      ze' <- z_error self ;;
      sf <- _scale_factor self ;;
      zv' <- z self ;;
      sf' <- _scale_factor self ;;
      match ze', zv' with
      | Some ed, Some zd =>
        a <- broadcast (mat_map2 (fun e x => 2 * e * Cabs x))
                       (rscale ed sf) (cscale zd sf') ;;
        match frequency self with
        | None => Err (TypeError "unsupported operand type(s) for /")
        | Some f =>
          r <- broadcast (fun m fr => mat_map (fun x => x / fr * 0.2) m) a f ;;
          Ok (Some r)
        end
      | _, _ => Err (TypeError "unsupported operand type(s) for *")
      end
    end
  end.

(** [phase_error]. *)
Definition phase_error (self : ZObj) : res (option rarray) :=
  zv <- z self ;;
  match zv with
  | None => Ok None
  | Some _ =>
    ze <- z_error self ;;
    match ze with
    | None => Ok None
    | Some _ =>
      ze' <- z_error self ;;
      zv' <- z self ;;
      match ze', zv' with
      | Some ed, Some zd =>
        a <- broadcast (mat_map2 (fun e x => rad2deg (atan (e / Cabs x))))
                       ed zd ;;
        Ok (Some a)
      | _, _ => Err (TypeError "unsupported operand type(s) for /")
      end
    end
  end.

(** [resistivity_model_error]. *)
Definition resistivity_model_error (self : ZObj) : res (option rarray) :=
  zv <- z self ;;
  match zv with
  | None => Ok None
  | Some _ =>
    ze <- z_model_error self ;;
    match ze with
    | None => Ok None
    | Some _ =>
      ze' <- z_model_error self ;;
      sf <- _scale_factor self ;;
      zv' <- z self ;;
      sf' <- _scale_factor self ;;
      match ze', zv' with
      | Some ed, Some zd =>
        a <- broadcast (mat_map2 (fun e x => 2 * e * Cabs x))
                       (rscale ed sf) (cscale zd sf') ;;
        match frequency self with
        | None => Err (TypeError "unsupported operand type(s) for /")
        | Some f =>
          r <- broadcast (fun m fr => mat_map (fun x => x / fr * 0.2) m) a f ;;
          Ok (Some r)
        end
      | _, _ => Err (TypeError "unsupported operand type(s) for *")
      end
    end
  end.

(** [phase_model_error]. *)
Definition phase_model_error (self : ZObj) : res (option rarray) :=
  zv <- z self ;;
  match zv with
  | None => Ok None
  | Some _ =>
    ze <- z_model_error self ;;
    match ze with
    | None => Ok None
    | Some _ =>
      ze' <- z_model_error self ;;
      zv' <- z self ;;
      match ze', zv' with
      | Some ed, Some zd =>
        a <- broadcast (mat_map2 (fun e x => rad2deg (atan (e / Cabs x))))
                       ed zd ;;
        Ok (Some a)
      | _, _ => Err (TypeError "unsupported operand type(s) for /")
      end
    end
  end.

(** [phase_det]. *)
Definition phase_det (self : ZObj) : res (option (list R)) :=
  dt <- det self ;;
  match dt with
  | None => Ok None
  | Some _ =>
    di <- det self ;;
    dr <- det self ;;
    match di, dr with
    | Some ci, Some cr =>
      a <- broadcast (fun y x => rad2deg (arctan2 (im y) (re x))) ci cr ;;
      Ok (Some a)
    | _, _ => Err (AttributeError "'NoneType' object has no attribute 'imag'")
    end
  end.

(** [res_det]. *)
Definition res_det (self : ZObj) : res (option (list R)) :=
  dt <- det self ;;
  match dt with
  | None => Ok None
  | Some _ =>
    match frequency self with
    | None => Err (TypeError "unsupported operand type(s) for /")
    | Some f =>
      dt' <- det self ;;
      match dt' with
      | Some d =>
        r <- broadcast (fun fr c => 0.2 * (1 / fr) * Cabs c ^ 2) f d ;;
        Ok (Some r)
      | None => Err (TypeError "bad operand type for abs()")
      end
    end
  end.

(** A factor given as a sequence: a Python list or an array. *)
Definition is_sequence (fac : factor) (l : list R) : Prop :=
  fac = PyList l \/ fac = NdArray l.

(** One real matrix with the xx/xy row divided by [fx] and the yx/yy row
    divided by [fy]. *)
Definition row_div (fx fy : R) (m : mat2 R) : mat2 R :=
  mkMat (m00 m / fx) (m01 m / fx) (m10 m / fy) (m11 m / fy).

(** The object [estimate_distortion] hands to [find_distortion]: the first
    [nf] frequencies of the stored arrays, in the unit "mt". *)
Definition truncated_object (F : R) (self : ZObj) (nf : nat) : ZObj :=
  mkZ F (IMPEDANCE_UNITS F) "mt"
      (mkDataset
         (option_map (firstn nf) (transfer_function (_dataset self)))
         (option_map (firstn nf) (transfer_function_error (_dataset self)))
         None
         (option_map (firstn nf) (TFBase.frequency (_dataset self)))).

(** One matrix with its rows divided by the square roots of a pair of
    factors, one pair per frequency. *)
Definition shift_by (m : mat2 complex) (xy : R * R) : mat2 complex :=
  shift_rows (fst xy) (snd xy) m.

(** An object with the unit "ohm" that holds two identity tensors and the
    frequencies 1 and 2, as its constructor stores them. *)
Definition two_frequency_object : ZObj :=
  mkZ MT_TO_OHM_FACTOR_value (IMPEDANCE_UNITS MT_TO_OHM_FACTOR_value) "ohm"
      (mkDataset
         (Some (cscale [identity_tensor; identity_tensor] MT_TO_OHM_FACTOR_value))
         None None (Some [1; 2])).

(** An object with the unit "ohm" that holds an error array and a
    frequency, and no tensor. *)
Definition error_only_object : ZObj :=
  mkZ MT_TO_OHM_FACTOR_value (IMPEDANCE_UNITS MT_TO_OHM_FACTOR_value) "ohm"
      (mkDataset None (Some [identity_error]) None (Some [1])).

(** The object [Z(z=[[[1+1j, 0.1+0.1j], [0.1+0.1j, 1+1j]]],
    z_error=[identity], frequency=[1], units="ohm")] as the constructor
    stores it; no entry of its tensor is zero. *)
Definition example_error_object : ZObj :=
  mkZ MT_TO_OHM_FACTOR_value (IMPEDANCE_UNITS MT_TO_OHM_FACTOR_value) "ohm"
      (mkDataset (Some (cscale [example_tensor] MT_TO_OHM_FACTOR_value))
                 (Some (rscale [identity_error] MT_TO_OHM_FACTOR_value))
                 None (Some [1])).

(** A tensor of a one-dimensional earth: zero diagonal and Zyx = -Zxy. *)
Definition antidiagonal (m : mat2 complex) : Prop :=
  m00 m = RtoC 0 /\ m11 m = RtoC 0 /\
  re (m10 m) = - re (m01 m) /\ im (m10 m) = - im (m01 m).

(** The object [Z(z=[[[0, 1+1j], [-1-1j, 0]]], frequency=[1],
    units="ohm")] as the constructor stores it. *)
Definition one_d_object : ZObj :=
  mkZ MT_TO_OHM_FACTOR_value (IMPEDANCE_UNITS MT_TO_OHM_FACTOR_value) "ohm"
      (mkDataset
         (Some [mkMat (RtoC 0) (mkC MT_TO_OHM_FACTOR_value MT_TO_OHM_FACTOR_value)
                      (mkC (- MT_TO_OHM_FACTOR_value) (- MT_TO_OHM_FACTOR_value))
                      (RtoC 0)])
         None None (Some [1])).

(** The phase [phase] returns at one entry after [set_resistivity_phase]
    was given the resistivity [x] and the phase [p] there: an entry of
    resistivity 0 is stored as the complex 0, whose angle is 0. *)
Definition phase_read (x p : R) : R := if Rgtb x 0 then p else 0.

Definition phase_read_back (rho phi : rarray) : rarray :=
  zip_with (mat_map2 phase_read) rho phi.

Definition mat_all2 {A B : Type} (P : A -> B -> Prop) (m : mat2 A) (n : mat2 B)
  : Prop :=
  P (m00 m) (m00 n) /\ P (m01 m) (m01 n) /\
  P (m10 m) (m10 n) /\ P (m11 m) (m11 n).

(** An entry whose phase survives the round trip: its resistivity is
    positive, or its phase is 0. *)
Definition recoverable (x p : R) : Prop := 0 < x \/ p = 0.

(** Resistivity and phase of a tensor with zero diagonal. *)
Definition off_diagonal_resistivity : mat2 R := mkMat 0 1 1 0.

Definition off_diagonal_phase : mat2 R := mkMat 0 45 (-135) 0.

(** ** Arithmetic of the numpy fragment *)

Lemma complex_eq (a b : complex) : re a = re b -> im a = im b -> a = b.
Proof. destruct a, b; simpl; intros -> ->; reflexivity. Qed.

Lemma Cmul_RtoC (x : complex) (s : R) :
  Cmul x (RtoC s) = mkC (re x * s) (im x * s).
Proof. apply complex_eq; simpl; ring. Qed.

Lemma Cdiv_RtoC (x : complex) (s : R) :
  s <> 0 -> Cdiv x (RtoC s) = mkC (re x / s) (im x / s).
Proof. intros Hs; apply complex_eq; simpl; field; assumption. Qed.

Lemma Cdiv_Cmul_RtoC (x : complex) (s : R) :
  s <> 0 -> Cdiv (Cmul x (RtoC s)) (RtoC s) = x.
Proof.
  intros Hs. rewrite Cmul_RtoC, Cdiv_RtoC by assumption.
  destruct x as [a b]; simpl; f_equal; field; assumption.
Qed.

Lemma Cmul_Cdiv_RtoC (x : complex) (s : R) :
  s <> 0 -> Cmul (Cdiv x (RtoC s)) (RtoC s) = x.
Proof.
  intros Hs. rewrite Cdiv_RtoC, Cmul_RtoC by assumption.
  destruct x as [a b]; simpl; f_equal; field; assumption.
Qed.

Lemma mat_map_map {A B C : Type} (f : A -> B) (g : B -> C) (m : mat2 A) :
  mat_map g (mat_map f m) = mat_map (fun x => g (f x)) m.
Proof. reflexivity. Qed.

Lemma mat_map_id_ext {A : Type} (f : A -> A) (m : mat2 A) :
  (forall x, f x = x) -> mat_map f m = m.
Proof. intros H; destruct m; unfold mat_map; simpl; rewrite !H; reflexivity. Qed.

Lemma map_id_ext {A : Type} (f : A -> A) (l : list A) :
  (forall x, f x = x) -> map f l = l.
Proof. intros H; induction l as [|x l IH]; simpl; congruence. Qed.

Lemma cunscale_cscale (a : carray) (s : R) :
  s <> 0 -> cunscale (cscale a s) s = a.
Proof.
  intros Hs; unfold cunscale, cscale; rewrite map_map.
  apply map_id_ext; intros m; rewrite mat_map_map.
  apply mat_map_id_ext; intros x; apply Cdiv_Cmul_RtoC; assumption.
Qed.

Lemma cscale_cunscale (a : carray) (s : R) :
  s <> 0 -> cscale (cunscale a s) s = a.
Proof.
  intros Hs; unfold cunscale, cscale; rewrite map_map.
  apply map_id_ext; intros m; rewrite mat_map_map.
  apply mat_map_id_ext; intros x; apply Cmul_Cdiv_RtoC; assumption.
Qed.

Lemma runscale_rscale (a : rarray) (s : R) :
  s <> 0 -> runscale (rscale a s) s = a.
Proof.
  intros Hs; unfold runscale, rscale; rewrite map_map.
  apply map_id_ext; intros m; rewrite mat_map_map.
  apply mat_map_id_ext; intros x; field; assumption.
Qed.

Lemma rscale_runscale (a : rarray) (s : R) :
  s <> 0 -> rscale (runscale a s) s = a.
Proof.
  intros Hs; unfold runscale, rscale; rewrite map_map.
  apply map_id_ext; intros m; rewrite mat_map_map.
  apply mat_map_id_ext; intros x; field; assumption.
Qed.

Lemma cunscale_one (a : carray) : cunscale a 1 = a.
Proof.
  unfold cunscale; apply map_id_ext; intros m.
  apply mat_map_id_ext; intros x; rewrite Cdiv_RtoC by lra.
  destruct x; simpl; f_equal; field.
Qed.

Lemma cscale_length (a : carray) (s : R) : length (cscale a s) = length a.
Proof. apply length_map. Qed.

Lemma cunscale_length (a : carray) (s : R) : length (cunscale a s) = length a.
Proof. apply length_map. Qed.

Lemma rscale_length (a : rarray) (s : R) : length (rscale a s) = length a.
Proof. apply length_map. Qed.

Lemma runscale_length (a : rarray) (s : R) : length (runscale a s) = length a.
Proof. apply length_map. Qed.

Lemma broadcast_same {A B C : Type} (f : A -> B -> C) (xs : list A) (ys : list B) :
  length xs = length ys -> broadcast f xs ys = Ok (zip_with f xs ys).
Proof. intros H; unfold broadcast; rewrite H, Nat.eqb_refl; reflexivity. Qed.

Lemma zip_with_length {A B C : Type} (f : A -> B -> C) (xs : list A) (ys : list B) :
  length xs = length ys -> length (zip_with f xs ys) = length xs.
Proof.
  revert ys; induction xs as [|x xs IH]; intros [|y ys] H; simpl in *;
    try discriminate; auto.
Qed.

Lemma MT_TO_OHM_FACTOR_value_gt_1 : 1 < MT_TO_OHM_FACTOR_value.
Proof.
  unfold MT_TO_OHM_FACTOR_value.
  pose proof PI_RGT_0 as H0. pose proof PI_4 as H4.
  apply Rmult_lt_reg_r with (r := PI); [assumption|].
  replace (2500 / PI * PI) with 2500 by (field; lra). lra.
Qed.

(** ** The scale factor of a well-formed object *)

Lemma scale_factor_wf (F : R) (self : ZObj) :
  wf F self -> _scale_factor self = Ok (factor_of F (_units self)).
Proof.
  intros [_ Ht Hu _ _]; unfold _scale_factor; rewrite Ht.
  destruct Hu as [-> | ->]; reflexivity.
Qed.

Lemma factor_of_nonzero (F : R) (u : string) : F <> 0 -> factor_of F u <> 0.
Proof. intros HF; unfold factor_of; destruct (String.eqb u "mt"); lra. Qed.

Lemma units_setter_recognized (u : string) (self : ZObj) (F : R) :
  recognized u -> _unit_factors self = IMPEDANCE_UNITS F ->
  units_setter u self = (Ok tt, with_units self u).
Proof.
  intros Hu Ht; unfold units_setter; rewrite Ht.
  destruct Hu as [-> | ->]; reflexivity.
Qed.

(** ** The constructor *)

Lemma Rgtb_true (x y : R) : y < x -> Rgtb x y = true.
Proof. intros H; unfold Rgtb; destruct (Rlt_dec y x); [reflexivity|contradiction]. Qed.

Lemma Rgtb_false (x y : R) : x <= y -> Rgtb x y = false.
Proof. intros H; unfold Rgtb; destruct (Rlt_dec y x); [lra|reflexivity]. Qed.

Lemma validate_frequency_positive (f : list R) :
  Forall (fun x => 0 < x) f -> _validate_frequency f = Ok f.
Proof.
  intros H; unfold _validate_frequency.
  replace (forallb (fun x => Rgtb x 0) f) with true; [reflexivity|].
  symmetry; apply forallb_forall; intros x Hx.
  apply Rgtb_true. rewrite Forall_forall in H; auto.
Qed.

Lemma agree_same (n : nat) (o : option nat) :
  (forall m, o = Some m -> m = n) -> agree (Some n) o = Ok (Some n).
Proof.
  intros H; destruct o as [m|]; simpl; [|reflexivity].
  rewrite (H m eq_refl), Nat.eqb_refl; reflexivity.
Qed.

Lemma has_length_map {A B : Type} (g : list A -> list B) (o : option (list A)) (n : nat) :
  (forall a, length (g a) = length a) ->
  has_length o n -> has_length (option_map g o) n.
Proof. intros Hg; destruct o; simpl; [rewrite Hg|]; auto. Qed.

Lemma initialize_agreeing (tf : option carray) (tfe tfme : option rarray)
  (f : option (list R)) (n : nat) :
  has_length tf n -> has_length tfe n -> has_length tfme n -> has_length f n ->
  _initialize tf tfe tfme f = Ok (mkDataset tf tfe tfme f).
Proof.
  intros H1 H2 H3 H4; unfold _initialize.
  destruct f as [f|], tf as [tf|], tfe as [tfe|], tfme as [tfme|];
    simpl in *; subst;
    repeat match goal with
           | H : length _ = length _ |- _ => rewrite H
           end;
    rewrite ?Nat.eqb_refl; simpl; rewrite ?Nat.eqb_refl; simpl;
    try reflexivity;
    repeat match goal with
           | H : length _ = length _ |- _ => rewrite <- H
           end;
    rewrite ?Nat.eqb_refl; simpl; rewrite ?Nat.eqb_refl; reflexivity.
Qed.

Lemma init_ok (F : R) (zo : option carray) (zeo zmeo : option rarray)
  (fo : option (list R)) (U : string) (n : nat) :
  recognized U -> positive_axis fo ->
  has_length zo n -> has_length zeo n -> has_length zmeo n -> has_length fo n ->
  __init__ F zo zeo fo zmeo U =
  Ok (mkZ F (IMPEDANCE_UNITS F) U
        (mkDataset (option_map (fun a => cscale a (factor_of F U)) zo)
                   (option_map (fun a => rscale a (factor_of F U)) zeo)
                   (option_map (fun a => rscale a (factor_of F U)) zmeo)
                   fo)).
Proof.
  intros HU Hpos Hz Hze Hzme Hf.
  unfold __init__.
  rewrite (units_setter_recognized U
             (mkZ F (IMPEDANCE_UNITS F) EmptyString TFBase.empty) F HU eq_refl).
  set (self := with_units _ U).
  assert (Hsf : _scale_factor self = Ok (factor_of F U)).
  { destruct HU as [-> | ->]; reflexivity. }
  assert (Hc : scaled_c self zo
               = Ok (option_map (fun a => cscale a (factor_of F U)) zo)).
  { destruct zo; simpl; [rewrite Hsf|]; reflexivity. }
  assert (Hr : forall o, scaled_r self o
               = Ok (option_map (fun a => rscale a (factor_of F U)) o)).
  { intros [a|]; simpl; [rewrite Hsf|]; reflexivity. }
  rewrite Hc, !Hr. simpl.
  unfold TFBase.__init__.
  assert (Hv : match fo with
               | Some f => f' <- _validate_frequency f ;; Ok (Some f')
               | None => Ok None
               end = Ok fo).
  { destruct fo as [f|]; [|reflexivity].
    simpl in Hpos. rewrite (validate_frequency_positive f Hpos); reflexivity. }
  rewrite Hv. simpl.
  rewrite (initialize_agreeing _ _ _ _ n); simpl; try reflexivity; try assumption.
  - apply has_length_map; [intros; apply cscale_length|assumption].
  - apply has_length_map; [intros; apply rscale_length|assumption].
  - apply has_length_map; [intros; apply rscale_length|assumption].
Qed.

(** ** C1: writing through the [z] setter and reading back *)

Lemma init_empty (F : R) (U : string) :
  recognized U ->
  __init__ F None None None None U = Ok (mkZ F (IMPEDANCE_UNITS F) U TFBase.empty).
Proof.
  intros HU.
  rewrite (init_ok F None None None None U 0 HU); simpl; auto.
Qed.

Lemma z_setter_empty (F : R) (U : string) (X : carray) :
  z_setter (Some X) (mkZ F (IMPEDANCE_UNITS F) U TFBase.empty)
  = (Ok tt, mkZ F (IMPEDANCE_UNITS F) U (mkDataset (Some X) None None None)).
Proof. reflexivity. Qed.

Lemma scale_factor_table (F : R) (U : string) (d : Dataset) :
  recognized U ->
  _scale_factor (mkZ F (IMPEDANCE_UNITS F) U d) = Ok (factor_of F U).
Proof. intros [-> | ->]; reflexivity. Qed.

Lemma set_then_get_value (F : R) (U : string) (X : carray) :
  recognized U ->
  set_then_get F U X = Ok (Some (cunscale X (factor_of F U))).
Proof.
  intros HU; unfold set_then_get.
  rewrite (init_empty F U HU), z_setter_empty.
  unfold z; simpl. rewrite (scale_factor_table F U _ HU). reflexivity.
Qed.

Lemma Cdiv_one_not_one (s : R) : 1 < s -> Cdiv (RtoC 1) (RtoC s) <> RtoC 1.
Proof.
  intros Hs H. rewrite Cdiv_RtoC in H by lra.
  unfold RtoC in H; simpl in H. injection H as H _.
  apply (f_equal (fun x => x * s)) in H.
  replace (1 / s * s) with 1 in H by (field; lra). lra.
Qed.

(** C1, the claim as stated fails: with the unit "ohm" the value read back
    after an assignment through the setter is not the value assigned. *)
Lemma C1_setter_round_trip_fails_for_ohm :
  set_then_get MT_TO_OHM_FACTOR_value "ohm" [identity_tensor]
  <> Ok (Some [identity_tensor]).
Proof.
  rewrite set_then_get_value by (right; reflexivity).
  intros H.
  apply (f_equal (fun r => match r with
                           | Ok (Some (m :: _)) => m00 m
                           | _ => RtoC 0
                           end)) in H.
  exact (Cdiv_one_not_one _ MT_TO_OHM_FACTOR_value_gt_1 H).
Qed.

(** C1, amended: the [z] setter stores the array as given, in canonical
    units, so that for every recognized unit the value read back is the
    assigned one divided by the unit's scale factor, which is the assigned
    value for the unit "mt"; the write that multiplies by the scale factor
    is the constructor's, and constructing with a tensor and reading [z]
    gives the tensor back for every recognized unit. *)
Theorem C1_unit_round_trip (F : R) (U : string) (X : carray) :
  F <> 0 -> recognized U ->
  set_then_get F U X = Ok (Some (cunscale X (factor_of F U))) /\
  set_then_get F "mt" X = Ok (Some X) /\
  construct_then_get F U X = Ok (Some X).
Proof.
  intros HF HU. split; [|split].
  - apply set_then_get_value; assumption.
  - rewrite set_then_get_value by (left; reflexivity).
    change (factor_of F "mt") with 1. rewrite cunscale_one. reflexivity.
  - unfold construct_then_get.
    rewrite (init_ok F (Some X) None None None U (length X) HU);
      simpl; auto.
    unfold z; simpl. rewrite (scale_factor_table F U _ HU). simpl.
    rewrite cunscale_cscale by (apply factor_of_nonzero; assumption).
    reflexivity.
Qed.

Lemma C1_unit_round_trip_witness :
  set_then_get MT_TO_OHM_FACTOR_value "ohm" [identity_tensor]
    = Ok (Some (cunscale [identity_tensor]
                  (factor_of MT_TO_OHM_FACTOR_value "ohm"))) /\
  set_then_get MT_TO_OHM_FACTOR_value "mt" [identity_tensor]
    = Ok (Some [identity_tensor]) /\
  construct_then_get MT_TO_OHM_FACTOR_value "ohm" [identity_tensor]
    = Ok (Some [identity_tensor]).
Proof.
  apply (C1_unit_round_trip MT_TO_OHM_FACTOR_value "ohm" [identity_tensor]).
  - pose proof MT_TO_OHM_FACTOR_value_gt_1; lra.
  - right; reflexivity.
Defined.

(** ** C2: the two determinant errors *)

Lemma det_spread_same (zd : carray) (e : rarray) :
  length e = length zd ->
  det_spread zd e = Ok (zip_with spec_det_error zd e).
Proof.
  intros Hlen; unfold det_spread.
  rewrite !broadcast_same by (symmetry; assumption). simpl.
  rewrite broadcast_same
    by (rewrite !length_map, !zip_with_length by (symmetry; assumption);
        reflexivity).
  simpl. f_equal.
  revert e Hlen; induction zd as [|m zd IH]; intros [|x e] Hlen;
    simpl in *; try discriminate; try reflexivity.
  f_equal. apply IH. lia.
Qed.

Lemma det_some (self : ZObj) (sf : R) (zd : carray) :
  _scale_factor self = Ok sf -> z self = Ok (Some zd) ->
  exists l, det self = Ok (Some l) /\ length l = length zd.
Proof.
  intros Hsf Hz; unfold det; rewrite Hz; simpl.
  destruct zd as [|m zd].
  - exists []; split; reflexivity.
  - rewrite Hsf; simpl. eexists; split; [reflexivity|].
    simpl. rewrite length_map. reflexivity.
Qed.

Lemma assign_all_same {A : Type} (n : nat) (rhs : list A) :
  length rhs = n -> assign_all n rhs = Ok rhs.
Proof. intros H; unfold assign_all; rewrite H, Nat.eqb_refl; reflexivity. Qed.

Lemma det_error_value (self : ZObj) (sf : R) (zd : carray) (ed : rarray) :
  _scale_factor self = Ok sf -> z self = Ok (Some zd) ->
  z_error self = Ok (Some ed) -> length ed = length zd ->
  det_error self
  = Ok (Some (map (fun v => sf * v) (zip_with spec_det_error zd ed))).
Proof.
  intros Hsf Hz Hze Hlen.
  destruct (det_some self sf zd Hsf Hz) as (l & Hdet & Hl).
  unfold det_error, z_operand. rewrite Hze; simpl.
  rewrite Hdet; simpl. rewrite Hsf; simpl. rewrite Hz; simpl.
  rewrite (det_spread_same zd ed Hlen); simpl.
  rewrite assign_all_same; [reflexivity|].
  rewrite length_map, zip_with_length by (symmetry; assumption).
  symmetry; assumption.
Qed.

Lemma det_model_error_value (self : ZObj) (sf : R) (zd : carray) (md : rarray) :
  _scale_factor self = Ok sf -> z self = Ok (Some zd) ->
  z_model_error self = Ok (Some md) -> length md = length zd ->
  det_model_error self = Ok (Some (zip_with spec_det_error zd md)).
Proof.
  intros Hsf Hz Hzme Hlen.
  destruct (det_some self sf zd Hsf Hz) as (l & Hdet & Hl).
  unfold det_model_error, z_operand. rewrite Hzme; simpl.
  rewrite Hdet; simpl. rewrite Hz; simpl.
  rewrite (det_spread_same zd md Hlen); simpl.
  rewrite assign_all_same; [reflexivity|].
  rewrite zip_with_length by (symmetry; assumption).
  symmetry; assumption.
Qed.

(** The getters of a well-formed object. *)
Lemma z_wf (F : R) (self : ZObj) :
  wf F self ->
  z self = Ok (option_map (fun a => cunscale a (factor_of F (_units self)))
                          (transfer_function (_dataset self))).
Proof.
  intros Hwf; unfold z.
  destruct (transfer_function (_dataset self)); [|reflexivity].
  rewrite (scale_factor_wf F self Hwf); reflexivity.
Qed.

Lemma z_error_wf (F : R) (self : ZObj) :
  wf F self ->
  z_error self
  = Ok (option_map (fun a => runscale a (factor_of F (_units self)))
                   (transfer_function_error (_dataset self))).
Proof.
  intros Hwf; unfold z_error.
  destruct (transfer_function_error (_dataset self)); [|reflexivity].
  rewrite (scale_factor_wf F self Hwf); reflexivity.
Qed.

Lemma z_model_error_wf (F : R) (self : ZObj) :
  wf F self ->
  z_model_error self
  = Ok (option_map (fun a => runscale a (factor_of F (_units self)))
                   (transfer_function_model_error (_dataset self))).
Proof.
  intros Hwf; unfold z_model_error.
  destruct (transfer_function_model_error (_dataset self)); [|reflexivity].
  rewrite (scale_factor_wf F self Hwf); reflexivity.
Qed.

Lemma consistent_tf (d : Dataset) (a : carray) :
  consistent d -> transfer_function d = Some a ->
  has_length (transfer_function_error d) (length a) /\
  has_length (transfer_function_model_error d) (length a) /\
  has_length (TFBase.frequency d) (length a).
Proof.
  intros Hc Ha.
  assert (Hn : n_periods d = Some (length a)) by (unfold n_periods; rewrite Ha; reflexivity).
  destruct (Hc _ Hn) as (_ & H1 & H2 & H3). auto.
Qed.

Lemma Ok_Some_inj {A : Type} (a b : A) : Ok (Some a) = Ok (Some b) -> a = b.
Proof. intros H; injection H; auto. Qed.

Lemma getter_present {A B : Type} (g : A -> B) (o : option A) (b : B) :
  Ok (option_map g o) = Ok (Some b) -> exists a, o = Some a /\ b = g a.
Proof.
  destruct o as [a|]; simpl; intros H; [|discriminate].
  exists a; split; [reflexivity|]. symmetry; apply Ok_Some_inj; assumption.
Qed.

(** Lengths of what the getters of a well-formed object return. *)
Lemma getters_lengths (F : R) (self : ZObj) (zd : carray) :
  wf F self -> z self = Ok (Some zd) ->
  (forall ed, z_error self = Ok (Some ed) -> length ed = length zd) /\
  (forall md, z_model_error self = Ok (Some md) -> length md = length zd) /\
  (forall f, frequency self = Some f -> length f = length zd).
Proof.
  intros Hwf Hz.
  rewrite (z_wf F self Hwf) in Hz.
  apply getter_present in Hz. destruct Hz as (zc & Hzc & ->).
  destruct (consistent_tf _ _ (wf_shape F self Hwf) Hzc) as (He & Hm & Hf).
  rewrite cunscale_length.
  split; [|split].
  - intros ed Hed. rewrite (z_error_wf F self Hwf) in Hed.
    apply getter_present in Hed. destruct Hed as (ec & Hec & ->).
    rewrite Hec in He. rewrite runscale_length. exact He.
  - intros md Hmd. rewrite (z_model_error_wf F self Hwf) in Hmd.
    apply getter_present in Hmd. destruct Hmd as (mc & Hmc & ->).
    rewrite Hmc in Hm. rewrite runscale_length. exact Hm.
  - intros f Hf'. unfold frequency in Hf'. rewrite Hf' in Hf. exact Hf.
Qed.

(** C2, amended: in a well-formed object that holds a tensor, the
    determinant error is the unit scale factor times
    sqrt(|det(Z+E) - det(Z-E)| / 2), where Z and E are the arrays that [z]
    and [z_error] return, and the determinant model error is the same
    formula on [z] and [z_model_error] with no scale factor; the two differ
    by exactly that one multiplication. *)
Theorem C2_det_error_formulas (F : R) (self : ZObj) (zd : carray) :
  wf F self -> z self = Ok (Some zd) ->
  (forall ed, z_error self = Ok (Some ed) ->
     det_error self
     = Ok (Some (map (fun v => factor_of F (_units self) * v)
                     (zip_with spec_det_error zd ed)))) /\
  (forall md, z_model_error self = Ok (Some md) ->
     det_model_error self = Ok (Some (zip_with spec_det_error zd md))).
Proof.
  intros Hwf Hz.
  destruct (getters_lengths F self zd Hwf Hz) as (He & Hm & _).
  pose proof (scale_factor_wf F self Hwf) as Hsf.
  split.
  - intros ed Hed.
    apply (det_error_value self _ zd ed Hsf Hz Hed). apply He; assumption.
  - intros md Hmd.
    apply (det_model_error_value self _ zd md Hsf Hz Hmd). apply Hm; assumption.
Qed.

Lemma Cabs_real (c : complex) (x : R) :
  0 <= x -> re c = x -> im c = 0 -> Cabs c = x.
Proof.
  intros Hx Hre Him; unfold Cabs; rewrite Hre, Him.
  replace (x * x + 0 * 0) with (x * x) by ring.
  apply sqrt_square; assumption.
Qed.

Lemma spec_det_error_scaled_identity (s : R) :
  0 < s ->
  spec_det_error (mat_map (fun x => Cmul x (RtoC s)) identity_tensor)
                 (mat_map (fun x => x * s) identity_error)
  = s * sqrt 2.
Proof.
  intros Hs; unfold spec_det_error.
  rewrite (Cabs_real _ (4 * (s * s))).
  - replace (4 * (s * s) / 2) with (s * s * 2) by field.
    rewrite sqrt_mult by nra. rewrite sqrt_square by lra. reflexivity.
  - nra.
  - simpl; ring.
  - simpl; ring.
Qed.

Lemma spec_det_error_identity :
  spec_det_error identity_tensor identity_error = sqrt 2.
Proof.
  unfold spec_det_error.
  rewrite (Cabs_real _ 4).
  - f_equal; lra.
  - lra.
  - simpl; ring.
  - simpl; ring.
Qed.

Lemma ohm_identity_object_wf : wf MT_TO_OHM_FACTOR_value ohm_identity_object.
Proof.
  split.
  - reflexivity.
  - reflexivity.
  - right; reflexivity.
  - simpl. constructor; [lra|constructor].
  - intros n Hn. simpl in Hn. injection Hn as <-. simpl. auto.
Qed.

Lemma MT_TO_OHM_FACTOR_value_nonzero : MT_TO_OHM_FACTOR_value <> 0.
Proof. pose proof MT_TO_OHM_FACTOR_value_gt_1; lra. Qed.

Lemma ohm_identity_object_z :
  z ohm_identity_object = Ok (Some [identity_tensor]).
Proof.
  rewrite (z_wf _ _ ohm_identity_object_wf).
  change (Ok (Some (cunscale (cscale [identity_tensor] MT_TO_OHM_FACTOR_value)
                             MT_TO_OHM_FACTOR_value))
          = Ok (Some [identity_tensor])).
  rewrite cunscale_cscale by exact MT_TO_OHM_FACTOR_value_nonzero.
  reflexivity.
Qed.

Lemma ohm_identity_object_z_error :
  z_error ohm_identity_object = Ok (Some [identity_error]).
Proof.
  rewrite (z_error_wf _ _ ohm_identity_object_wf).
  change (Ok (Some (runscale (rscale [identity_error] MT_TO_OHM_FACTOR_value)
                             MT_TO_OHM_FACTOR_value))
          = Ok (Some [identity_error])).
  rewrite runscale_rscale by exact MT_TO_OHM_FACTOR_value_nonzero.
  reflexivity.
Qed.

Lemma ohm_identity_object_det_error :
  det_error ohm_identity_object
  = Ok (Some [MT_TO_OHM_FACTOR_value * sqrt 2]).
Proof.
  rewrite (det_error_value ohm_identity_object MT_TO_OHM_FACTOR_value
             [identity_tensor] [identity_error]).
  - simpl. rewrite spec_det_error_identity. reflexivity.
  - reflexivity.
  - exact ohm_identity_object_z.
  - exact ohm_identity_object_z_error.
  - reflexivity.
Qed.

Lemma singleton_res_neq (x y : R) : x <> y -> Ok (Some [x]) <> Ok (Some [y]).
Proof. intros Hxy H; apply Hxy; injection H; auto. Qed.

(** C2, the claim as stated fails: for the object with the unit "ohm" that
    holds the identity tensor and the identity error, the determinant error
    is not the formula divided by the scale factor, whether the formula is
    read on the arrays [z] and [z_error] or on the stored arrays. *)
Lemma C2_det_error_is_not_divided :
  z ohm_identity_object = Ok (Some [identity_tensor]) /\
  z_error ohm_identity_object = Ok (Some [identity_error]) /\
  det_error ohm_identity_object
  <> Ok (Some (claimed_det_error MT_TO_OHM_FACTOR_value
                 [identity_tensor] [identity_error])) /\
  det_error ohm_identity_object
  <> Ok (Some (claimed_det_error MT_TO_OHM_FACTOR_value
                 (cscale [identity_tensor] MT_TO_OHM_FACTOR_value)
                 (rscale [identity_error] MT_TO_OHM_FACTOR_value))).
Proof.
  pose proof MT_TO_OHM_FACTOR_value_gt_1 as HF.
  assert (H2 : 0 < sqrt 2) by (apply sqrt_lt_R0; lra).
  assert (H3 : sqrt 2 < MT_TO_OHM_FACTOR_value * sqrt 2) by nra.
  assert (H4 : MT_TO_OHM_FACTOR_value * sqrt 2
               < MT_TO_OHM_FACTOR_value * sqrt 2 * MT_TO_OHM_FACTOR_value)
    by nra.
  split; [exact ohm_identity_object_z|].
  split; [exact ohm_identity_object_z_error|].
  rewrite ohm_identity_object_det_error.
  split; apply singleton_res_neq.
  - rewrite spec_det_error_identity.
    intros H. apply (f_equal (fun x => x * MT_TO_OHM_FACTOR_value)) in H.
    replace (sqrt 2 / MT_TO_OHM_FACTOR_value * MT_TO_OHM_FACTOR_value)
      with (sqrt 2) in H by (field; lra).
    lra.
  - rewrite spec_det_error_scaled_identity by lra.
    replace (MT_TO_OHM_FACTOR_value * sqrt 2 / MT_TO_OHM_FACTOR_value)
      with (sqrt 2) by (field; lra).
    lra.
Qed.

Lemma C2_det_error_formulas_witness :
  (forall ed, z_error ohm_identity_object = Ok (Some ed) ->
     det_error ohm_identity_object
     = Ok (Some (map (fun v => factor_of MT_TO_OHM_FACTOR_value
                                 (_units ohm_identity_object) * v)
                     (zip_with spec_det_error [identity_tensor] ed)))) /\
  (forall md, z_model_error ohm_identity_object = Ok (Some md) ->
     det_model_error ohm_identity_object
     = Ok (Some (zip_with spec_det_error [identity_tensor] md))).
Proof.
  apply (C2_det_error_formulas MT_TO_OHM_FACTOR_value ohm_identity_object
           [identity_tensor]).
  - exact ohm_identity_object_wf.
  - exact ohm_identity_object_z.
Defined.

(** ** C4: resistivity and phase from the stored tensor *)

#[local] Arguments pow _ _ : simpl never.

Lemma Cabs_sq (c : complex) : Cabs c ^ 2 = re c * re c + im c * im c.
Proof. unfold Cabs; apply pow2_sqrt; nra. Qed.

Lemma cscale_one (a : carray) : cscale a 1 = a.
Proof.
  unfold cscale; apply map_id_ext; intros m.
  apply mat_map_id_ext; intros x; rewrite Cmul_RtoC.
  destruct x; simpl; f_equal; ring.
Qed.

Lemma arctan2_pos (y x : R) : 0 < x -> arctan2 y x = atan (y / x).
Proof. intros H; unfold arctan2; destruct (Rlt_dec 0 x); [reflexivity|contradiction]. Qed.

Lemma resistivity_value (F : R) (self : ZObj) (zc : carray) (f : list R) :
  F <> 0 -> wf F self ->
  transfer_function (_dataset self) = Some zc -> frequency self = Some f ->
  resistivity self
  = Ok (Some (zip_with (fun m fr => mat_map (fun x => Cabs x ^ 2 / fr * 0.2) m)
                       zc f)).
Proof.
  intros HF Hwf Hz Hf. unfold resistivity.
  rewrite (z_wf F self Hwf), Hz; simpl.
  rewrite (scale_factor_wf F self Hwf); simpl. rewrite Hf.
  rewrite cscale_cunscale by (apply factor_of_nonzero; assumption).
  destruct (consistent_tf _ _ (wf_shape F self Hwf) Hz) as (_ & _ & Hl).
  unfold frequency in Hf. rewrite Hf in Hl. simpl in Hl.
  rewrite broadcast_same by (symmetry; assumption). reflexivity.
Qed.

Lemma phase_value (F : R) (self : ZObj) (zc : carray) :
  F <> 0 -> wf F self -> transfer_function (_dataset self) = Some zc ->
  phase self = Ok (Some (map (mat_map (fun x => rad2deg (angle x))) zc)).
Proof.
  intros HF Hwf Hz. unfold phase.
  rewrite (z_wf F self Hwf), Hz; simpl.
  rewrite (scale_factor_wf F self Hwf); simpl.
  rewrite cscale_cunscale by (apply factor_of_nonzero; assumption).
  reflexivity.
Qed.

Lemma init_wf (F : R) (zo : option carray) (zeo zmeo : option rarray)
  (fo : option (list R)) (U : string) (n : nat) :
  recognized U -> positive_axis fo ->
  has_length zo n -> has_length zeo n -> has_length zmeo n -> has_length fo n ->
  exists self, __init__ F zo zeo fo zmeo U = Ok self /\ wf F self.
Proof.
  intros HU Hpos Hz Hze Hzme Hf.
  rewrite (init_ok F zo zeo zmeo fo U n HU Hpos Hz Hze Hzme Hf).
  eexists; split; [reflexivity|].
  split; [reflexivity|reflexivity|exact HU|exact Hpos|].
  intros k Hk. simpl in *.
  assert (Hzs : has_length (option_map (fun a => cscale a (factor_of F U)) zo) n)
    by (apply has_length_map; [intros; apply cscale_length|assumption]).
  assert (Hes : has_length (option_map (fun a => rscale a (factor_of F U)) zeo) n)
    by (apply has_length_map; [intros; apply rscale_length|assumption]).
  assert (Hms : has_length (option_map (fun a => rscale a (factor_of F U)) zmeo) n)
    by (apply has_length_map; [intros; apply rscale_length|assumption]).
  assert (k = n).
  { unfold n_periods in Hk; simpl in Hk.
    destruct zo, zeo, zmeo, fo; simpl in *; congruence. }
  subst k. auto.
Qed.

(** C4: in a well-formed object that holds a tensor and a frequency axis,
    resistivity[f,i,j] = |Z[f,i,j]|^2 / frequency[f] * 0.2 and
    phase[f,i,j] = degrees(angle(Z[f,i,j])) for the stored field-unit tensor
    Z; and the object constructed in field units from
    [[[1+1j, 0.1+0.1j], [0.1+0.1j, 1+1j]]] with frequency [1.0] has
    res_xx = [0.4] and phase_xx = [45]. *)
Theorem C4_resistivity_phase (F : R) (self : ZObj) (zc : carray) (f : list R) :
  F <> 0 -> wf F self ->
  transfer_function (_dataset self) = Some zc -> frequency self = Some f ->
  resistivity self
  = Ok (Some (zip_with (fun m fr => mat_map (fun x => Cabs x ^ 2 / fr * 0.2) m)
                       zc f)) /\
  phase self = Ok (Some (map (mat_map (fun x => rad2deg (angle x))) zc)) /\
  exists ex, example_object F = Ok ex /\
             res_xx ex = Ok (Some [0.4]) /\ phase_xx ex = Ok (Some [45]).
Proof.
  intros HF Hwf Hz Hf.
  split; [apply (resistivity_value F); assumption|].
  split; [apply (phase_value F); assumption|].
  assert (Hinit : example_object F
                  = Ok (mkZ F (IMPEDANCE_UNITS F) "mt"
                          (mkDataset (Some (cscale [example_tensor] 1)) None None
                                     (Some [1])))).
  { unfold example_object.
    rewrite (init_ok F _ None None (Some [1]) "mt" 1); simpl; auto.
    - left; reflexivity.
    - constructor; [lra|constructor]. }
  eexists; split; [exact Hinit|].
  set (ex := mkZ _ _ _ _).
  assert (Hex : wf F ex).
  { split; [reflexivity|reflexivity|left; reflexivity| |].
    - simpl. constructor; [lra|constructor].
    - intros n Hn; simpl in Hn; injection Hn as <-; simpl; auto. }
  split.
  - unfold res_xx.
    rewrite (resistivity_value F ex (cscale [example_tensor] 1) [1] HF Hex
               eq_refl eq_refl).
    rewrite cscale_one. simpl. rewrite Cabs_sq. simpl.
    do 3 f_equal. lra.
  - unfold phase_xx.
    rewrite (phase_value F ex (cscale [example_tensor] 1) HF Hex eq_refl).
    rewrite cscale_one. simpl.
    unfold angle; simpl. rewrite arctan2_pos by lra.
    replace (1 / 1) with 1 by field. rewrite atan_1.
    unfold rad2deg. do 3 f_equal. field. apply PI_neq0.
Qed.

Lemma C4_resistivity_phase_witness :
  resistivity ohm_identity_object
  = Ok (Some (zip_with (fun m fr => mat_map (fun x => Cabs x ^ 2 / fr * 0.2) m)
                       (cscale [identity_tensor] MT_TO_OHM_FACTOR_value) [1])) /\
  phase ohm_identity_object
  = Ok (Some (map (mat_map (fun x => rad2deg (angle x)))
                  (cscale [identity_tensor] MT_TO_OHM_FACTOR_value))) /\
  exists ex, example_object MT_TO_OHM_FACTOR_value = Ok ex /\
             res_xx ex = Ok (Some [0.4]) /\ phase_xx ex = Ok (Some [45]).
Proof.
  apply (C4_resistivity_phase MT_TO_OHM_FACTOR_value ohm_identity_object).
  - exact MT_TO_OHM_FACTOR_value_nonzero.
  - exact ohm_identity_object_wf.
  - reflexivity.
  - reflexivity.
Defined.

(** ** C3: reconstruction from resistivity and phase *)

Lemma polar_value (r ph : R) :
  polar r ph = mkC (r * cos (radians ph)) (r * sin (radians ph)).
Proof.
  unfold polar, Cexp, Cmul, Cj, RtoC; simpl.
  replace (0 * radians ph - 1 * 0) with 0 by ring.
  replace (0 * 0 + 1 * radians ph) with (radians ph) by ring.
  rewrite exp_0. f_equal; ring.
Qed.

Lemma Cabs_sq_polar (r ph : R) : Cabs (polar r ph) ^ 2 = r * r.
Proof.
  rewrite Cabs_sq, polar_value; simpl.
  pose proof (sin2_cos2 (radians ph)) as H. unfold Rsqr in H.
  replace (r * cos (radians ph) * (r * cos (radians ph))
           + r * sin (radians ph) * (r * sin (radians ph)))
    with (r * r * (sin (radians ph) * sin (radians ph)
                   + cos (radians ph) * cos (radians ph))) by ring.
  rewrite H; ring.
Qed.

Lemma tan_plus_PI (x : R) : cos x <> 0 -> tan (x + PI) = tan x.
Proof.
  intros Hc; unfold tan. rewrite neg_sin, neg_cos. field; assumption.
Qed.

Lemma atan_scaled_tan (r t : R) :
  0 < r -> cos t <> 0 -> atan (r * sin t / (r * cos t)) = atan (tan t).
Proof.
  intros Hr Hc; f_equal; unfold tan; field; split; [assumption|lra].
Qed.

(** The angle of a point given in polar form. *)
Lemma arctan2_polar (r t : R) :
  0 < r -> - PI < t <= PI -> arctan2 (r * sin t) (r * cos t) = t.
Proof.
  intros Hr [Hlo Hhi].
  pose proof PI_RGT_0 as Hpi.
  destruct (Rlt_dec t (- (PI / 2))) as [H1|H1].
  - (* third quadrant *)
    assert (Hc : cos t < 0).
    { rewrite <- cos_neg. apply cos_lt_0; lra. }
    assert (Hs : sin t < 0) by (apply sin_lt_0_var; lra).
    unfold arctan2.
    destruct (Rlt_dec 0 (r * cos t)); [nra|].
    destruct (Rlt_dec (r * cos t) 0); [|nra].
    destruct (Rle_dec 0 (r * sin t)); [nra|].
    rewrite atan_scaled_tan by lra.
    rewrite <- tan_plus_PI by lra.
    rewrite atan_tan by lra. lra.
  - destruct (Req_dec t (- (PI / 2))) as [H2|H2].
    + subst t. unfold arctan2.
      rewrite cos_neg, sin_neg, cos_PI2, sin_PI2.
      destruct (Rlt_dec 0 (r * 0)); [lra|].
      destruct (Rlt_dec (r * 0) 0); [lra|].
      destruct (Rlt_dec 0 (r * - (1))); [lra|].
      destruct (Rlt_dec (r * - (1)) 0); [reflexivity|lra].
    + destruct (Rlt_dec t (PI / 2)) as [H3|H3].
      * (* right half plane *)
        assert (Hc : 0 < cos t) by (apply cos_gt_0; lra).
        rewrite arctan2_pos by nra.
        rewrite atan_scaled_tan by lra.
        apply atan_tan; lra.
      * destruct (Req_dec t (PI / 2)) as [H4|H4].
        -- subst t. unfold arctan2. rewrite cos_PI2, sin_PI2.
           destruct (Rlt_dec 0 (r * 0)); [lra|].
           destruct (Rlt_dec (r * 0) 0); [lra|].
           destruct (Rlt_dec 0 (r * 1)); [reflexivity|lra].
        -- (* second quadrant *)
           assert (Hc : cos t < 0) by (apply cos_lt_0; lra).
           assert (Hs : 0 <= sin t) by (apply sin_ge_0; lra).
           unfold arctan2.
           destruct (Rlt_dec 0 (r * cos t)); [nra|].
           destruct (Rlt_dec (r * cos t) 0); [|nra].
           destruct (Rle_dec 0 (r * sin t)); [|nra].
           rewrite atan_scaled_tan by lra.
           replace (tan t) with (tan (t - PI + PI)) by (f_equal; ring).
           rewrite tan_plus_PI.
           ++ rewrite atan_tan by lra. ring.
           ++ replace (t - PI) with (- (PI - t)) by ring.
              rewrite cos_neg. rewrite <- (Ropp_involutive (cos (PI - t))).
              rewrite <- neg_cos.
              replace (PI - t + PI) with (2 * PI - t) by ring.
              intros H0. apply Ropp_eq_0_compat in H0.
              rewrite Ropp_involutive in H0.
              rewrite cos_minus, cos_2PI, sin_2PI in H0. lra.
Qed.

Lemma angle_polar (r ph : R) :
  0 < r -> -180 < ph <= 180 -> rad2deg (angle (polar r ph)) = ph.
Proof.
  intros Hr [Hlo Hhi]. pose proof PI_RGT_0 as Hpi.
  rewrite polar_value. unfold angle; simpl.
  rewrite arctan2_polar; [|assumption|].
  - unfold rad2deg, radians. field. lra.
  - unfold radians. split.
    + replace (- PI) with (-180 * (PI / 180)) by field. 
      apply Rmult_lt_compat_r; lra.
    + replace PI with (180 * (PI / 180)) at 2 by field.
      apply Rmult_le_compat_r; lra.
Qed.

Lemma empty_object_wf (F : R) (U : string) : recognized U -> wf F (empty_object F U).
Proof.
  intros HU; split; [reflexivity|reflexivity|exact HU|exact I|].
  intros n Hn; discriminate.
Qed.

Lemma n_periods_none (d : Dataset) :
  n_periods d = None -> d = TFBase.empty.
Proof.
  destruct d as [[a|] [b|] [c|] [f|]]; unfold n_periods; simpl;
    intros H; try discriminate; reflexivity.
Qed.

Lemma set_frequency_ok (d : Dataset) (f : list R) :
  n_periods d = None \/ n_periods d = Some (length f) ->
  set_frequency f d
  = Ok (mkDataset (transfer_function d) (transfer_function_error d)
                  (transfer_function_model_error d) (Some f)).
Proof.
  intros [H|H]; unfold set_frequency; rewrite H; [reflexivity|].
  rewrite Nat.eqb_refl; reflexivity.
Qed.

Lemma z_setter_with_frequency (self : ZObj) (zval : carray) (f : list R) :
  TFBase.frequency (_dataset self) = Some f ->
  length zval = length f ->
  has_length (transfer_function (_dataset self)) (length f) ->
  z_setter (Some zval) self
  = (Ok tt, with_dataset self (set_tf zval (_dataset self))).
Proof.
  intros Hf Hlen Htf. unfold z_setter, _has_tf, _has_frequency, _is_empty,
    _has_tf, _has_frequency, frequency, shape.
  rewrite Hf. simpl.
  destruct (transfer_function (_dataset self)) as [a|]; simpl in *.
  - rewrite Htf, Hlen, Nat.eqb_refl. reflexivity.
  - rewrite Hlen, Nat.eqb_refl. rewrite !orb_true_r. reflexivity.
Qed.

Lemma reconstructed_length (rho phi : rarray) (f : list R) :
  length rho = length f -> length phi = length f ->
  length (reconstructed rho phi f) = length f.
Proof.
  intros H1 H2; unfold reconstructed.
  rewrite !zip_with_length; try assumption.
  rewrite zip_with_length; congruence.
Qed.

Lemma consistent_after_set (d : Dataset) (zval : carray) (f : list R) :
  consistent d ->
  n_periods d = None \/ n_periods d = Some (length f) ->
  length zval = length f ->
  consistent (set_tf zval
                (mkDataset (transfer_function d) (transfer_function_error d)
                           (transfer_function_model_error d) (Some f))).
Proof.
  intros Hc Hn Hlen k Hk. unfold n_periods in Hk; simpl in Hk.
  injection Hk as <-. simpl.
  destruct Hn as [Hn|Hn].
  - rewrite (n_periods_none d Hn); simpl; auto.
  - destruct (Hc _ Hn) as (_ & H1 & H2 & _).
    rewrite Hlen; auto.
Qed.

Lemma has_length_tf (d : Dataset) (n : nat) :
  consistent d -> n_periods d = None \/ n_periods d = Some n ->
  has_length (transfer_function d) n.
Proof.
  intros Hc [Hn|Hn].
  - rewrite (n_periods_none d Hn); exact I.
  - destruct (Hc _ Hn) as (H & _); exact H.
Qed.

(** The state [set_resistivity_phase] leaves behind. *)
Lemma set_resistivity_phase_state (F : R) (self : ZObj) (rho phi : rarray)
  (f : list R) :
  wf F self ->
  n_periods (_dataset self) = None \/ n_periods (_dataset self) = Some (length f) ->
  length rho = length f -> length phi = length f ->
  Forall (fun x => 0 < x) f ->
  set_resistivity_phase (Some rho) (Some phi) (Some f) None None None None self
  = (Ok tt,
     with_dataset self
       (set_tf (reconstructed rho phi f)
          (mkDataset (transfer_function (_dataset self))
                     (transfer_function_error (_dataset self))
                     (transfer_function_model_error (_dataset self))
                     (Some f)))).
Proof.
  intros Hwf Hn Hr Hp Hpos.
  unfold set_resistivity_phase, bindM, readM.
  rewrite (validate_frequency_positive f Hpos).
  unfold frequency_setter. rewrite (set_frequency_ok _ f Hn).
  cbn [_validate_array_input].
  set (self1 := with_dataset self _).
  assert (Hf1 : frequency self1 = Some f) by reflexivity.
  rewrite Hf1.
  rewrite broadcast_same by assumption. cbn [bind].
  rewrite broadcast_same by (rewrite zip_with_length; congruence).
  fold (reconstructed rho phi f).
  rewrite (z_setter_with_frequency self1 (reconstructed rho phi f) f).
  - reflexivity.
  - reflexivity.
  - apply reconstructed_length; assumption.
  - apply (has_length_tf (_dataset self)); [exact (wf_shape F self Hwf)|assumption].
Qed.

Lemma resistivity_entry (f x p : R) :
  0 < f -> 0 <= x -> Cabs (polar (sqrt (5 * f * x)) p) ^ 2 / f * 0.2 = x.
Proof.
  intros Hf Hx. rewrite Cabs_sq_polar.
  rewrite sqrt_def by nra.
  replace 0.2 with (2 / 10) by lra. field. lra.
Qed.

Lemma arctan2_origin (s c : R) : arctan2 (0 * s) (0 * c) = 0.
Proof.
  unfold arctan2.
  destruct (Rlt_dec 0 (0 * c)); [lra|].
  destruct (Rlt_dec (0 * c) 0); [lra|].
  destruct (Rlt_dec 0 (0 * s)); [lra|].
  destruct (Rlt_dec (0 * s) 0); [lra|reflexivity].
Qed.

Lemma phase_entry (f x p : R) :
  0 < f -> 0 < x -> -180 < p <= 180 ->
  rad2deg (angle (polar (sqrt (5 * f * x)) p)) = p.
Proof.
  intros Hf Hx Hp. apply angle_polar; [|assumption].
  apply sqrt_lt_R0. nra.
Qed.

Lemma readback_resistivity (rho phi : rarray) (f : list R) :
  length rho = length f -> length phi = length f ->
  Forall (fun x => 0 < x) f ->
  Forall (mat_all (fun x => 0 <= x)) rho ->
  zip_with (fun m fr => mat_map (fun x => Cabs x ^ 2 / fr * 0.2) m)
           (reconstructed rho phi f) f
  = rho.
Proof.
  unfold reconstructed.
  revert phi f; induction rho as [|m rho IH]; intros [|p phi] [|fr f] H1 H2 Hf Hr;
    simpl in *; try discriminate; try reflexivity.
  inversion Hf as [|? ? Hfr Hf']; subst.
  inversion Hr as [|? ? Hm Hr']; subst.
  destruct Hm as (Ha & Hb & Hc & Hd).
  f_equal.
  - destruct m as [a b c d]; unfold mat_map, mat_map2; simpl in *.
    rewrite !resistivity_entry by assumption. reflexivity.
  - apply IH; auto.
Qed.

Lemma phase_entry_read (f x p : R) :
  0 < f -> 0 <= x -> -180 < p <= 180 ->
  rad2deg (angle (polar (sqrt (5 * f * x)) p)) = phase_read x p.
Proof.
  intros Hf Hx Hp. unfold phase_read.
  destruct (Rle_lt_or_eq_dec 0 x Hx) as [Hpos | <-].
  - rewrite (Rgtb_true x 0 Hpos). apply phase_entry; assumption.
  - rewrite (Rgtb_false 0 0) by lra.
    replace (5 * f * 0) with 0 by ring. rewrite sqrt_0.
    rewrite polar_value. unfold angle; cbn [re im].
    rewrite arctan2_origin. unfold rad2deg. ring.
Qed.

(** The phases read back, entry by entry, for nonnegative resistivities. *)
Lemma readback_phase_read (rho phi : rarray) (f : list R) :
  length rho = length f -> length phi = length f ->
  Forall (fun x => 0 < x) f ->
  Forall (mat_all (fun x => 0 <= x)) rho ->
  Forall (mat_all (fun p => -180 < p <= 180)) phi ->
  map (mat_map (fun x => rad2deg (angle x))) (reconstructed rho phi f)
  = phase_read_back rho phi.
Proof.
  unfold reconstructed, phase_read_back.
  revert phi f; induction rho as [|m rho IH];
    intros [|p phi] [|fr f] H1 H2 Hf Hr Hp;
    simpl in *; try discriminate; try reflexivity.
  inversion Hf as [|? ? Hfr Hf']; subst.
  inversion Hr as [|? ? Hm Hr']; subst.
  inversion Hp as [|? ? Hq Hp']; subst.
  destruct Hm as (Ha & Hb & Hc & Hd).
  destruct Hq as (Ha' & Hb' & Hc' & Hd').
  f_equal.
  - destruct m as [a b c d], p as [a' b' c' d'];
      unfold mat_map, mat_map2; simpl in *.
    rewrite !phase_entry_read by assumption. reflexivity.
  - apply IH; auto.
Qed.

Lemma phase_read_recoverable (x p : R) :
  phase_read x p = p <-> recoverable x p.
Proof.
  unfold phase_read, recoverable, Rgtb.
  destruct (Rlt_dec 0 x) as [H|H]; split.
  - intros _; left; exact H.
  - reflexivity.
  - intros E; right; symmetry; exact E.
  - intros [H'|H']; [contradiction|symmetry; exact H'].
Qed.

Lemma mat_read_recoverable (m n : mat2 R) :
  mat_map2 phase_read m n = n <-> mat_all2 recoverable m n.
Proof.
  destruct m as [a b c d], n as [a' b' c' d'].
  unfold mat_map2, mat_all2; cbn [m00 m01 m10 m11].
  rewrite <- !phase_read_recoverable. split.
  - intros H. injection H as H0 H1 H2 H3. auto.
  - intros (H0 & H1 & H2 & H3). rewrite H0, H1, H2, H3. reflexivity.
Qed.

(** The phases read back are the phases given exactly when every entry is
    recoverable. *)
Lemma phase_read_back_fixed (rho phi : rarray) :
  length rho = length phi ->
  phase_read_back rho phi = phi <-> Forall2 (mat_all2 recoverable) rho phi.
Proof.
  unfold phase_read_back.
  revert phi; induction rho as [|m rho IH]; intros [|n phi] Hlen;
    simpl in *; try discriminate.
  - split; [constructor|reflexivity].
  - injection Hlen as Hlen. split.
    + intros H. injection H as Hm Ht. constructor.
      * apply mat_read_recoverable; exact Hm.
      * apply IH; assumption.
    + intros H. inversion H as [|? ? ? ? Hm Ht]; subst. f_equal.
      * apply mat_read_recoverable; exact Hm.
      * apply IH; assumption.
Qed.

Lemma positive_recoverable (rho phi : rarray) :
  length rho = length phi ->
  Forall (mat_all (fun x => 0 < x)) rho ->
  Forall2 (mat_all2 recoverable) rho phi.
Proof.
  revert phi; induction rho as [|m rho IH]; intros [|n phi] Hlen H;
    simpl in *; try discriminate; constructor.
  - inversion H as [|? ? (H0 & H1 & H2 & H3) _]; subst.
    repeat split; left; assumption.
  - inversion H; subst. apply IH; [congruence|assumption].
Qed.

(** What the round trip reads back, before any arithmetic. *)
Lemma reread_value (F : R) (self : ZObj) (rho phi : rarray) (f : list R) :
  F <> 0 -> wf F self ->
  n_periods (_dataset self) = None \/ n_periods (_dataset self) = Some (length f) ->
  length rho = length f -> length phi = length f ->
  Forall (fun x => 0 < x) f ->
  reread self rho phi f
  = Ok (Some (zip_with (fun m fr => mat_map (fun x => Cabs x ^ 2 / fr * 0.2) m)
                       (reconstructed rho phi f) f),
        Some (map (mat_map (fun x => rad2deg (angle x)))
                  (reconstructed rho phi f))).
Proof.
  intros HF Hwf Hn Hr Hp Hpos. unfold reread.
  rewrite (set_resistivity_phase_state F self rho phi f Hwf Hn Hr Hp Hpos).
  set (self' := with_dataset self _).
  assert (Hwf' : wf F self').
  { split; [exact (wf_ohm F self Hwf)|exact (wf_table F self Hwf)
           |exact (wf_units F self Hwf)|exact Hpos|].
    apply consistent_after_set;
      [exact (wf_shape F self Hwf)|assumption|].
    apply reconstructed_length; assumption. }
  rewrite (resistivity_value F self' (reconstructed rho phi f) f HF Hwf'
             eq_refl eq_refl).
  rewrite (phase_value F self' (reconstructed rho phi f) HF Hwf' eq_refl).
  reflexivity.
Qed.

(** C3, the claim as stated fails: a resistivity of zero with a phase of 90
    degrees is read back with the phase 0. *)
Lemma C3_zero_resistivity_loses_phase :
  reread (empty_object MT_TO_OHM_FACTOR_value "mt")
         [zero_resistivity] [ninety_degrees] [1]
  <> Ok (Some [zero_resistivity], Some [ninety_degrees]).
Proof.
  rewrite (reread_value MT_TO_OHM_FACTOR_value).
  - intros H.
    apply (f_equal (fun r => match r with
                             | Ok (_, Some (m :: _)) => m00 m
                             | _ => 0
                             end)) in H.
    cbv beta iota in H. simpl in H.
    rewrite polar_value in H. unfold angle, arctan2 in H; simpl in H.
    replace (5 * 1 * 0) with 0 in H by ring. rewrite sqrt_0 in H.
    destruct (Rlt_dec 0 (0 * cos (radians 90))); [lra|].
    destruct (Rlt_dec (0 * cos (radians 90)) 0); [lra|].
    destruct (Rlt_dec 0 (0 * sin (radians 90))); [lra|].
    destruct (Rlt_dec (0 * sin (radians 90)) 0); [lra|].
    unfold rad2deg in H. lra.
  - exact MT_TO_OHM_FACTOR_value_nonzero.
  - apply empty_object_wf; left; reflexivity.
  - left; reflexivity.
  - reflexivity.
  - reflexivity.
  - constructor; [lra|constructor].
Qed.

(** C3, amended: on a well-formed object whose container is empty or has
    the length of the frequency array, for every positive frequency array,
    every nonnegative resistivity array and every phase array with entries
    in (-180, 180], all of one length, [set_resistivity_phase] followed by
    reading [resistivity] reproduces the resistivity (the constants 5 and
    0.2 cancel), and reading [phase] returns at each entry the phase given
    where the resistivity is positive and 0 where the resistivity is 0.
    The round trip therefore reproduces both arrays exactly when every
    entry has a positive resistivity or the phase 0, in particular when
    every resistivity is positive. *)
Theorem C3_resistivity_phase_round_trip (F : R) (self : ZObj)
  (rho phi : rarray) (f : list R) :
  F <> 0 -> wf F self ->
  n_periods (_dataset self) = None \/ n_periods (_dataset self) = Some (length f) ->
  length rho = length f -> length phi = length f ->
  Forall (fun x => 0 < x) f ->
  Forall (mat_all (fun x => 0 <= x)) rho ->
  Forall (mat_all (fun p => -180 < p <= 180)) phi ->
  reread self rho phi f = Ok (Some rho, Some (phase_read_back rho phi)) /\
  (reread self rho phi f = Ok (Some rho, Some phi) <->
   Forall2 (mat_all2 recoverable) rho phi) /\
  (Forall (mat_all (fun x => 0 < x)) rho ->
   reread self rho phi f = Ok (Some rho, Some phi)).
Proof.
  intros HF Hwf Hn Hr Hp Hpos Hrho Hphi.
  assert (Hlen : length rho = length phi) by congruence.
  rewrite (reread_value F self rho phi f HF Hwf Hn Hr Hp Hpos).
  rewrite (readback_resistivity rho phi f Hr Hp Hpos Hrho).
  rewrite (readback_phase_read rho phi f Hr Hp Hpos Hrho Hphi).
  split; [reflexivity|]. split.
  - rewrite <- (phase_read_back_fixed rho phi Hlen). split.
    + intros H. injection H as H. exact H.
    + intros H. rewrite H. reflexivity.
  - intros Hrho'.
    pose proof (positive_recoverable rho phi Hlen Hrho') as Hrec.
    apply (phase_read_back_fixed rho phi Hlen) in Hrec.
    rewrite Hrec. reflexivity.
Qed.

Lemma C3_resistivity_phase_round_trip_witness :
  reread (empty_object MT_TO_OHM_FACTOR_value "ohm")
         [off_diagonal_resistivity] [off_diagonal_phase] [1]
  = Ok (Some [off_diagonal_resistivity], Some [off_diagonal_phase]).
Proof.
  destruct (C3_resistivity_phase_round_trip MT_TO_OHM_FACTOR_value
              (empty_object MT_TO_OHM_FACTOR_value "ohm")
              [off_diagonal_resistivity] [off_diagonal_phase] [1])
    as (_ & Hiff & _).
  - exact MT_TO_OHM_FACTOR_value_nonzero.
  - apply empty_object_wf; right; reflexivity.
  - left; reflexivity.
  - reflexivity.
  - reflexivity.
  - constructor; [lra|constructor].
  - constructor; [|constructor]. unfold mat_all; simpl; lra.
  - constructor; [|constructor]. unfold mat_all; simpl; lra.
  - apply Hiff. constructor; [|constructor].
    unfold mat_all2, recoverable; simpl.
    repeat split; try (left; lra); right; reflexivity.
Defined.

(** ** C5: static shift and its inverse *)

Lemma zip_with_repeat {A B : Type} (g : A -> R * R -> B) (l : list A) (x y : R) :
  zip_with g l (combine (map sqrt (repeat x (length l)))
                        (map sqrt (repeat y (length l))))
  = map (fun m => g m (sqrt x, sqrt y)) l.
Proof. induction l as [|m l IH]; simpl; [reflexivity|rewrite IH; reflexivity]. Qed.

Lemma validate_ss_scalar (self : ZObj) (zd : carray) (rx : factor) (x : R) :
  z self = Ok (Some zd) ->
  _validate_ss_input self rx (Scalar x) = Ok (repeat x (length zd)).
Proof.
  intros Hz. unfold _validate_ss_input, _validate_factor_single. simpl.
  rewrite Hz. simpl. rewrite repeat_length, Nat.eqb_refl. reflexivity.
Qed.

Lemma Cdiv_shift (x : complex) (sf a : R) :
  sf <> 0 -> a <> 0 ->
  Cdiv (Cdiv (Cmul x (RtoC sf)) (RtoC a)) (RtoC sf) = Cdiv x (RtoC a).
Proof.
  intros Hs Ha. rewrite Cmul_RtoC, !Cdiv_RtoC by assumption.
  simpl. f_equal; field; auto.
Qed.

Lemma Cdiv_swap (x : complex) (sf a : R) :
  sf <> 0 -> a <> 0 ->
  Cmul (Cdiv (Cdiv x (RtoC sf)) (RtoC a)) (RtoC sf) = Cdiv x (RtoC a).
Proof.
  intros Hs Ha. rewrite Cmul_RtoC, !Cdiv_RtoC by assumption.
  simpl. f_equal; field; auto.
Qed.

Lemma Cdiv_comm (x : complex) (sf a : R) :
  sf <> 0 -> a <> 0 ->
  Cdiv (Cdiv x (RtoC a)) (RtoC sf) = Cdiv (Cdiv x (RtoC sf)) (RtoC a).
Proof.
  intros Hs Ha. rewrite !Cdiv_RtoC by assumption.
  simpl. f_equal; field; auto.
Qed.

Lemma sqrt_nonzero (x : R) : 0 < x -> sqrt x <> 0.
Proof. intros H; pose proof (sqrt_lt_R0 x H); lra. Qed.

(** The corrected tensor of [remove_ss] for scalar factors, in the unit of
    the object. *)
Lemma ss_corrected_scalar (self : ZObj) (sf : R) (zd : carray) (fx fy : R) :
  sf <> 0 -> 0 < fx -> 0 < fy ->
  _scale_factor self = Ok sf -> z self = Ok (Some zd) ->
  ss_corrected self (Scalar fx) (Scalar fy) = Ok (map (shift_rows fx fy) zd).
Proof.
  intros Hsf Hx Hy Hs Hz. unfold ss_corrected.
  rewrite !(validate_ss_scalar self zd _ _ Hz). simpl.
  rewrite Hz; simpl. rewrite Hs; simpl.
  rewrite zip_with_repeat. unfold cunscale. rewrite map_map.
  f_equal. apply map_ext; intros m.
  unfold ss_correct, shift_rows, mat_map; simpl.
  rewrite !Cdiv_shift by (auto using sqrt_nonzero). reflexivity.
Qed.

Lemma shift_rows_scale (fx fy sf : R) (zc : carray) :
  sf <> 0 -> 0 < fx -> 0 < fy ->
  cscale (map (shift_rows fx fy) (cunscale zc sf)) sf
  = map (shift_rows fx fy) zc.
Proof.
  intros Hsf Hx Hy. unfold cscale, cunscale. rewrite !map_map.
  apply map_ext; intros m. unfold shift_rows, mat_map; simpl.
  rewrite !Cdiv_swap by (auto using sqrt_nonzero). reflexivity.
Qed.

Lemma shift_rows_unscale (fx fy sf : R) (zc : carray) :
  sf <> 0 -> 0 < fx -> 0 < fy ->
  cunscale (map (shift_rows fx fy) zc) sf
  = map (shift_rows fx fy) (cunscale zc sf).
Proof.
  intros Hsf Hx Hy. unfold cunscale. rewrite !map_map.
  apply map_ext; intros m. unfold shift_rows, mat_map; simpl.
  rewrite (Cdiv_comm (m00 m) sf (sqrt fx)), (Cdiv_comm (m01 m) sf (sqrt fx)),
    (Cdiv_comm (m10 m) sf (sqrt fy)), (Cdiv_comm (m11 m) sf (sqrt fy))
    by (auto using sqrt_nonzero).
  reflexivity.
Qed.

Lemma shift_rows_inverse (fx fy : R) (zc : carray) :
  0 < fx -> 0 < fy ->
  map (shift_rows (1 / fx) (1 / fy)) (map (shift_rows fx fy) zc) = zc.
Proof.
  intros Hx Hy. rewrite map_map. apply map_id_ext; intros m.
  assert (Hsx : sqrt (1 / fx) = / sqrt fx)
    by (unfold Rdiv; rewrite Rmult_1_l; apply sqrt_inv).
  assert (Hsy : sqrt (1 / fy) = / sqrt fy)
    by (unfold Rdiv; rewrite Rmult_1_l; apply sqrt_inv).
  pose proof (sqrt_nonzero fx Hx) as Hnx.
  pose proof (sqrt_nonzero fy Hy) as Hny.
  unfold shift_rows; simpl. rewrite Hsx, Hsy.
  rewrite !Cdiv_RtoC by (auto using Rinv_neq_0_compat).
  destruct m as [[a1 a2] [b1 b2] [c1 c2] [d1 d2]]; simpl.
  f_equal; f_equal; field; assumption.
Qed.

(** The object [remove_ss] returns for scalar factors when it is not in
    place: the corrected tensor beside the stored errors and frequency. *)
Lemma remove_ss_scalar (F : R) (self : ZObj) (zc : carray) (fx fy : R) :
  F <> 0 -> wf F self -> transfer_function (_dataset self) = Some zc ->
  0 < fx -> 0 < fy ->
  remove_ss F (Scalar fx) (Scalar fy) false self
  = (Ok (Some (with_dataset self
                 (set_tf (map (shift_rows fx fy) zc) (_dataset self)))),
     self).
Proof.
  intros HF Hwf Hz Hx Hy.
  pose proof (scale_factor_wf F self Hwf) as Hs.
  assert (Hsf : factor_of F (_units self) <> 0)
    by (apply factor_of_nonzero; assumption).
  unfold remove_ss.
  rewrite (ss_corrected_scalar self _ (cunscale zc (factor_of F (_units self)))
             fx fy Hsf Hx Hy Hs)
    by (rewrite (z_wf F self Hwf), Hz; reflexivity).
  rewrite (z_error_wf F self Hwf), (z_model_error_wf F self Hwf). simpl.
  destruct (consistent_tf _ _ (wf_shape F self Hwf) Hz) as (He & Hm & Hf).
  unfold units.
  rewrite (init_ok F _ _ _ _ (_units self) (length zc));
    [ | exact (wf_units F self Hwf) | exact (wf_freq F self Hwf)
      | simpl; rewrite length_map, cunscale_length; reflexivity
      | apply has_length_map; [intros; apply runscale_length|assumption]
      | apply has_length_map; [intros; apply runscale_length|assumption]
      | exact Hf ].
  simpl. f_equal. f_equal. f_equal.
  destruct self as [o t u d]. destruct Hwf as [Ho Ht _ _ _]. simpl in *.
  subst o t. unfold with_dataset, set_tf; simpl.
  rewrite shift_rows_scale by assumption.
  f_equal. destruct d as [tf te tm fq]; simpl in *.
  f_equal.
  - destruct te; simpl; [rewrite rscale_runscale by assumption|]; reflexivity.
  - destruct tm; simpl; [rewrite rscale_runscale by assumption|]; reflexivity.
Qed.

Lemma wf_set_tf (F : R) (self : ZObj) (zc a : carray) :
  wf F self -> transfer_function (_dataset self) = Some zc ->
  length a = length zc ->
  wf F (with_dataset self (set_tf a (_dataset self))).
Proof.
  intros Hwf Hz Hlen.
  destruct (consistent_tf _ _ (wf_shape F self Hwf) Hz) as (He & Hm & Hf).
  split.
  - exact (wf_ohm F self Hwf).
  - exact (wf_table F self Hwf).
  - exact (wf_units F self Hwf).
  - exact (wf_freq F self Hwf).
  - intros n Hn. unfold n_periods in Hn; simpl in Hn. injection Hn as <-.
    simpl. rewrite Hlen. auto.
Qed.

Lemma set_tf_same (self : ZObj) (zc : carray) :
  transfer_function (_dataset self) = Some zc ->
  with_dataset self (set_tf zc (_dataset self)) = self.
Proof.
  destruct self as [o t u [tf te tm fq]]; simpl; intros ->; reflexivity.
Qed.

(** C5: on a well-formed object that holds a tensor, for positive scalar
    factors fx and fy, [remove_ss] with (fx, fy) and then with
    (1/fx, 1/fy), both not in place, returns first an object whose tensor
    has the xx/xy row divided by sqrt(fx) and the yx/yy row divided by
    sqrt(fy) and whose error arrays, frequency and unit are the original's,
    and then an object equal to the original; neither call changes the
    object it is called on. *)
Theorem C5_remove_ss_inverse (F : R) (self : ZObj) (zc : carray) (fx fy : R) :
  F <> 0 -> wf F self -> transfer_function (_dataset self) = Some zc ->
  0 < fx -> 0 < fy ->
  exists s1 zd,
    remove_ss F (Scalar fx) (Scalar fy) false self = (Ok (Some s1), self) /\
    remove_ss F (Scalar (1 / fx)) (Scalar (1 / fy)) false s1
    = (Ok (Some self), s1) /\
    z self = Ok (Some zd) /\
    z s1 = Ok (Some (map (shift_rows fx fy) zd)) /\
    map (shift_rows (1 / fx) (1 / fy)) (map (shift_rows fx fy) zd) = zd /\
    z_error s1 = z_error self /\
    z_model_error s1 = z_model_error self /\
    frequency s1 = frequency self /\
    units s1 = units self.
Proof.
  intros HF Hwf Hz Hx Hy.
  set (s1 := with_dataset self (set_tf (map (shift_rows fx fy) zc) (_dataset self))).
  assert (Hwf1 : wf F s1)
    by (apply (wf_set_tf F self zc); [assumption|assumption|apply length_map]).
  assert (Hix : 0 < 1 / fx) by (apply Rdiv_lt_0_compat; lra).
  assert (Hiy : 0 < 1 / fy) by (apply Rdiv_lt_0_compat; lra).
  assert (Hsf : factor_of F (_units self) <> 0)
    by (apply factor_of_nonzero; assumption).
  exists s1, (cunscale zc (factor_of F (_units self))).
  split; [apply remove_ss_scalar; assumption|].
  split.
  - rewrite (remove_ss_scalar F s1 (map (shift_rows fx fy) zc) (1 / fx) (1 / fy)
               HF Hwf1 eq_refl Hix Hiy).
    rewrite shift_rows_inverse by assumption.
    f_equal. f_equal. f_equal.
    transitivity (with_dataset self (set_tf zc (_dataset self)));
      [reflexivity|apply set_tf_same; assumption].
  - split; [rewrite (z_wf F self Hwf), Hz; reflexivity|].
    split.
    { rewrite (z_wf F s1 Hwf1). simpl.
      rewrite shift_rows_unscale by assumption. reflexivity. }
    split; [apply shift_rows_inverse; assumption|].
    repeat split; reflexivity.
Qed.

Lemma C5_remove_ss_inverse_witness :
  exists s1 zd,
    remove_ss MT_TO_OHM_FACTOR_value (Scalar 4) (Scalar 9) false
              ohm_identity_object
    = (Ok (Some s1), ohm_identity_object) /\
    remove_ss MT_TO_OHM_FACTOR_value (Scalar (1 / 4)) (Scalar (1 / 9)) false s1
    = (Ok (Some ohm_identity_object), s1) /\
    z ohm_identity_object = Ok (Some zd) /\
    z s1 = Ok (Some (map (shift_rows 4 9) zd)) /\
    map (shift_rows (1 / 4) (1 / 9)) (map (shift_rows 4 9) zd) = zd /\
    z_error s1 = z_error ohm_identity_object /\
    z_model_error s1 = z_model_error ohm_identity_object /\
    frequency s1 = frequency ohm_identity_object /\
    units s1 = units ohm_identity_object.
Proof.
  apply (C5_remove_ss_inverse MT_TO_OHM_FACTOR_value ohm_identity_object
           (cscale [identity_tensor] MT_TO_OHM_FACTOR_value) 4 9).
  - exact MT_TO_OHM_FACTOR_value_nonzero.
  - exact ohm_identity_object_wf.
  - reflexivity.
  - lra.
  - lra.
Defined.

(** ** C6: a tensor of the wrong length is rejected *)

Lemma agree_inv (e : nat) (o : option nat) (r : option nat) :
  agree (Some e) o = Ok r -> r = Some e /\ (forall m, o = Some m -> m = e).
Proof.
  destruct o as [m|]; simpl.
  - destruct (Nat.eqb e m) eqn:E; intros H; [|discriminate].
    injection H as <-. apply Nat.eqb_eq in E. split; [reflexivity|].
    intros k Hk; injection Hk as <-; auto.
  - intros H; injection H as <-. split; [reflexivity|discriminate].
Qed.

Lemma initialize_inv (tf : option carray) (tfe tfme : option rarray)
  (f : list R) (d : Dataset) :
  _initialize tf tfe tfme (Some f) = Ok d ->
  d = mkDataset tf tfe tfme (Some f) /\ has_length tf (length f).
Proof.
  unfold _initialize. cbn [option_map].
  destruct (agree (Some (length f)) (option_map (@length (mat2 complex)) tf))
    as [n1|] eqn:E1; cbn [bind]; [|intros H0; discriminate H0].
  apply agree_inv in E1. destruct E1 as (-> & Htf).
  destruct (agree (Some (length f)) (option_map (@length (mat2 R)) tfe))
    as [n2|] eqn:E2; cbn [bind]; [|intros H0; discriminate H0].
  apply agree_inv in E2. destruct E2 as (-> & _).
  destruct (agree (Some (length f)) (option_map (@length (mat2 R)) tfme))
    as [n3|] eqn:E3; cbn [bind]; [|intros H0; discriminate H0].
  intros H; injection H as <-. split; [reflexivity|].
  destruct tf as [a|]; simpl; [|exact I].
  apply (Htf (length a)); reflexivity.
Qed.

(** What a successful constructor call with a frequency array stores. *)
Lemma init_with_frequency (F : R) (zo : option carray) (zeo zmeo : option rarray)
  (f : list R) (U : string) (self : ZObj) :
  __init__ F zo zeo (Some f) zmeo U = Ok self ->
  TFBase.frequency (_dataset self) = Some f /\
  has_length (transfer_function (_dataset self)) (length f).
Proof.
  unfold __init__.
  destruct (units_setter U _) as [[u|e] s]; [|intros H0; discriminate H0].
  destruct (scaled_c s zo) as [z'|]; simpl; [|intros H0; discriminate H0].
  destruct (scaled_r s zeo) as [ze'|]; simpl; [|intros H0; discriminate H0].
  destruct (scaled_r s zmeo) as [zme'|]; simpl; [|intros H0; discriminate H0].
  unfold TFBase.__init__, _validate_frequency.
  destruct (forallb (fun x => Rgtb x 0) f); simpl; [|intros H0; discriminate H0].
  destruct (_initialize z' ze' zme' (Some f)) as [d|] eqn:E; simpl;
    [|intros H0; discriminate H0].
  intros H; injection H as <-.
  apply initialize_inv in E. destruct E as (-> & Hlen).
  split; [reflexivity|exact Hlen].
Qed.

Lemma z_setter_mismatch (self : ZObj) (f : list R) (X : carray) :
  TFBase.frequency (_dataset self) = Some f ->
  has_length (transfer_function (_dataset self)) (length f) ->
  length X <> length f ->
  z_setter (Some X) self
  = (Err (ShapeMismatchError (length f) (length X)), self).
Proof.
  intros Hf Htf Hne. apply Nat.eqb_neq in Hne.
  unfold z_setter, _has_tf, _has_frequency, frequency, shape.
  rewrite Hf. simpl.
  destruct (transfer_function (_dataset self)) as [a|]; simpl in *.
  - rewrite Htf, Hne. reflexivity.
  - rewrite Hne. reflexivity.
Qed.

(** C6: for every object constructed with a frequency array of length N
    (and any further arrays the constructor accepts), assigning a tensor of
    length M, M different from N, to [z] raises the shape-mismatch error
    that names N as expected and M as received, and leaves the object as it
    was: tensor, error arrays and frequency. *)
Theorem C6_shape_mismatch_rejected (F : R) (zo : option carray)
  (zeo zmeo : option rarray) (f : list R) (U : string) (self : ZObj)
  (X : carray) :
  __init__ F zo zeo (Some f) zmeo U = Ok self ->
  length X <> length f ->
  z_setter (Some X) self
  = (Err (ShapeMismatchError (length f) (length X)), self).
Proof.
  intros Hinit Hne.
  destruct (init_with_frequency F zo zeo zmeo f U self Hinit) as (Hf & Htf).
  apply z_setter_mismatch; assumption.
Qed.

Lemma C6_shape_mismatch_rejected_witness :
  z_setter (Some [identity_tensor; identity_tensor])
           (mkZ 2 (IMPEDANCE_UNITS 2) "mt" (mkDataset None None None (Some [1])))
  = (Err (ShapeMismatchError 1 2),
     mkZ 2 (IMPEDANCE_UNITS 2) "mt" (mkDataset None None None (Some [1]))).
Proof.
  apply (C6_shape_mismatch_rejected 2 None None None [1] "mt"
           (mkZ 2 (IMPEDANCE_UNITS 2) "mt" (mkDataset None None None (Some [1])))
           [identity_tensor; identity_tensor]).
  - apply (init_ok 2 None None None (Some [1]) "mt" 1); simpl; auto.
    + left; reflexivity.
    + constructor; [lra|constructor].
  - simpl; lia.
Defined.

(** ** C9: the first model error of an empty object *)

(** C9: on an object constructed without any array, for every recognized
    unit, assigning an (N,2,2) array to [z_model_error] initialises the
    container through its error field, not its model-error field: after the
    assignment [z_model_error] is None and [z_error] returns the assigned
    values divided by the unit's scale factor. *)
Theorem C9_model_error_lands_in_error (F : R) (U : string) (X : rarray) :
  recognized U ->
  exists s0 s1,
    __init__ F None None None None U = Ok s0 /\
    z_model_error_setter (Some X) s0 = (Ok tt, s1) /\
    transfer_function_error (_dataset s1) = Some X /\
    transfer_function_model_error (_dataset s1) = None /\
    z_model_error s1 = Ok None /\
    z_error s1 = Ok (Some (runscale X (factor_of F U))).
Proof.
  intros HU.
  exists (empty_object F U).
  exists (mkZ F (IMPEDANCE_UNITS F) U (mkDataset None (Some X) None None)).
  split; [apply init_empty; exact HU|].
  split; [reflexivity|].
  split; [reflexivity|].
  split; [reflexivity|].
  split; [reflexivity|].
  unfold z_error; simpl.
  rewrite (scale_factor_table F U _ HU). reflexivity.
Qed.

Lemma C9_model_error_lands_in_error_witness :
  exists s0 s1,
    __init__ MT_TO_OHM_FACTOR_value None None None None "ohm" = Ok s0 /\
    z_model_error_setter (Some [identity_error]) s0 = (Ok tt, s1) /\
    transfer_function_error (_dataset s1) = Some [identity_error] /\
    transfer_function_model_error (_dataset s1) = None /\
    z_model_error s1 = Ok None /\
    z_error s1
    = Ok (Some (runscale [identity_error]
                  (factor_of MT_TO_OHM_FACTOR_value "ohm"))).
Proof.
  apply (C9_model_error_lands_in_error MT_TO_OHM_FACTOR_value "ohm"
           [identity_error]).
  right; reflexivity.
Defined.

(** ** C10: a scalar x factor beside a one-element y factor *)

Lemma validate_ss_sequence_after_scalar (self : ZObj) (x : R) (fy : factor) :
  iterable fy = true ->
  _validate_ss_input self (Scalar x) fy
  = Err (TypeError "object of type 'float' has no len()").
Proof.
  intros H. unfold _validate_ss_input. rewrite H. reflexivity.
Qed.

(** C10: the length-one branch of the factor validation takes the length of
    [reduce_res_factor_x] whichever factor it validates; so on a
    well-formed object that holds a tensor, [remove_ss] with a number for
    [reduce_res_factor_x] and a one-element list or array for
    [reduce_res_factor_y] raises the TypeError of [len] on a number, in
    place or not, and leaves the object as it was. *)
Theorem C10_scalar_x_one_element_y (F : R) (self : ZObj) (zc : carray)
  (x c : R) (inplace : bool) :
  wf F self -> transfer_function (_dataset self) = Some zc ->
  remove_ss F (Scalar x) (PyList [c]) inplace self
  = (Err (TypeError "object of type 'float' has no len()"), self) /\
  remove_ss F (Scalar x) (NdArray [c]) inplace self
  = (Err (TypeError "object of type 'float' has no len()"), self).
Proof.
  intros Hwf Hz.
  assert (Hzd : z self = Ok (Some (cunscale zc (factor_of F (_units self)))))
    by (rewrite (z_wf F self Hwf), Hz; reflexivity).
  split; unfold remove_ss, ss_corrected;
    rewrite (validate_ss_scalar self _ (Scalar x) x Hzd); cbn [bind];
    rewrite validate_ss_sequence_after_scalar by reflexivity;
    reflexivity.
Qed.

Lemma C10_scalar_x_one_element_y_witness :
  remove_ss MT_TO_OHM_FACTOR_value (Scalar 2) (PyList [3]) false
            ohm_identity_object
  = (Err (TypeError "object of type 'float' has no len()"),
     ohm_identity_object) /\
  remove_ss MT_TO_OHM_FACTOR_value (Scalar 2) (NdArray [3]) false
            ohm_identity_object
  = (Err (TypeError "object of type 'float' has no len()"),
     ohm_identity_object).
Proof.
  apply (C10_scalar_x_one_element_y MT_TO_OHM_FACTOR_value ohm_identity_object
           (cscale [identity_tensor] MT_TO_OHM_FACTOR_value) 2 3 false).
  - exact ohm_identity_object_wf.
  - reflexivity.
Defined.

(** ** C8: dimensionality *)

Lemma set_index_app {A : Type} (pre : list A) (x : A) (a : list A) (v : A) :
  set_index (pre ++ x :: a) (length pre) v = Ok (pre ++ v :: a).
Proof.
  induction pre as [|p pre IH]; simpl; [reflexivity|].
  rewrite IH; reflexivity.
Qed.

Lemma assign_at_where_from {A B : Type} (cond : B -> bool) (v : A)
  (l : list B) :
  forall (pre a : list A), length l = length a ->
    assign_at (pre ++ a)
      (map fst (filter (fun ix => cond (snd ix))
                       (combine (seq (length pre) (length l)) l))) v
    = Ok (pre ++ zip_with (fun x y => if cond y then v else x) a l).
Proof.
  induction l as [|y l IH]; intros pre [|x a] Hlen; simpl in *;
    try discriminate; try reflexivity.
  injection Hlen as Hlen.
  destruct (cond y) eqn:Hc; simpl.
  - rewrite set_index_app; simpl.
    replace (pre ++ v :: a) with ((pre ++ [v]) ++ a)
      by (rewrite <- app_assoc; reflexivity).
    replace (S (length pre)) with (length (pre ++ [v]))
      by (rewrite length_app; simpl; lia).
    rewrite (IH (pre ++ [v]) a Hlen).
    rewrite <- app_assoc; reflexivity.
  - replace (pre ++ x :: a) with ((pre ++ [x]) ++ a)
      by (rewrite <- app_assoc; reflexivity).
    replace (S (length pre)) with (length (pre ++ [x]))
      by (rewrite length_app; simpl; lia).
    rewrite (IH (pre ++ [x]) a Hlen).
    rewrite <- app_assoc; reflexivity.
Qed.

(** [a[np.where(cond)] = v] replaces the entries of [a] where the
    condition holds. *)
Lemma assign_at_where {A B : Type} (cond : B -> bool) (v : A)
  (a : list A) (l : list B) :
  length l = length a ->
  assign_at a (np_where cond l) v
  = Ok (zip_with (fun x y => if cond y then v else x) a l).
Proof.
  intros Hlen. exact (assign_at_where_from cond v l [] a Hlen).
Qed.

Lemma classify_two_passes (st et : R) (ecc sk : list R) :
  length ecc = length sk ->
  zip_with (fun x s => if Rgtb (Rabs s) st then 3%Z else x)
    (zip_with (fun x e => if Rgtb e et then 2%Z else x)
       (repeat 1%Z (length ecc)) ecc) sk
  = zip_with (classify st et) ecc sk.
Proof.
  revert sk; induction ecc as [|e ecc IH]; intros [|s sk] Hlen; simpl in *;
    try discriminate; try reflexivity.
  injection Hlen as Hlen. rewrite (IH sk Hlen). unfold classify. reflexivity.
Qed.

Lemma classify_range (st et : R) (ecc sk : list R) :
  Forall (fun d => d = 1%Z \/ d = 2%Z \/ d = 3%Z)
         (zip_with (classify st et) ecc sk).
Proof.
  revert sk; induction ecc as [|e ecc IH]; intros [|s sk]; simpl;
    try constructor; [|apply IH].
  unfold classify.
  destruct (Rgtb (Rabs s) st); [auto|]. destruct (Rgtb e et); auto.
Qed.

Lemma estimate_dimensionality_value
  (PT : option carray -> option rarray -> option rarray -> option (list R) ->
        res PhaseTensorObj)
  (self : ZObj) (st et : R) (f : list R) (pt : PhaseTensorObj) :
  frequency self = Some f ->
  phase_tensor PT self = Ok pt ->
  length (eccentricity pt) = length f -> length (skew pt) = length f ->
  estimate_dimensionality PT self st et
  = Ok (zip_with (classify st et) (eccentricity pt) (skew pt)).
Proof.
  intros Hf Hpt He Hs. unfold estimate_dimensionality, period.
  unfold frequency in Hf. rewrite Hf. simpl. rewrite Hpt. simpl.
  rewrite length_map.
  rewrite assign_at_where by (rewrite repeat_length; assumption).
  simpl.
  rewrite assign_at_where
    by (rewrite zip_with_length; rewrite repeat_length; congruence).
  rewrite <- He. rewrite classify_two_passes by congruence. reflexivity.
Qed.

(** C8: when the frequency axis has N entries and the phase tensor exposes
    N eccentricities and N skews, [estimate_dimensionality] returns N
    integers, each in {1,2,3}: 1, set to 2 exactly where the eccentricity
    exceeds its threshold, then to 3 where |skew| exceeds its threshold,
    so that a frequency over both thresholds ends at 3; skew [0,0,10] and
    eccentricity [0,0.2,0] with the thresholds (5, 0.1) give [1,2,3]. *)
Theorem C8_estimate_dimensionality
  (PT : option carray -> option rarray -> option rarray -> option (list R) ->
        res PhaseTensorObj)
  (self : ZObj) (st et : R) (f : list R) (pt : PhaseTensorObj) :
  frequency self = Some f ->
  phase_tensor PT self = Ok pt ->
  length (eccentricity pt) = length f -> length (skew pt) = length f ->
  exists dims,
    estimate_dimensionality PT self st et = Ok dims /\
    dims = zip_with (classify st et) (eccentricity pt) (skew pt) /\
    length dims = length f /\
    Forall (fun d => d = 1%Z \/ d = 2%Z \/ d = 3%Z) dims /\
    (skew pt = [0; 0; 10] -> eccentricity pt = [0; 0.2; 0] ->
     estimate_dimensionality PT self 5 0.1 = Ok [1%Z; 2%Z; 3%Z]).
Proof.
  intros Hf Hpt He Hs.
  exists (zip_with (classify st et) (eccentricity pt) (skew pt)).
  split; [apply (estimate_dimensionality_value PT self st et f pt); assumption|].
  split; [reflexivity|].
  split; [rewrite zip_with_length by congruence; assumption|].
  split; [apply classify_range|].
  intros Hsk Hecc.
  rewrite (estimate_dimensionality_value PT self 5 0.1 f pt Hf Hpt He Hs).
  rewrite Hsk, Hecc. simpl. unfold classify.
  rewrite Rabs_R0.
  rewrite (Rabs_pos_eq 10) by lra.
  rewrite (Rgtb_false 0 5) by lra.
  rewrite (Rgtb_false 0 0.1) by lra.
  rewrite (Rgtb_true 0.2 0.1) by lra.
  rewrite (Rgtb_true 10 5) by lra.
  reflexivity.
Qed.

Lemma C8_estimate_dimensionality_witness :
  exists dims,
    estimate_dimensionality (fun _ _ _ _ => Ok example_phase_tensor)
      three_frequency_object 5 0.1 = Ok dims /\
    dims = zip_with (classify 5 0.1) (eccentricity example_phase_tensor)
                    (skew example_phase_tensor) /\
    length dims = length [1; 2; 3] /\
    Forall (fun d => d = 1%Z \/ d = 2%Z \/ d = 3%Z) dims /\
    (skew example_phase_tensor = [0; 0; 10] ->
     eccentricity example_phase_tensor = [0; 0.2; 0] ->
     estimate_dimensionality (fun _ _ _ _ => Ok example_phase_tensor)
       three_frequency_object 5 0.1 = Ok [1%Z; 2%Z; 3%Z]).
Proof.
  apply (C8_estimate_dimensionality (fun _ _ _ _ => Ok example_phase_tensor)
           three_frequency_object 5 0.1 [1; 2; 3] example_phase_tensor).
  - reflexivity.
  - reflexivity.
  - reflexivity.
  - reflexivity.
Defined.

(** ** C7: the model error of the object [remove_distortion] returns *)

Lemma ohm_model_object_constructed :
  __init__ MT_TO_OHM_FACTOR_value (Some [identity_tensor])
           (Some [identity_error]) (Some [1]) (Some [identity_error]) "ohm"
  = Ok ohm_model_object.
Proof.
  rewrite (init_ok MT_TO_OHM_FACTOR_value _ _ _ _ "ohm" 1); simpl; auto.
  - right; reflexivity.
  - constructor; [lra|constructor].
Qed.

Lemma ohm_model_object_wf : wf MT_TO_OHM_FACTOR_value ohm_model_object.
Proof.
  split.
  - reflexivity.
  - reflexivity.
  - right; reflexivity.
  - simpl. constructor; [lra|constructor].
  - intros n Hn. simpl in Hn. injection Hn as <-. simpl. auto.
Qed.

(** C7, the code at the failing input: for the object with the unit "ohm"
    and the identity model error, whatever single-frequency arrays the
    collaborator returns, the object that [remove_distortion] returns when
    it is not in place has the unit and the frequency of the original, but
    its [z_model_error] is the original's divided once more by the scale
    factor: it is constructed in the default unit "mt" from the model error
    read in "ohm", and its unit is set to "ohm" afterwards. *)
Theorem C7_model_error_rescaled
  (find_distortion : ZObj -> string -> bool -> bool ->
                     res (mat2 R * option (mat2 R)))
  (a : mat2 complex) (b : mat2 R) (D : mat2 R) :
  exists new,
    remove_distortion MT_TO_OHM_FACTOR_value (fun _ _ _ => Ok ([a], [b]))
      find_distortion (Some D) None None "det" false false ohm_model_object
    = (Ok (Some new), ohm_model_object) /\
    units new = units ohm_model_object /\
    frequency new = frequency ohm_model_object /\
    z_model_error ohm_model_object = Ok (Some [identity_error]) /\
    z_model_error new
    = Ok (Some (runscale [identity_error] MT_TO_OHM_FACTOR_value)) /\
    z_model_error new <> z_model_error ohm_model_object.
Proof.
  pose proof MT_TO_OHM_FACTOR_value_nonzero as HF.
  pose proof MT_TO_OHM_FACTOR_value_gt_1 as HF1.
  assert (Hme : z_model_error ohm_model_object = Ok (Some [identity_error])).
  { rewrite (z_model_error_wf _ _ ohm_model_object_wf).
    change (Ok (Some (runscale (rscale [identity_error] MT_TO_OHM_FACTOR_value)
                               MT_TO_OHM_FACTOR_value))
            = Ok (Some [identity_error])).
    rewrite runscale_rscale by exact HF. reflexivity. }
  exists (mkZ MT_TO_OHM_FACTOR_value (IMPEDANCE_UNITS MT_TO_OHM_FACTOR_value) "ohm"
            (mkDataset
               (Some (cscale (cscale [a] MT_TO_OHM_FACTOR_value) 1))
               (Some (rscale (rscale [b] MT_TO_OHM_FACTOR_value) 1))
               (Some (rscale [identity_error] 1))
               (Some [1]))).
  split.
  - unfold remove_distortion. cbn [bind fst snd].
    rewrite (scale_factor_wf _ _ ohm_model_object_wf). cbn [bind].
    rewrite Hme. cbn [bind].
    rewrite (init_ok MT_TO_OHM_FACTOR_value _ _ _ _ "mt" 1); simpl; auto.
    + left; reflexivity.
    + constructor; [lra|constructor].
  - split; [reflexivity|]. split; [reflexivity|]. split; [exact Hme|].
    assert (Hnew : forall d,
               z_model_error
                 (mkZ MT_TO_OHM_FACTOR_value
                      (IMPEDANCE_UNITS MT_TO_OHM_FACTOR_value) "ohm"
                      (mkDataset d
                         (Some (rscale (rscale [b] MT_TO_OHM_FACTOR_value) 1))
                         (Some (rscale [identity_error] 1)) (Some [1])))
               = Ok (Some (runscale [identity_error] MT_TO_OHM_FACTOR_value))).
    { intros d. unfold z_model_error; simpl.
      unfold identity_error, mat_map; simpl.
      do 4 f_equal; f_equal; field; exact HF. }
    split; [apply Hnew|].
    rewrite Hnew, Hme. intros H.
    apply (f_equal (fun r => match r with
                             | Ok (Some (m :: _)) => m00 m
                             | _ => 0
                             end)) in H.
    simpl in H.
    apply (f_equal (fun x => x * MT_TO_OHM_FACTOR_value)) in H.
    replace (1 / MT_TO_OHM_FACTOR_value * MT_TO_OHM_FACTOR_value)
      with 1 in H by (field; exact HF).
    lra.
Qed.

(** ** Further properties: units *)

Lemma dict_get_unrecognized (F : R) (value : string) :
  ~ recognized value ->
  dict_get (IMPEDANCE_UNITS F) value = Err (KeyError value).
Proof.
  intros H.
  change (dict_get (IMPEDANCE_UNITS F) value)
    with (if String.eqb "mt" value then Ok 1
          else if String.eqb "ohm" value then Ok F
               else Err (KeyError value)).
  destruct (String.eqb "mt" value) eqn:E1.
  - apply String.eqb_eq in E1. exfalso; apply H; left; auto.
  - destruct (String.eqb "ohm" value) eqn:E2; [|reflexivity].
    apply String.eqb_eq in E2. exfalso; apply H; right; auto.
Qed.

Lemma units_setter_lower (F : R) (self : ZObj) (value : string) :
  _unit_factors self = IMPEDANCE_UNITS F -> recognized (lower value) ->
  units_setter value self = (Ok tt, with_units self value).
Proof.
  intros Ht Hl. unfold units_setter. rewrite Ht.
  destruct Hl as [-> | ->]; reflexivity.
Qed.

(** X1: the [units] setter tests the lower-cased value against the table
    and stores the value as given.  A value that is a key only after
    lower-casing (such as "MT" or "Ohm") is therefore accepted, and the
    scale factor lookup then raises KeyError: reading [z] or [resistivity]
    of an object that holds a tensor fails, and so does constructing an
    object with a tensor and that unit, while constructing it without data
    succeeds. *)
Theorem X1_unit_accepted_then_key_error (F : R) (self : ZObj)
  (value : string) (zc : carray) :
  _unit_factors self = IMPEDANCE_UNITS F ->
  recognized (lower value) -> ~ recognized value ->
  transfer_function (_dataset self) = Some zc ->
  units_setter value self = (Ok tt, with_units self value) /\
  z (with_units self value) = Err (KeyError value) /\
  resistivity (with_units self value) = Err (KeyError value) /\
  __init__ F (Some zc) None None None value = Err (KeyError value) /\
  __init__ F None None None None value
  = Ok (mkZ F (IMPEDANCE_UNITS F) value TFBase.empty).
Proof.
  intros Ht Hl Hn Hz.
  assert (Hsf : _scale_factor (with_units self value) = Err (KeyError value)).
  { unfold _scale_factor; simpl. rewrite Ht.
    apply dict_get_unrecognized; assumption. }
  assert (Hzv : z (with_units self value) = Err (KeyError value)).
  { unfold z; simpl. rewrite Hz, Hsf. reflexivity. }
  split; [apply (units_setter_lower F); assumption|].
  split; [exact Hzv|].
  split; [unfold resistivity; rewrite Hzv; reflexivity|].
  split.
  - unfold __init__.
    rewrite (units_setter_lower F
               (mkZ F (IMPEDANCE_UNITS F) EmptyString TFBase.empty)
               value eq_refl Hl).
    assert (Hs : _scale_factor
                   (with_units (mkZ F (IMPEDANCE_UNITS F) EmptyString TFBase.empty)
                               value)
                 = Err (KeyError value))
      by (apply dict_get_unrecognized; assumption).
    unfold scaled_c. rewrite Hs. reflexivity.
  - unfold __init__.
    rewrite (units_setter_lower F
               (mkZ F (IMPEDANCE_UNITS F) EmptyString TFBase.empty)
               value eq_refl Hl). reflexivity.
Qed.

Lemma X1_unit_accepted_then_key_error_witness :
  units_setter "MT" ohm_identity_object
  = (Ok tt, with_units ohm_identity_object "MT") /\
  z (with_units ohm_identity_object "MT") = Err (KeyError "MT") /\
  resistivity (with_units ohm_identity_object "MT") = Err (KeyError "MT") /\
  __init__ MT_TO_OHM_FACTOR_value
    (Some (cscale [identity_tensor] MT_TO_OHM_FACTOR_value)) None None None "MT"
  = Err (KeyError "MT") /\
  __init__ MT_TO_OHM_FACTOR_value None None None None "MT"
  = Ok (mkZ MT_TO_OHM_FACTOR_value (IMPEDANCE_UNITS MT_TO_OHM_FACTOR_value)
            "MT" TFBase.empty).
Proof.
  apply (X1_unit_accepted_then_key_error MT_TO_OHM_FACTOR_value
           ohm_identity_object "MT").
  - reflexivity.
  - left; reflexivity.
  - intros [H|H]; discriminate H.
  - reflexivity.
Defined.

(** X2: a value whose lower-cased form is not a key of the table is
    rejected by the [units] setter with ValueError, the object unchanged,
    and a constructor call with that unit fails the same way whatever data
    it is given. *)
Theorem X2_unknown_unit_rejected (F : R) (self : ZObj) (value : string)
  (zo : option carray) (zeo zmeo : option rarray) (fo : option (list R)) :
  _unit_factors self = IMPEDANCE_UNITS F ->
  ~ recognized (lower value) ->
  units_setter value self
  = (Err (ValueError "not an acceptable unit for impedance"), self) /\
  __init__ F zo zeo fo zmeo value
  = Err (ValueError "not an acceptable unit for impedance").
Proof.
  intros Ht Hn.
  assert (Hin : str_in (lower value) (keys (IMPEDANCE_UNITS F)) = false).
  { change (str_in (lower value) (keys (IMPEDANCE_UNITS F)))
      with (String.eqb (lower value) "mt"
            || (String.eqb (lower value) "ohm" || false))%bool.
    destruct (String.eqb (lower value) "mt") eqn:E1.
    - apply String.eqb_eq in E1. exfalso; apply Hn; left; auto.
    - destruct (String.eqb (lower value) "ohm") eqn:E2; [|reflexivity].
      apply String.eqb_eq in E2. exfalso; apply Hn; right; auto. }
  split.
  - unfold units_setter. rewrite Ht, Hin. reflexivity.
  - unfold __init__, units_setter. simpl _unit_factors. rewrite Hin. reflexivity.
Qed.

Lemma X2_unknown_unit_rejected_witness :
  units_setter "volt" ohm_identity_object
  = (Err (ValueError "not an acceptable unit for impedance"),
     ohm_identity_object) /\
  __init__ MT_TO_OHM_FACTOR_value (Some [identity_tensor]) None (Some [1]) None
           "volt"
  = Err (ValueError "not an acceptable unit for impedance").
Proof.
  apply (X2_unknown_unit_rejected MT_TO_OHM_FACTOR_value ohm_identity_object
           "volt").
  - reflexivity.
  - intros [H|H]; discriminate H.
Defined.

(** ** Further properties: static shift *)

Lemma z_setter_with_tensor (self : ZObj) (zc a : carray) :
  transfer_function (_dataset self) = Some zc -> length a = length zc ->
  z_setter (Some a) self = (Ok tt, with_dataset self (set_tf a (_dataset self))).
Proof.
  intros Hz Hlen. unfold z_setter, _is_empty, _has_tf, shape.
  rewrite Hz. simpl. rewrite Hlen, Nat.eqb_refl. reflexivity.
Qed.

(** The object a call of [remove_ss] that is not in place returns, from
    the corrected tensor. *)
Lemma remove_ss_new_object (F : R) (self : ZObj) (zc zcorr : carray)
  (rx ry : factor) :
  F <> 0 -> wf F self -> transfer_function (_dataset self) = Some zc ->
  ss_corrected self rx ry = Ok zcorr -> length zcorr = length zc ->
  remove_ss F rx ry false self
  = (Ok (Some (with_dataset self
                 (set_tf (cscale zcorr (factor_of F (_units self)))
                         (_dataset self)))),
     self).
Proof.
  intros HF Hwf Hz Hss Hlen.
  assert (Hsf : factor_of F (_units self) <> 0)
    by (apply factor_of_nonzero; assumption).
  unfold remove_ss. rewrite Hss.
  rewrite (z_error_wf F self Hwf), (z_model_error_wf F self Hwf).
  cbn [bind].
  destruct (consistent_tf _ _ (wf_shape F self Hwf) Hz) as (He & Hm & Hf).
  unfold units.
  rewrite (init_ok F _ _ _ _ (_units self) (length zc));
    [ | exact (wf_units F self Hwf) | exact (wf_freq F self Hwf)
      | exact Hlen
      | apply has_length_map; [intros; apply runscale_length|assumption]
      | apply has_length_map; [intros; apply runscale_length|assumption]
      | exact Hf ].
  cbn [bind]. f_equal. f_equal. f_equal.
  destruct self as [o t u d]. destruct Hwf as [Ho Ht _ _ _]. simpl in *.
  subst o t. unfold with_dataset, set_tf; simpl.
  f_equal. destruct d as [tf te tm fq]; simpl in *.
  f_equal.
  - destruct te; simpl; [rewrite rscale_runscale by assumption|]; reflexivity.
  - destruct tm; simpl; [rewrite rscale_runscale by assumption|]; reflexivity.
Qed.

(** The object a call of [remove_ss] in place leaves behind. *)
Lemma remove_ss_in_place_object (F : R) (self : ZObj) (zc zcorr : carray)
  (rx ry : factor) :
  transfer_function (_dataset self) = Some zc ->
  ss_corrected self rx ry = Ok zcorr -> length zcorr = length zc ->
  remove_ss F rx ry true self
  = (Ok None, with_dataset self (set_tf zcorr (_dataset self))).
Proof.
  intros Hz Hss Hlen. unfold remove_ss. rewrite Hss.
  unfold bindM. rewrite (z_setter_with_tensor self zc zcorr Hz Hlen).
  reflexivity.
Qed.

Lemma ss_corrected_scalar_wf (F : R) (self : ZObj) (zc : carray) (fx fy : R) :
  F <> 0 -> wf F self -> transfer_function (_dataset self) = Some zc ->
  0 < fx -> 0 < fy ->
  ss_corrected self (Scalar fx) (Scalar fy)
  = Ok (map (shift_rows fx fy) (cunscale zc (factor_of F (_units self)))).
Proof.
  intros HF Hwf Hz Hx Hy.
  apply (ss_corrected_scalar self (factor_of F (_units self))); try assumption.
  - apply factor_of_nonzero; assumption.
  - apply (scale_factor_wf F); assumption.
  - rewrite (z_wf F self Hwf), Hz; reflexivity.
Qed.

(** X3: for positive scalar factors, [remove_ss] in place and not in place
    do not store the same tensor.  Not in place, the corrected tensor goes
    through the constructor, which multiplies by the scale factor; in
    place it goes through the [z] setter, which stores it as given.  The
    tensor read from the object corrected in place is the tensor read from
    the returned object divided once more by the scale factor; the two
    objects are equal when the unit is "mt". *)
Theorem X3_remove_ss_in_place_differs (F : R) (self : ZObj) (zc : carray)
  (fx fy : R) :
  F <> 0 -> wf F self -> transfer_function (_dataset self) = Some zc ->
  0 < fx -> 0 < fy ->
  exists s_in s_new zn,
    remove_ss F (Scalar fx) (Scalar fy) true self = (Ok None, s_in) /\
    remove_ss F (Scalar fx) (Scalar fy) false self = (Ok (Some s_new), self) /\
    z s_new = Ok (Some zn) /\
    z s_in = Ok (Some (cunscale zn (factor_of F (_units self)))) /\
    (_units self = "mt"%string -> s_in = s_new).
Proof.
  intros HF Hwf Hz Hx Hy.
  set (sf := factor_of F (_units self)).
  assert (Hsf : sf <> 0) by (apply factor_of_nonzero; assumption).
  pose proof (ss_corrected_scalar_wf F self zc fx fy HF Hwf Hz Hx Hy) as Hss.
  fold sf in Hss.
  assert (Hlen : length (map (shift_rows fx fy) (cunscale zc sf)) = length zc)
    by (rewrite length_map, cunscale_length; reflexivity).
  exists (with_dataset self
            (set_tf (map (shift_rows fx fy) (cunscale zc sf)) (_dataset self))).
  exists (with_dataset self
            (set_tf (map (shift_rows fx fy) zc) (_dataset self))).
  exists (map (shift_rows fx fy) (cunscale zc sf)).
  split; [apply (remove_ss_in_place_object F self zc); assumption|].
  split; [apply remove_ss_scalar; assumption|].
  assert (Hw1 : wf F (with_dataset self
                        (set_tf (map (shift_rows fx fy) zc) (_dataset self))))
    by (apply (wf_set_tf F self zc); [assumption|assumption|apply length_map]).
  assert (Hw2 : wf F (with_dataset self
                        (set_tf (map (shift_rows fx fy) (cunscale zc sf))
                                (_dataset self))))
    by (apply (wf_set_tf F self zc); assumption).
  split.
  { rewrite (z_wf F _ Hw1). simpl. fold sf.
    rewrite shift_rows_unscale by assumption. reflexivity. }
  split.
  { rewrite (z_wf F _ Hw2). reflexivity. }
  intros Hu. unfold sf. rewrite Hu.
  change (factor_of F "mt") with 1. rewrite cunscale_one. reflexivity.
Qed.

Lemma X3_remove_ss_in_place_differs_witness :
  exists s_in s_new zn,
    remove_ss MT_TO_OHM_FACTOR_value (Scalar 4) (Scalar 9) true
              ohm_identity_object = (Ok None, s_in) /\
    remove_ss MT_TO_OHM_FACTOR_value (Scalar 4) (Scalar 9) false
              ohm_identity_object = (Ok (Some s_new), ohm_identity_object) /\
    z s_new = Ok (Some zn) /\
    z s_in = Ok (Some (cunscale zn (factor_of MT_TO_OHM_FACTOR_value
                                      (_units ohm_identity_object)))) /\
    (_units ohm_identity_object = "mt"%string -> s_in = s_new).
Proof.
  apply (X3_remove_ss_in_place_differs MT_TO_OHM_FACTOR_value
           ohm_identity_object
           (cscale [identity_tensor] MT_TO_OHM_FACTOR_value) 4 9).
  - exact MT_TO_OHM_FACTOR_value_nonzero.
  - exact ohm_identity_object_wf.
  - reflexivity.
  - lra.
  - lra.
Defined.

Lemma shift_rows_one (zc : carray) : map (shift_rows 1 1) zc = zc.
Proof.
  apply map_id_ext; intros m. unfold shift_rows. rewrite sqrt_1.
  rewrite !Cdiv_RtoC by lra.
  destruct m as [[a1 a2] [b1 b2] [c1 c2] [d1 d2]]; simpl.
  f_equal; f_equal; field.
Qed.

(** X4: with the default factors 1.0 and 1.0, [remove_ss] not in place
    returns an object equal to the one it is called on, for a well-formed
    object that holds a tensor. *)
Theorem X4_remove_ss_default_factors (F : R) (self : ZObj) (zc : carray) :
  F <> 0 -> wf F self -> transfer_function (_dataset self) = Some zc ->
  remove_ss F (Scalar 1) (Scalar 1) false self = (Ok (Some self), self).
Proof.
  intros HF Hwf Hz.
  rewrite (remove_ss_scalar F self zc 1 1 HF Hwf Hz) by lra.
  rewrite shift_rows_one. rewrite (set_tf_same self zc Hz). reflexivity.
Qed.

Lemma X4_remove_ss_default_factors_witness :
  remove_ss MT_TO_OHM_FACTOR_value (Scalar 1) (Scalar 1) false
            ohm_identity_object
  = (Ok (Some ohm_identity_object), ohm_identity_object).
Proof.
  apply (X4_remove_ss_default_factors MT_TO_OHM_FACTOR_value
           ohm_identity_object
           (cscale [identity_tensor] MT_TO_OHM_FACTOR_value)).
  - exact MT_TO_OHM_FACTOR_value_nonzero.
  - exact ohm_identity_object_wf.
  - reflexivity.
Defined.

Lemma shift_rows_compose (fx1 fy1 fx2 fy2 : R) (zc : carray) :
  0 < fx1 -> 0 < fy1 -> 0 < fx2 -> 0 < fy2 ->
  map (shift_rows fx2 fy2) (map (shift_rows fx1 fy1) zc)
  = map (shift_rows (fx1 * fx2) (fy1 * fy2)) zc.
Proof.
  intros H1 H2 H3 H4. rewrite map_map. apply map_ext; intros m.
  unfold shift_rows; simpl.
  rewrite !sqrt_mult by lra.
  pose proof (sqrt_nonzero fx1 H1). pose proof (sqrt_nonzero fy1 H2).
  pose proof (sqrt_nonzero fx2 H3). pose proof (sqrt_nonzero fy2 H4).
  rewrite !Cdiv_RtoC by (try assumption; apply Rmult_integral_contrapositive; auto).
  simpl. f_equal; f_equal; field; auto.
Qed.

(** X5: static shifts compose by multiplying the factors: for positive
    scalar factors, [remove_ss] with (fx1, fy1) followed by [remove_ss]
    with (fx2, fy2) on the returned object returns the object that one
    call with (fx1*fx2, fy1*fy2) returns. *)
Theorem X5_remove_ss_composes (F : R) (self : ZObj) (zc : carray)
  (fx1 fy1 fx2 fy2 : R) :
  F <> 0 -> wf F self -> transfer_function (_dataset self) = Some zc ->
  0 < fx1 -> 0 < fy1 -> 0 < fx2 -> 0 < fy2 ->
  exists s1 s2,
    remove_ss F (Scalar fx1) (Scalar fy1) false self = (Ok (Some s1), self) /\
    remove_ss F (Scalar fx2) (Scalar fy2) false s1 = (Ok (Some s2), s1) /\
    remove_ss F (Scalar (fx1 * fx2)) (Scalar (fy1 * fy2)) false self
    = (Ok (Some s2), self).
Proof.
  intros HF Hwf Hz H1 H2 H3 H4.
  set (s1 := with_dataset self
               (set_tf (map (shift_rows fx1 fy1) zc) (_dataset self))).
  assert (Hwf1 : wf F s1)
    by (apply (wf_set_tf F self zc); [assumption|assumption|apply length_map]).
  exists s1.
  exists (with_dataset self
            (set_tf (map (shift_rows (fx1 * fx2) (fy1 * fy2)) zc)
                    (_dataset self))).
  split; [apply remove_ss_scalar; assumption|].
  split.
  - rewrite (remove_ss_scalar F s1 (map (shift_rows fx1 fy1) zc) fx2 fy2
               HF Hwf1 eq_refl H3 H4).
    rewrite shift_rows_compose by assumption. reflexivity.
  - apply remove_ss_scalar; try assumption; nra.
Qed.

Lemma X5_remove_ss_composes_witness :
  exists s1 s2,
    remove_ss MT_TO_OHM_FACTOR_value (Scalar 4) (Scalar 9) false
              ohm_identity_object = (Ok (Some s1), ohm_identity_object) /\
    remove_ss MT_TO_OHM_FACTOR_value (Scalar 2) (Scalar 3) false s1
    = (Ok (Some s2), s1) /\
    remove_ss MT_TO_OHM_FACTOR_value (Scalar (4 * 2)) (Scalar (9 * 3)) false
              ohm_identity_object = (Ok (Some s2), ohm_identity_object).
Proof.
  apply (X5_remove_ss_composes MT_TO_OHM_FACTOR_value ohm_identity_object
           (cscale [identity_tensor] MT_TO_OHM_FACTOR_value) 4 9 2 3).
  - exact MT_TO_OHM_FACTOR_value_nonzero.
  - exact ohm_identity_object_wf.
  - reflexivity.
  - lra.
  - lra.
  - lra.
  - lra.
Defined.

Lemma validate_ss_sequence (self : ZObj) (zd : carray) (rx fac : factor)
  (lx l : list R) :
  z self = Ok (Some zd) ->
  is_sequence rx lx -> length lx <> 1%nat ->
  is_sequence fac l -> length l = length zd ->
  _validate_ss_input self rx fac = Ok l.
Proof.
  intros Hz Hrx Hlx Hfac Hl. apply Nat.eqb_neq in Hlx.
  unfold _validate_ss_input.
  destruct Hrx as [-> | ->], Hfac as [-> | ->]; simpl;
    rewrite Hlx; simpl; rewrite Hz; simpl; rewrite Hl, Nat.eqb_refl;
    reflexivity.
Qed.

Lemma corrected_by_sequences (sf : R) (zd : carray) :
  sf <> 0 ->
  forall lx ly : list R,
    Forall (fun x => 0 < x) lx -> Forall (fun x => 0 < x) ly ->
    cunscale (zip_with (ss_correct sf) zd
                (combine (map sqrt lx) (map sqrt ly))) sf
    = zip_with shift_by zd (combine lx ly).
Proof.
  intros Hsf. induction zd as [|m zd IH]; intros [|x lx] [|y ly] Hx Hy;
    simpl; try reflexivity.
  inversion Hx; subst. inversion Hy; subst.
  f_equal; [|apply IH; assumption].
  unfold ss_correct, shift_by, shift_rows, mat_map; simpl.
  rewrite !Cdiv_shift by (auto using sqrt_nonzero). reflexivity.
Qed.

Lemma stored_by_sequences (sf : R) (zc : carray) :
  sf <> 0 ->
  forall l : list (R * R),
    Forall (fun xy => 0 < fst xy /\ 0 < snd xy) l ->
    cscale (zip_with shift_by (cunscale zc sf) l) sf = zip_with shift_by zc l.
Proof.
  intros Hsf. induction zc as [|m zc IH]; intros [|[x y] l] Hl;
    simpl; try reflexivity.
  inversion Hl as [|? ? [Hx Hy] Hl']; subst. simpl in *.
  f_equal; [|apply IH; assumption].
  unfold shift_by, shift_rows, mat_map; simpl.
  rewrite !Cdiv_swap by (auto using sqrt_nonzero). reflexivity.
Qed.

Lemma combine_positive (lx ly : list R) :
  Forall (fun x => 0 < x) lx -> Forall (fun x => 0 < x) ly ->
  Forall (fun xy => 0 < fst xy /\ 0 < snd xy) (combine lx ly).
Proof.
  intros Hx; revert ly; induction Hx as [|x lx Hx0 Hx IH]; intros ly Hy;
    simpl; [constructor|].
  destruct Hy as [|y ly Hy0 Hy]; constructor; simpl; auto.
Qed.

Lemma zip_with_combine_length {A B : Type} (g : A -> R * R -> B)
  (zd : list A) (lx ly : list R) :
  length lx = length zd -> length ly = length zd ->
  length (zip_with g zd (combine lx ly)) = length zd.
Proof.
  intros Hx Hy. apply zip_with_length.
  rewrite length_combine, Hx, Hy, Nat.min_id. reflexivity.
Qed.

(** X6: with a sequence of N positive factors for each row (N the number
    of frequencies, N not 1), [remove_ss] not in place returns the object
    whose stored tensor has, at each frequency f, the xx/xy row divided by
    sqrt(factor_x[f]) and the yx/yy row divided by sqrt(factor_y[f]); the
    factors may be Python lists or arrays. *)
Theorem X6_remove_ss_per_frequency (F : R) (self : ZObj) (zc : carray)
  (rx ry : factor) (lx ly : list R) :
  F <> 0 -> wf F self -> transfer_function (_dataset self) = Some zc ->
  is_sequence rx lx -> is_sequence ry ly ->
  length lx = length zc -> length ly = length zc -> length zc <> 1%nat ->
  Forall (fun x => 0 < x) lx -> Forall (fun x => 0 < x) ly ->
  remove_ss F rx ry false self
  = (Ok (Some (with_dataset self
                 (set_tf (zip_with shift_by zc (combine lx ly))
                         (_dataset self)))),
     self).
Proof.
  intros HF Hwf Hz Hrx Hry Hlx Hly Hn Hpx Hpy.
  set (sf := factor_of F (_units self)).
  assert (Hsf : sf <> 0) by (apply factor_of_nonzero; assumption).
  assert (Hzd : z self = Ok (Some (cunscale zc sf)))
    by (rewrite (z_wf F self Hwf), Hz; reflexivity).
  assert (Hss : ss_corrected self rx ry
                = Ok (zip_with shift_by (cunscale zc sf) (combine lx ly))).
  { unfold ss_corrected.
    rewrite (validate_ss_sequence self (cunscale zc sf) rx rx lx lx Hzd Hrx)
      by (rewrite ?cunscale_length; congruence).
    cbn [bind].
    rewrite (validate_ss_sequence self (cunscale zc sf) rx ry lx ly Hzd Hrx)
      by (rewrite ?cunscale_length; congruence).
    cbn [bind]. rewrite Hzd. cbn [bind].
    rewrite (scale_factor_wf F self Hwf). cbn [bind]. fold sf.
    rewrite corrected_by_sequences by assumption. reflexivity. }
  rewrite (remove_ss_new_object F self zc _ rx ry HF Hwf Hz Hss)
    by (rewrite zip_with_combine_length; rewrite ?cunscale_length; auto).
  fold sf. rewrite stored_by_sequences
    by (try assumption; apply combine_positive; assumption).
  reflexivity.
Qed.

Lemma two_frequency_object_wf : wf MT_TO_OHM_FACTOR_value two_frequency_object.
Proof.
  split.
  - reflexivity.
  - reflexivity.
  - right; reflexivity.
  - simpl. repeat constructor; lra.
  - intros n Hn. simpl in Hn. injection Hn as <-. simpl. auto.
Qed.

Lemma X6_remove_ss_per_frequency_witness :
  remove_ss MT_TO_OHM_FACTOR_value (PyList [4; 9]) (NdArray [16; 25]) false
            two_frequency_object
  = (Ok (Some (with_dataset two_frequency_object
                 (set_tf (zip_with shift_by
                            (cscale [identity_tensor; identity_tensor]
                                    MT_TO_OHM_FACTOR_value)
                            (combine [4; 9] [16; 25]))
                         (_dataset two_frequency_object)))),
     two_frequency_object).
Proof.
  apply (X6_remove_ss_per_frequency MT_TO_OHM_FACTOR_value two_frequency_object
           (cscale [identity_tensor; identity_tensor] MT_TO_OHM_FACTOR_value)
           (PyList [4; 9]) (NdArray [16; 25]) [4; 9] [16; 25]).
  - exact MT_TO_OHM_FACTOR_value_nonzero.
  - exact two_frequency_object_wf.
  - reflexivity.
  - left; reflexivity.
  - right; reflexivity.
  - reflexivity.
  - reflexivity.
  - simpl; lia.
  - repeat constructor; lra.
  - repeat constructor; lra.
Defined.

(** X7: sequence factors of the wrong length are rejected and the object
    is left as it was, in place or not.  When [reduce_res_factor_x] is a
    sequence of a length other than 1, [remove_ss] raises ValueError if
    that length is not the number of frequencies, and also if it is and
    [reduce_res_factor_y] is a sequence of another length.  When
    [reduce_res_factor_x] is a sequence of one element, every sequence
    [reduce_res_factor_y] of another length, the number of frequencies
    included, raises TypeError instead: the test on the length of
    [reduce_res_factor_x] sends it to [float]. *)
Theorem X7_remove_ss_wrong_length (F : R) (self : ZObj) (zd : carray)
  (rx ry : factor) (lx ly : list R) (inplace : bool) :
  z self = Ok (Some zd) ->
  is_sequence rx lx -> is_sequence ry ly ->
  (length lx <> 1%nat ->
   length lx <> length zd \/
   (length lx = length zd /\ length ly <> length zd) ->
   remove_ss F rx ry inplace self
   = (Err (ValueError "Length of reduce_res_factor_x needs to be len(z)"),
      self)) /\
  (length lx = 1%nat -> length ly <> 1%nat ->
   exists msg,
     remove_ss F rx ry inplace self = (Err (TypeError msg), self)).
Proof.
  intros Hz Hrx Hry. split.
  - intros H1 Hcase.
    assert (Hbad : forall fac l, is_sequence fac l -> length l <> length zd ->
              _validate_ss_input self rx fac
              = Err (ValueError
                       "Length of reduce_res_factor_x needs to be len(z)")).
    { intros fac l Hfac Hl. apply Nat.eqb_neq in Hl.
      pose proof H1 as H1'. apply Nat.eqb_neq in H1'.
      unfold _validate_ss_input.
      destruct Hrx as [-> | ->], Hfac as [-> | ->]; simpl;
        rewrite H1'; simpl; rewrite Hz; simpl; rewrite Hl; reflexivity. }
    unfold remove_ss, ss_corrected.
    destruct Hcase as [Hx | [Hx Hy]].
    + rewrite (Hbad rx lx Hrx Hx). reflexivity.
    + rewrite (validate_ss_sequence self zd rx rx lx lx Hz Hrx H1 Hrx Hx).
      cbn [bind]. rewrite (Hbad ry ly Hry Hy). reflexivity.
  - intros H1 Hy.
    destruct lx as [|c [|c' lx]]; simpl in H1; try discriminate.
    unfold remove_ss, ss_corrected.
    destruct Hrx as [-> | ->].
    + eexists. unfold _validate_ss_input, _validate_factor_single.
      simpl. reflexivity.
    + assert (Hx : _validate_ss_input self (NdArray [c]) (NdArray [c])
                   = Ok (repeat c (length zd))).
      { unfold _validate_ss_input, _validate_factor_single. simpl.
        rewrite Hz. simpl. rewrite repeat_length, Nat.eqb_refl.
        reflexivity. }
      rewrite Hx. cbn [bind].
      destruct Hry as [-> | ->].
      * eexists. unfold _validate_ss_input, _validate_factor_single.
        simpl. reflexivity.
      * destruct ly as [|d [|d' ly]]; [| exfalso; apply Hy; reflexivity |];
          eexists; unfold _validate_ss_input, _validate_factor_single;
          simpl; reflexivity.
Qed.

Lemma two_frequency_object_z :
  z two_frequency_object = Ok (Some [identity_tensor; identity_tensor]).
Proof.
  rewrite (z_wf _ _ two_frequency_object_wf).
  change (Ok (Some (cunscale (cscale [identity_tensor; identity_tensor]
                                     MT_TO_OHM_FACTOR_value)
                             MT_TO_OHM_FACTOR_value))
          = Ok (Some [identity_tensor; identity_tensor])).
  rewrite cunscale_cscale by exact MT_TO_OHM_FACTOR_value_nonzero.
  reflexivity.
Qed.

Lemma X7_remove_ss_wrong_length_witness :
  remove_ss MT_TO_OHM_FACTOR_value (PyList [4; 9; 16]) (PyList [1; 1]) false
            two_frequency_object
  = (Err (ValueError "Length of reduce_res_factor_x needs to be len(z)"),
     two_frequency_object) /\
  exists msg,
    remove_ss MT_TO_OHM_FACTOR_value (NdArray [4]) (NdArray [1; 1]) false
              two_frequency_object
    = (Err (TypeError msg), two_frequency_object).
Proof.
  split.
  - apply (X7_remove_ss_wrong_length MT_TO_OHM_FACTOR_value
             two_frequency_object [identity_tensor; identity_tensor]
             (PyList [4; 9; 16]) (PyList [1; 1]) [4; 9; 16] [1; 1] false).
    + exact two_frequency_object_z.
    + left; reflexivity.
    + left; reflexivity.
    + simpl; lia.
    + left; simpl; lia.
  - apply (X7_remove_ss_wrong_length MT_TO_OHM_FACTOR_value
             two_frequency_object [identity_tensor; identity_tensor]
             (NdArray [4]) (NdArray [1; 1]) [4] [1; 1] false).
    + exact two_frequency_object_z.
    + right; reflexivity.
    + right; reflexivity.
    + reflexivity.
    + simpl; lia.
Defined.

(** X8: on an object that holds no tensor, [remove_ss] raises TypeError
    for every pair of factors, in place or not, and leaves the object as
    it was: the length of [self.z], which is None, is taken while the first
    factor is validated, or [float] fails on a one-element list before. *)
Theorem X8_remove_ss_without_tensor (F : R) (self : ZObj) (rx ry : factor)
  (inplace : bool) :
  transfer_function (_dataset self) = None ->
  exists msg, remove_ss F rx ry inplace self = (Err (TypeError msg), self).
Proof.
  intros Hz.
  assert (Hzn : z self = Ok None) by (unfold z; rewrite Hz; reflexivity).
  assert (Hx : exists msg,
             _validate_ss_input self rx rx = Err (TypeError msg)).
  { unfold _validate_ss_input, _validate_factor_single.
    destruct rx as [x | l | l]; simpl.
    - rewrite Hzn. simpl. eexists; reflexivity.
    - destruct (Nat.eqb (length l) 1); simpl.
      + eexists; reflexivity.
      + rewrite Hzn. simpl. eexists; reflexivity.
    - destruct (Nat.eqb (length l) 1) eqn:E; simpl.
      + destruct l as [|c [|c' l]]; simpl in *; try discriminate.
        rewrite Hzn. simpl. eexists; reflexivity.
      + rewrite Hzn. simpl. eexists; reflexivity. }
  destruct Hx as (msg & Hx). exists msg.
  unfold remove_ss, ss_corrected. rewrite Hx. reflexivity.
Qed.

Lemma X8_remove_ss_without_tensor_witness :
  exists msg,
    remove_ss MT_TO_OHM_FACTOR_value (Scalar 2) (Scalar 3) false
              error_only_object
    = (Err (TypeError msg), error_only_object).
Proof.
  apply (X8_remove_ss_without_tensor MT_TO_OHM_FACTOR_value error_only_object
           (Scalar 2) (Scalar 3) false).
  reflexivity.
Defined.

(** X9: a one-element array for each factor acts as the number it holds:
    [remove_ss] with the arrays [c] and [d] does what it does with the
    numbers c and d, on every object, in place or not; a one-element
    Python list for [reduce_res_factor_x] instead raises TypeError, because
    [float] is applied to the list. *)
Theorem X9_remove_ss_one_element (F : R) (self : ZObj) (c d : R)
  (ry : factor) (inplace : bool) :
  remove_ss F (NdArray [c]) (NdArray [d]) inplace self
  = remove_ss F (Scalar c) (Scalar d) inplace self /\
  exists msg,
    remove_ss F (PyList [c]) ry inplace self = (Err (TypeError msg), self).
Proof.
  split.
  - unfold remove_ss, ss_corrected, _validate_ss_input,
      _validate_factor_single. reflexivity.
  - eexists. unfold remove_ss, ss_corrected, _validate_ss_input,
      _validate_factor_single. reflexivity.
Qed.

(** ** Further properties: resistivity and phase *)

Lemma arctan2_scale (y x k : R) :
  0 < k -> arctan2 (y * k) (x * k) = arctan2 y x.
Proof.
  intros Hk. unfold arctan2.
  destruct (Rlt_dec 0 (x * k)) as [H1|H1], (Rlt_dec 0 x) as [H2|H2];
    try (exfalso; nra).
  - f_equal. field. lra.
  - destruct (Rlt_dec (x * k) 0) as [H3|H3], (Rlt_dec x 0) as [H4|H4];
      try (exfalso; nra).
    + destruct (Rle_dec 0 (y * k)) as [H5|H5], (Rle_dec 0 y) as [H6|H6];
        try (exfalso; nra).
      * f_equal. f_equal. field. lra.
      * f_equal. f_equal. field. lra.
    + destruct (Rlt_dec 0 (y * k)) as [H5|H5], (Rlt_dec 0 y) as [H6|H6];
        try (exfalso; nra); try reflexivity.
      destruct (Rlt_dec (y * k) 0) as [H7|H7], (Rlt_dec y 0) as [H8|H8];
        try (exfalso; nra); reflexivity.
Qed.

Lemma angle_Cdiv_RtoC (x : complex) (a : R) :
  0 < a -> angle (Cdiv x (RtoC a)) = angle x.
Proof.
  intros Ha. rewrite Cdiv_RtoC by lra. unfold angle; simpl.
  unfold Rdiv. apply arctan2_scale. apply Rinv_0_lt_compat; assumption.
Qed.

Lemma Cabs_sq_Cdiv_sqrt (x : complex) (fx : R) :
  0 < fx -> Cabs (Cdiv x (RtoC (sqrt fx))) ^ 2 = Cabs x ^ 2 / fx.
Proof.
  intros Hx. pose proof (sqrt_nonzero fx Hx) as Hs.
  rewrite Cdiv_RtoC by assumption. rewrite !Cabs_sq. simpl.
  rewrite <- (sqrt_def fx) at 5 by lra. field. assumption.
Qed.

Lemma resistivity_shifted (fx fy : R) (zc : carray) :
  0 < fx -> 0 < fy ->
  forall f : list R,
    zip_with (fun m fr => mat_map (fun x => Cabs x ^ 2 / fr * 0.2) m)
             (map (shift_rows fx fy) zc) f
    = map (row_div fx fy)
          (zip_with (fun m fr => mat_map (fun x => Cabs x ^ 2 / fr * 0.2) m)
                    zc f).
Proof.
  intros Hx Hy. induction zc as [|m zc IH]; intros [|fr f]; simpl;
    try reflexivity.
  f_equal; [|apply IH].
  unfold shift_rows, row_div, mat_map; simpl.
  rewrite !Cabs_sq_Cdiv_sqrt by assumption.
  unfold Rdiv. f_equal; ring.
Qed.

Lemma phase_shifted (fx fy : R) (zc : carray) :
  0 < fx -> 0 < fy ->
  map (mat_map (fun x => rad2deg (angle x))) (map (shift_rows fx fy) zc)
  = map (mat_map (fun x => rad2deg (angle x))) zc.
Proof.
  intros Hx Hy. rewrite map_map. apply map_ext; intros m.
  unfold shift_rows, mat_map; simpl.
  rewrite !angle_Cdiv_RtoC by (apply sqrt_lt_R0; assumption).
  reflexivity.
Qed.

(** X10: the factors of [remove_ss] are in resistivity scale, as its
    docstring says: for positive scalar factors, the resistivity of the
    returned object is the original resistivity with the xx/xy row divided
    by factor_x and the yx/yy row divided by factor_y, and its phase is the
    original phase. *)
Theorem X10_static_shift_on_resistivity_and_phase (F : R) (self : ZObj)
  (zc : carray) (f : list R) (fx fy : R) :
  F <> 0 -> wf F self ->
  transfer_function (_dataset self) = Some zc -> frequency self = Some f ->
  0 < fx -> 0 < fy ->
  exists s1 r,
    remove_ss F (Scalar fx) (Scalar fy) false self = (Ok (Some s1), self) /\
    resistivity self = Ok (Some r) /\
    resistivity s1 = Ok (Some (map (row_div fx fy) r)) /\
    phase s1 = phase self.
Proof.
  intros HF Hwf Hz Hf Hx Hy.
  set (s1 := with_dataset self
               (set_tf (map (shift_rows fx fy) zc) (_dataset self))).
  assert (Hwf1 : wf F s1)
    by (apply (wf_set_tf F self zc); [assumption|assumption|apply length_map]).
  exists s1. eexists.
  split; [apply remove_ss_scalar; assumption|].
  split; [apply (resistivity_value F self zc f); assumption|].
  split.
  - rewrite (resistivity_value F s1 (map (shift_rows fx fy) zc) f HF Hwf1
               eq_refl Hf).
    rewrite resistivity_shifted by assumption. reflexivity.
  - rewrite (phase_value F s1 (map (shift_rows fx fy) zc) HF Hwf1 eq_refl).
    rewrite (phase_value F self zc HF Hwf Hz).
    rewrite phase_shifted by assumption. reflexivity.
Qed.

Lemma X10_static_shift_on_resistivity_and_phase_witness :
  exists s1 r,
    remove_ss MT_TO_OHM_FACTOR_value (Scalar 4) (Scalar 9) false
              ohm_identity_object = (Ok (Some s1), ohm_identity_object) /\
    resistivity ohm_identity_object = Ok (Some r) /\
    resistivity s1 = Ok (Some (map (row_div 4 9) r)) /\
    phase s1 = phase ohm_identity_object.
Proof.
  apply (X10_static_shift_on_resistivity_and_phase MT_TO_OHM_FACTOR_value
           ohm_identity_object
           (cscale [identity_tensor] MT_TO_OHM_FACTOR_value) [1] 4 9).
  - exact MT_TO_OHM_FACTOR_value_nonzero.
  - exact ohm_identity_object_wf.
  - reflexivity.
  - reflexivity.
  - lra.
  - lra.
Defined.

Lemma det_value (F : R) (self : ZObj) (zc : carray) :
  F <> 0 -> wf F self -> transfer_function (_dataset self) = Some zc ->
  det self = Ok (Some (map (fun m => Csqrt (det2 m)) zc)).
Proof.
  intros HF Hwf Hz.
  assert (Hsf : factor_of F (_units self) <> 0)
    by (apply factor_of_nonzero; assumption).
  unfold det. rewrite (z_wf F self Hwf), Hz. cbn [option_map bind].
  destruct zc as [|m zc]; [reflexivity|].
  cbn [cunscale map]. rewrite (scale_factor_wf F self Hwf). cbn [bind].
  do 2 f_equal.
  change (map (fun ii => Csqrt (det2 (mat_map (fun x => Cmul x (RtoC (factor_of F (_units self)))) ii)))
              (cunscale (m :: zc) (factor_of F (_units self)))
          = map (fun m0 => Csqrt (det2 m0)) (m :: zc)).
  unfold cunscale. rewrite map_map. apply map_ext; intros m0.
  rewrite mat_map_map.
  rewrite (mat_map_id_ext _ m0); [reflexivity|].
  intros x; apply Cmul_Cdiv_RtoC; assumption.
Qed.

Lemma wf_with_units (F : R) (self : ZObj) (U : string) :
  wf F self -> recognized U -> wf F (with_units self U).
Proof.
  intros [Ho Ht Hu Hf Hs] HU. split; assumption.
Qed.

(** X11: the derived quantities do not depend on the unit.  On a
    well-formed object that holds a tensor and a frequency axis, setting
    the unit to any key of the table changes what [z] returns (the stored
    tensor divided by the new scale factor) and leaves [resistivity],
    [phase] and [det] as they were. *)
Theorem X11_derived_quantities_unit_independent (F : R) (self : ZObj)
  (zc : carray) (f : list R) (U : string) :
  F <> 0 -> wf F self -> recognized U ->
  transfer_function (_dataset self) = Some zc -> frequency self = Some f ->
  exists s',
    units_setter U self = (Ok tt, s') /\
    z s' = Ok (Some (cunscale zc (factor_of F U))) /\
    resistivity s' = resistivity self /\
    phase s' = phase self /\
    det s' = det self.
Proof.
  intros HF Hwf HU Hz Hf.
  exists (with_units self U).
  pose proof (wf_with_units F self U Hwf HU) as Hwf'.
  split; [apply (units_setter_recognized U self F HU (wf_table F self Hwf))|].
  split; [rewrite (z_wf F _ Hwf'); simpl; rewrite Hz; reflexivity|].
  split.
  - rewrite (resistivity_value F _ zc f HF Hwf' Hz Hf).
    rewrite (resistivity_value F self zc f HF Hwf Hz Hf). reflexivity.
  - split.
    + rewrite (phase_value F _ zc HF Hwf' Hz).
      rewrite (phase_value F self zc HF Hwf Hz). reflexivity.
    + rewrite (det_value F _ zc HF Hwf' Hz).
      rewrite (det_value F self zc HF Hwf Hz). reflexivity.
Qed.

Lemma X11_derived_quantities_unit_independent_witness :
  exists s',
    units_setter "mt" ohm_identity_object = (Ok tt, s') /\
    z s' = Ok (Some (cunscale (cscale [identity_tensor] MT_TO_OHM_FACTOR_value)
                              (factor_of MT_TO_OHM_FACTOR_value "mt"))) /\
    resistivity s' = resistivity ohm_identity_object /\
    phase s' = phase ohm_identity_object /\
    det s' = det ohm_identity_object.
Proof.
  apply (X11_derived_quantities_unit_independent MT_TO_OHM_FACTOR_value
           ohm_identity_object
           (cscale [identity_tensor] MT_TO_OHM_FACTOR_value) [1] "mt").
  - exact MT_TO_OHM_FACTOR_value_nonzero.
  - exact ohm_identity_object_wf.
  - left; reflexivity.
  - reflexivity.
  - reflexivity.
Defined.

(** ** Further properties: the errors of resistivity and phase *)

Lemma consistent_tf_error (F : R) (self : ZObj) (zc : carray) (ec : rarray) :
  wf F self -> transfer_function (_dataset self) = Some zc ->
  transfer_function_error (_dataset self) = Some ec ->
  length ec = length zc.
Proof.
  intros Hwf Hz He.
  destruct (consistent_tf _ _ (wf_shape F self Hwf) Hz) as (H & _ & _).
  rewrite He in H. exact H.
Qed.

Lemma consistent_tf_frequency (F : R) (self : ZObj) (zc : carray) (f : list R) :
  wf F self -> transfer_function (_dataset self) = Some zc ->
  frequency self = Some f -> length f = length zc.
Proof.
  intros Hwf Hz Hf.
  destruct (consistent_tf _ _ (wf_shape F self Hwf) Hz) as (_ & _ & H).
  unfold frequency in Hf. rewrite Hf in H. exact H.
Qed.

Lemma resistivity_error_value (F : R) (self : ZObj) (zc : carray)
  (ec : rarray) (f : list R) :
  F <> 0 -> wf F self ->
  transfer_function (_dataset self) = Some zc ->
  transfer_function_error (_dataset self) = Some ec ->
  frequency self = Some f ->
  resistivity_error self
  = Ok (Some (zip_with (fun m fr => mat_map (fun x => x / fr * 0.2) m)
                (zip_with (mat_map2 (fun e x => 2 * e * Cabs x)) ec zc) f)).
Proof.
  intros HF Hwf Hz He Hf.
  assert (Hsf : factor_of F (_units self) <> 0)
    by (apply factor_of_nonzero; assumption).
  pose proof (consistent_tf_error F self zc ec Hwf Hz He) as Hle.
  pose proof (consistent_tf_frequency F self zc f Hwf Hz Hf) as Hlf.
  unfold resistivity_error.
  rewrite (z_wf F self Hwf), (z_error_wf F self Hwf), Hz, He.
  cbn [option_map bind].
  rewrite (scale_factor_wf F self Hwf). cbn [bind].
  rewrite rscale_runscale, cscale_cunscale by assumption.
  rewrite broadcast_same by assumption. cbn [bind]. rewrite Hf.
  rewrite broadcast_same
    by (rewrite zip_with_length by assumption; congruence).
  reflexivity.
Qed.

Lemma relative_error_arrays (zc : carray) :
  Forall (mat_all (fun x => Cabs x <> 0)) zc ->
  forall (ec : rarray) (f : list R),
    zip_with (fun m fr => mat_map (fun x => x / fr * 0.2) m)
      (zip_with (mat_map2 (fun e x => 2 * e * Cabs x)) ec zc) f
    = zip_with (mat_map2 Rmult)
        (zip_with (fun m fr => mat_map (fun x => Cabs x ^ 2 / fr * 0.2) m) zc f)
        (zip_with (mat_map2 (fun e x => 2 * (e / Cabs x))) ec zc).
Proof.
  induction 1 as [|m zc Hm Hzc IH]; intros [|e ec] [|fr f]; simpl;
    try reflexivity.
  destruct Hm as (H0 & H1 & H2 & H3).
  f_equal; [|apply IH].
  unfold mat_map, mat_map2; simpl. unfold Rdiv.
  f_equal.
  - transitivity (Cabs (m00 m) * / Cabs (m00 m)
                  * (2 * m00 e * Cabs (m00 m) * / fr * 0.2));
      [rewrite Rinv_r by assumption; ring|simpl; ring].
  - transitivity (Cabs (m01 m) * / Cabs (m01 m)
                  * (2 * m01 e * Cabs (m01 m) * / fr * 0.2));
      [rewrite Rinv_r by assumption; ring|simpl; ring].
  - transitivity (Cabs (m10 m) * / Cabs (m10 m)
                  * (2 * m10 e * Cabs (m10 m) * / fr * 0.2));
      [rewrite Rinv_r by assumption; ring|simpl; ring].
  - transitivity (Cabs (m11 m) * / Cabs (m11 m)
                  * (2 * m11 e * Cabs (m11 m) * / fr * 0.2));
      [rewrite Rinv_r by assumption; ring|simpl; ring].
Qed.

(** X12: [resistivity_error] is computed from the stored tensor Z and
    error E whatever the unit, entry by entry 2 * E * |Z| / frequency *
    0.2; where no entry of the tensor is zero this is the resistivity times
    2 * E / |Z|: the relative error of the resistivity is twice the
    relative error of the amplitude, as the docstring says. *)
Theorem X12_resistivity_error_is_twice_relative (F : R) (self : ZObj)
  (zc : carray) (ec : rarray) (f : list R) :
  F <> 0 -> wf F self ->
  transfer_function (_dataset self) = Some zc ->
  transfer_function_error (_dataset self) = Some ec ->
  frequency self = Some f ->
  resistivity_error self
  = Ok (Some (zip_with (fun m fr => mat_map (fun x => x / fr * 0.2) m)
                (zip_with (mat_map2 (fun e x => 2 * e * Cabs x)) ec zc) f)) /\
  (Forall (mat_all (fun x => Cabs x <> 0)) zc ->
   exists r,
     resistivity self = Ok (Some r) /\
     resistivity_error self
     = Ok (Some (zip_with (mat_map2 Rmult) r
                   (zip_with (mat_map2 (fun e x => 2 * (e / Cabs x))) ec zc)))).
Proof.
  intros HF Hwf Hz He Hf.
  pose proof (resistivity_error_value F self zc ec f HF Hwf Hz He Hf) as Hv.
  split; [exact Hv|].
  intros Hnz. eexists.
  split; [apply (resistivity_value F self zc f); assumption|].
  rewrite Hv. rewrite (relative_error_arrays zc Hnz). reflexivity.
Qed.

Lemma Cabs_nonzero (x : complex) : re x <> 0 \/ im x <> 0 -> Cabs x <> 0.
Proof.
  intros H. unfold Cabs.
  assert (0 < re x * re x + im x * im x) by (destruct H; nra).
  pose proof (sqrt_lt_R0 _ H0). lra.
Qed.

Lemma example_error_object_wf : wf MT_TO_OHM_FACTOR_value example_error_object.
Proof.
  split.
  - reflexivity.
  - reflexivity.
  - right; reflexivity.
  - simpl. constructor; [lra|constructor].
  - intros n Hn. simpl in Hn. injection Hn as <-. simpl. auto.
Qed.

Lemma example_error_object_nonzero :
  Forall (mat_all (fun x => Cabs x <> 0))
         (cscale [example_tensor] MT_TO_OHM_FACTOR_value).
Proof.
  pose proof MT_TO_OHM_FACTOR_value_gt_1 as HF.
  constructor; [|constructor].
  unfold mat_all, example_tensor, mat_map; simpl.
  repeat split; apply Cabs_nonzero; left; simpl; lra.
Qed.

Lemma X12_resistivity_error_is_twice_relative_witness :
  resistivity_error example_error_object
  = Ok (Some (zip_with (fun m fr => mat_map (fun x => x / fr * 0.2) m)
                (zip_with (mat_map2 (fun e x => 2 * e * Cabs x))
                   (rscale [identity_error] MT_TO_OHM_FACTOR_value)
                   (cscale [example_tensor] MT_TO_OHM_FACTOR_value)) [1])) /\
  exists r,
    resistivity example_error_object = Ok (Some r) /\
    resistivity_error example_error_object
    = Ok (Some (zip_with (mat_map2 Rmult) r
                  (zip_with (mat_map2 (fun e x => 2 * (e / Cabs x)))
                     (rscale [identity_error] MT_TO_OHM_FACTOR_value)
                     (cscale [example_tensor] MT_TO_OHM_FACTOR_value)))).
Proof.
  destruct (X12_resistivity_error_is_twice_relative MT_TO_OHM_FACTOR_value
              example_error_object
              (cscale [example_tensor] MT_TO_OHM_FACTOR_value)
              (rscale [identity_error] MT_TO_OHM_FACTOR_value) [1]
              MT_TO_OHM_FACTOR_value_nonzero example_error_object_wf
              eq_refl eq_refl eq_refl) as [H1 H2].
  split; [exact H1|].
  apply H2. exact example_error_object_nonzero.
Defined.

Lemma Cabs_Cdiv_RtoC (x : complex) (s : R) :
  0 < s -> Cabs (Cdiv x (RtoC s)) = Cabs x / s.
Proof.
  intros Hs. rewrite Cdiv_RtoC by lra. unfold Cabs; simpl.
  replace (re x / s * (re x / s) + im x / s * (im x / s))
    with ((re x * re x + im x * im x) * (/ s * / s)) by (field; lra).
  rewrite sqrt_mult_alt by nra.
  rewrite sqrt_square by (left; apply Rinv_0_lt_compat; assumption).
  reflexivity.
Qed.

Lemma phase_error_arrays (s : R) (zc : carray) :
  0 < s -> Forall (mat_all (fun x => Cabs x <> 0)) zc ->
  forall ec : rarray,
    zip_with (mat_map2 (fun e x => rad2deg (atan (e / Cabs x))))
             (runscale ec s) (cunscale zc s)
    = zip_with (mat_map2 (fun e x => rad2deg (atan (e / Cabs x)))) ec zc.
Proof.
  intros Hs Hnz. induction Hnz as [|m zc Hm Hzc IH]; intros [|e ec]; simpl;
    try reflexivity.
  destruct Hm as (H0 & H1 & H2 & H3).
  f_equal; [|apply IH].
  unfold mat_map, mat_map2; simpl.
  rewrite !Cabs_Cdiv_RtoC by assumption.
  f_equal; do 2 f_equal; field; split; auto; lra.
Qed.

(** X13: [phase_error] does not depend on the unit: on a well-formed
    object (positive conversion constant) whose tensor has no zero entry,
    it is degrees(arctan(E / |Z|)) of the stored error E and tensor Z,
    although the code divides the arrays read in the object's unit. *)
Theorem X13_phase_error_unit_independent (F : R) (self : ZObj)
  (zc : carray) (ec : rarray) :
  0 < F -> wf F self ->
  transfer_function (_dataset self) = Some zc ->
  transfer_function_error (_dataset self) = Some ec ->
  Forall (mat_all (fun x => Cabs x <> 0)) zc ->
  phase_error self
  = Ok (Some (zip_with (mat_map2 (fun e x => rad2deg (atan (e / Cabs x))))
                       ec zc)).
Proof.
  intros HF Hwf Hz He Hnz.
  assert (Hsf : 0 < factor_of F (_units self))
    by (unfold factor_of; destruct (String.eqb (_units self) "mt"); lra).
  pose proof (consistent_tf_error F self zc ec Hwf Hz He) as Hle.
  unfold phase_error.
  rewrite (z_wf F self Hwf), (z_error_wf F self Hwf), Hz, He.
  cbn [option_map bind].
  rewrite broadcast_same
    by (rewrite runscale_length, cunscale_length; assumption).
  cbn [bind]. rewrite phase_error_arrays by assumption. reflexivity.
Qed.

Lemma X13_phase_error_unit_independent_witness :
  phase_error example_error_object
  = Ok (Some (zip_with (mat_map2 (fun e x => rad2deg (atan (e / Cabs x))))
                (rscale [identity_error] MT_TO_OHM_FACTOR_value)
                (cscale [example_tensor] MT_TO_OHM_FACTOR_value))).
Proof.
  apply (X13_phase_error_unit_independent MT_TO_OHM_FACTOR_value
           example_error_object).
  - pose proof MT_TO_OHM_FACTOR_value_gt_1; lra.
  - exact example_error_object_wf.
  - reflexivity.
  - reflexivity.
  - exact example_error_object_nonzero.
Defined.

(** ** Further properties: the determinant *)

Lemma Cabs_nonneg (a : complex) : 0 <= Cabs a.
Proof. unfold Cabs; apply sqrt_pos. Qed.

Lemma Cabs_sq_Csqrt (a : complex) : Cabs (Csqrt a) ^ 2 = Cabs a.
Proof.
  rewrite Cabs_sq. unfold Csqrt; simpl.
  pose proof (sin2_cos2 (angle a / 2)) as H. unfold Rsqr in H.
  replace (sqrt (Cabs a) * cos (angle a / 2) * (sqrt (Cabs a) * cos (angle a / 2))
           + sqrt (Cabs a) * sin (angle a / 2) * (sqrt (Cabs a) * sin (angle a / 2)))
    with (sqrt (Cabs a) * sqrt (Cabs a)
          * (sin (angle a / 2) * sin (angle a / 2)
             + cos (angle a / 2) * cos (angle a / 2))) by ring.
  rewrite H, sqrt_def by apply Cabs_nonneg. ring.
Qed.

Lemma res_det_arrays (f : list R) :
  forall zc : carray,
    zip_with (fun fr c => 0.2 * (1 / fr) * Cabs c ^ 2) f
             (map (fun m => Csqrt (det2 m)) zc)
    = zip_with (fun fr m => 0.2 * (1 / fr) * Cabs (det2 m)) f zc.
Proof.
  induction f as [|fr f IH]; intros [|m zc]; simpl; try reflexivity.
  rewrite Cabs_sq_Csqrt, IH. reflexivity.
Qed.

Lemma res_det_broadcast (F : R) (self : ZObj) (zc : carray) (f : list R) :
  F <> 0 -> wf F self ->
  transfer_function (_dataset self) = Some zc -> frequency self = Some f ->
  res_det self
  = Ok (Some (zip_with (fun fr c => 0.2 * (1 / fr) * Cabs c ^ 2) f
                       (map (fun m => Csqrt (det2 m)) zc))).
Proof.
  intros HF Hwf Hz Hf.
  pose proof (consistent_tf_frequency F self zc f Hwf Hz Hf) as Hlf.
  unfold res_det. rewrite (det_value F self zc HF Hwf Hz).
  cbn [bind]. rewrite Hf.
  rewrite broadcast_same by (rewrite length_map; assumption).
  reflexivity.
Qed.

(** X14: [res_det] is 0.2 / frequency times the modulus of the determinant
    of the stored tensor, whatever the unit: the square of the modulus of
    the square root [det] is the modulus of the determinant. *)
Theorem X14_res_det_is_modulus_of_determinant (F : R) (self : ZObj)
  (zc : carray) (f : list R) :
  F <> 0 -> wf F self ->
  transfer_function (_dataset self) = Some zc -> frequency self = Some f ->
  res_det self
  = Ok (Some (zip_with (fun fr m => 0.2 * (1 / fr) * Cabs (det2 m)) f zc)).
Proof.
  intros HF Hwf Hz Hf.
  rewrite (res_det_broadcast F self zc f HF Hwf Hz Hf).
  rewrite res_det_arrays. reflexivity.
Qed.

Lemma X14_res_det_is_modulus_of_determinant_witness :
  res_det ohm_identity_object
  = Ok (Some (zip_with (fun fr m => 0.2 * (1 / fr) * Cabs (det2 m)) [1]
                (cscale [identity_tensor] MT_TO_OHM_FACTOR_value))).
Proof.
  apply (X14_res_det_is_modulus_of_determinant MT_TO_OHM_FACTOR_value
           ohm_identity_object).
  - exact MT_TO_OHM_FACTOR_value_nonzero.
  - exact ohm_identity_object_wf.
  - reflexivity.
  - reflexivity.
Defined.

Lemma column_01 {A : Type} (a : list (mat2 A)) :
  column a 0 1 = Ok (map (fun m => m01 m) a).
Proof.
  induction a as [|m a IH]; simpl; [reflexivity|].
  rewrite IH. reflexivity.
Qed.

Lemma Cabs_det2_antidiagonal (m : mat2 complex) :
  antidiagonal m -> Cabs (det2 m) = Cabs (m01 m) ^ 2.
Proof.
  intros (H0 & H1 & H2 & H3). rewrite Cabs_sq.
  unfold Cabs, det2, Csub, Cmul. rewrite H0, H1. simpl. rewrite H2, H3.
  set (a := re (m01 m)). set (b := im (m01 m)).
  replace ((0 * 0 - 0 * 0 - (a * - a - b * - b))
           * (0 * 0 - 0 * 0 - (a * - a - b * - b))
           + (0 * 0 + 0 * 0 - (a * - b + b * - a))
             * (0 * 0 + 0 * 0 - (a * - b + b * - a)))
    with ((a * a + b * b) * (a * a + b * b)) by ring.
  apply sqrt_square. nra.
Qed.

Lemma res_det_one_d (zc : carray) :
  Forall antidiagonal zc ->
  forall f : list R,
    zip_with (fun fr m => 0.2 * (1 / fr) * Cabs (det2 m)) f zc
    = map (fun m => m01 m)
          (zip_with (fun m fr => mat_map (fun x => Cabs x ^ 2 / fr * 0.2) m)
                    zc f).
Proof.
  induction 1 as [|m zc Hm Hzc IH]; intros [|fr f]; simpl; try reflexivity.
  rewrite (Cabs_det2_antidiagonal m Hm). f_equal; [|apply IH].
  unfold Rdiv. ring.
Qed.

(** X15: for a tensor with zero diagonal and Zyx = -Zxy at every
    frequency (a one-dimensional earth), the determinant resistivity
    [res_det] equals the off-diagonal resistivity [res_xy]. *)
Theorem X15_res_det_of_one_dimensional_tensor (F : R) (self : ZObj)
  (zc : carray) (f : list R) :
  F <> 0 -> wf F self ->
  transfer_function (_dataset self) = Some zc -> frequency self = Some f ->
  Forall antidiagonal zc ->
  exists r, res_det self = Ok (Some r) /\ res_xy self = Ok (Some r).
Proof.
  intros HF Hwf Hz Hf Hanti. eexists. split.
  - rewrite (res_det_broadcast F self zc f HF Hwf Hz Hf).
    rewrite res_det_arrays. reflexivity.
  - unfold res_xy. rewrite (resistivity_value F self zc f HF Hwf Hz Hf).
    cbn [bind]. unfold _get_component.
    change (neg_index "xy" 2) with (Ok "x"%string).
    change (neg_index "xy" 1) with (Ok "y"%string).
    cbn [bind]. change (dict_get index_dict "x") with (Ok 0%nat).
    change (dict_get index_dict "y") with (Ok 1%nat). cbn [bind].
    rewrite column_01. cbn [bind].
    rewrite (res_det_one_d zc Hanti). reflexivity.
Qed.

Lemma one_d_object_wf : wf MT_TO_OHM_FACTOR_value one_d_object.
Proof.
  split.
  - reflexivity.
  - reflexivity.
  - right; reflexivity.
  - simpl. constructor; [lra|constructor].
  - intros n Hn. simpl in Hn. injection Hn as <-. simpl. auto.
Qed.

Lemma X15_res_det_of_one_dimensional_tensor_witness :
  exists r, res_det one_d_object = Ok (Some r) /\
            res_xy one_d_object = Ok (Some r).
Proof.
  apply (X15_res_det_of_one_dimensional_tensor MT_TO_OHM_FACTOR_value
           one_d_object
           [mkMat (RtoC 0) (mkC MT_TO_OHM_FACTOR_value MT_TO_OHM_FACTOR_value)
                  (mkC (- MT_TO_OHM_FACTOR_value) (- MT_TO_OHM_FACTOR_value))
                  (RtoC 0)] [1]).
  - exact MT_TO_OHM_FACTOR_value_nonzero.
  - exact one_d_object_wf.
  - reflexivity.
  - reflexivity.
  - constructor; [|constructor].
    unfold antidiagonal; simpl. repeat split; reflexivity.
Defined.

Lemma arctan2_range (y x : R) : - PI < arctan2 y x <= PI.
Proof.
  pose proof PI_RGT_0 as Hpi. unfold arctan2.
  destruct (Rlt_dec 0 x) as [H1|H1].
  - pose proof (atan_bound (y / x)). lra.
  - destruct (Rlt_dec x 0) as [H2|H2].
    + destruct (Rle_dec 0 y) as [H3|H3].
      * assert (Hq : y / x <= 0).
        { unfold Rdiv. assert (/ x < 0) by (apply Rinv_lt_0_compat; assumption).
          nra. }
        pose proof (atan_bound (y / x)).
        assert (atan (y / x) <= 0).
        { destruct Hq as [Hq|Hq].
          - left. rewrite <- atan_0. apply atan_increasing; assumption.
          - rewrite Hq, atan_0. lra. }
        lra.
      * assert (Hq : 0 < y / x).
        { unfold Rdiv. assert (/ x < 0) by (apply Rinv_lt_0_compat; assumption).
          nra. }
        pose proof (atan_bound (y / x)).
        assert (0 < atan (y / x))
          by (rewrite <- atan_0; apply atan_increasing; assumption).
        lra.
    + destruct (Rlt_dec 0 y); [lra|]. destruct (Rlt_dec y 0); lra.
Qed.

Lemma Cabs_zero (a : complex) : Cabs a = 0 -> re a = 0 /\ im a = 0.
Proof.
  unfold Cabs. intros H. apply sqrt_eq_0 in H; [|nra].
  apply Rplus_sqr_eq_0. unfold Rsqr. exact H.
Qed.

(** The principal square root halves the angle. *)
Lemma angle_Csqrt (a : complex) : angle (Csqrt a) = angle a / 2.
Proof.
  pose proof PI_RGT_0 as Hpi.
  assert (E : angle (Csqrt a)
              = arctan2 (sqrt (Cabs a) * sin (angle a / 2))
                        (sqrt (Cabs a) * cos (angle a / 2))) by reflexivity.
  rewrite E.
  destruct (Req_dec (Cabs a) 0) as [H0|H0].
  - destruct (Cabs_zero a H0) as (Hr & Hi).
    rewrite H0, sqrt_0. rewrite arctan2_origin.
    assert (E0 : angle a = arctan2 (0 * 0) (0 * 0))
      by (unfold angle; rewrite Hr, Hi; f_equal; ring).
    rewrite E0, arctan2_origin. lra.
  - assert (Hpos : 0 < Cabs a) by (pose proof (Cabs_nonneg a); lra).
    apply arctan2_polar; [apply sqrt_lt_R0; assumption|].
    pose proof (arctan2_range (im a) (re a)) as Hrange.
    unfold angle. lra.
Qed.

Lemma zip_with_diagonal {A B : Type} (g : A -> A -> B) (l : list A) :
  zip_with g l l = map (fun x => g x x) l.
Proof. induction l as [|x l IH]; simpl; [reflexivity|rewrite IH; reflexivity]. Qed.

(** X16: [phase_det] is half the angle of the determinant of the stored
    tensor, in degrees, whatever the unit; it lies in (-90, 90]. *)
Theorem X16_phase_det_is_half_angle (F : R) (self : ZObj) (zc : carray) :
  F <> 0 -> wf F self -> transfer_function (_dataset self) = Some zc ->
  phase_det self
  = Ok (Some (map (fun m => rad2deg (angle (det2 m) / 2)) zc)) /\
  Forall (fun m => -90 < rad2deg (angle (det2 m) / 2) <= 90) zc.
Proof.
  intros HF Hwf Hz. split.
  - unfold phase_det. rewrite (det_value F self zc HF Hwf Hz). cbn [bind].
    rewrite broadcast_same by reflexivity. cbn [bind].
    rewrite zip_with_diagonal, map_map. do 2 f_equal.
    apply map_ext; intros m.
    change (arctan2 (im (Csqrt (det2 m))) (re (Csqrt (det2 m))))
      with (angle (Csqrt (det2 m))).
    rewrite angle_Csqrt. reflexivity.
  - apply Forall_forall; intros m _.
    pose proof PI_RGT_0 as Hpi.
    pose proof (arctan2_range (im (det2 m)) (re (det2 m))) as [Hlo Hhi].
    unfold rad2deg. fold (angle (det2 m)) in Hlo, Hhi.
    assert (Hk : 0 < 180 / PI) by (apply Rdiv_lt_0_compat; lra).
    replace (-90) with (- (PI / 2) * (180 / PI)) by (field; lra).
    replace 90 with (PI / 2 * (180 / PI)) by (field; lra).
    split.
    + apply Rmult_lt_compat_r; lra.
    + apply Rmult_le_compat_r; lra.
Qed.

Lemma X16_phase_det_is_half_angle_witness :
  phase_det ohm_identity_object
  = Ok (Some (map (fun m => rad2deg (angle (det2 m) / 2))
                  (cscale [identity_tensor] MT_TO_OHM_FACTOR_value))) /\
  Forall (fun m => -90 < rad2deg (angle (det2 m) / 2) <= 90)
         (cscale [identity_tensor] MT_TO_OHM_FACTOR_value).
Proof.
  apply (X16_phase_det_is_half_angle MT_TO_OHM_FACTOR_value
           ohm_identity_object).
  - exact MT_TO_OHM_FACTOR_value_nonzero.
  - exact ohm_identity_object_wf.
  - reflexivity.
Defined.

Lemma error_only_object_wf : wf MT_TO_OHM_FACTOR_value error_only_object.
Proof.
  split.
  - reflexivity.
  - reflexivity.
  - right; reflexivity.
  - simpl. constructor; [lra|constructor].
  - intros n Hn. simpl in Hn. injection Hn as <-. simpl. auto.
Qed.

(** X17: on a well-formed object that holds an error array and no tensor,
    [resistivity_error] and [phase_error] return None, since they test both
    arrays, but [det_error] tests the error array only and raises TypeError
    when it adds the missing tensor to it. *)
Theorem X17_det_error_without_tensor (F : R) (self : ZObj) (ec : rarray) :
  wf F self ->
  transfer_function (_dataset self) = None ->
  transfer_function_error (_dataset self) = Some ec ->
  resistivity_error self = Ok None /\
  phase_error self = Ok None /\
  det self = Ok None /\
  det_error self = Err (TypeError "unsupported operand type(s) for +").
Proof.
  intros Hwf Hz He.
  assert (Hzn : z self = Ok None) by (unfold z; rewrite Hz; reflexivity).
  split; [unfold resistivity_error; rewrite Hzn; reflexivity|].
  split; [unfold phase_error; rewrite Hzn; reflexivity|].
  split; [unfold det; rewrite Hzn; reflexivity|].
  unfold det_error, det, z_operand.
  rewrite (z_error_wf F self Hwf), He. cbn [option_map bind].
  rewrite Hzn. cbn [bind].
  rewrite (scale_factor_wf F self Hwf). reflexivity.
Qed.

Lemma X17_det_error_without_tensor_witness :
  resistivity_error error_only_object = Ok None /\
  phase_error error_only_object = Ok None /\
  det error_only_object = Ok None /\
  det_error error_only_object
  = Err (TypeError "unsupported operand type(s) for +").
Proof.
  apply (X17_det_error_without_tensor MT_TO_OHM_FACTOR_value error_only_object
           [identity_error]).
  - exact error_only_object_wf.
  - reflexivity.
  - reflexivity.
Defined.

(** ** Further properties: distortion *)

Lemma Forall_firstn_pos (n : nat) (l : list R) :
  Forall (fun x => 0 < x) l -> Forall (fun x => 0 < x) (firstn n l).
Proof.
  intros H; revert n; induction H as [|x l Hx Hl IH]; intros [|n]; simpl;
    constructor; auto.
Qed.

Lemma z_error_setter_fresh (F : R) (U : string) (zc : carray) (f : list R)
  (E : rarray) :
  length E = length zc ->
  z_error_setter (Some E)
    (mkZ F (IMPEDANCE_UNITS F) U (mkDataset (Some zc) None None (Some f)))
  = (Ok tt,
     mkZ F (IMPEDANCE_UNITS F) U (mkDataset (Some zc) (Some E) None (Some f))).
Proof.
  intros Hlen. unfold z_error_setter, n_periods, shape; simpl.
  rewrite Hlen, Nat.eqb_refl. reflexivity.
Qed.

(** X18: [estimate_distortion] hands to the estimator an object in the
    unit "mt", whatever the unit of the object it is called on, that holds
    the first [n_frequencies] entries (all of them when it is None or too
    large) of the stored tensor, of the stored error when there is one, and
    of the frequency axis, and no model error; what the estimator returns
    is returned unchanged. *)
Theorem X18_estimate_distortion_truncates
  (find_distortion : ZObj -> string -> bool -> bool ->
                     res (mat2 R * option (mat2 R)))
  (F : R) (self : ZObj) (zc : carray) (f : list R)
  (n_frequencies : option nat) (comp : string) (only_2d clockwise : bool) :
  wf F self ->
  transfer_function (_dataset self) = Some zc -> frequency self = Some f ->
  estimate_distortion F find_distortion self n_frequencies comp only_2d
                      clockwise
  = find_distortion
      (truncated_object F self
         (match n_frequencies with Some n => n | None => length f end))
      comp only_2d clockwise.
Proof.
  intros Hwf Hz Hf.
  set (nf := match n_frequencies with Some n => n | None => length f end).
  pose proof (consistent_tf_frequency F self zc f Hwf Hz Hf) as Hlf.
  unfold estimate_distortion. rewrite Hf, Hz.
  assert (Hnf : match n_frequencies with
                | Some n => Ok n
                | None => Ok (length f)
                end = Ok nf) by (unfold nf; destruct n_frequencies; reflexivity).
  rewrite Hnf. cbn [bind].
  rewrite (init_ok F (Some (firstn nf zc)) None None (Some (firstn nf f)) "mt"
             (length (firstn nf f)));
    [ | left; reflexivity
      | simpl; apply Forall_firstn_pos;
        pose proof (wf_freq F self Hwf) as Hp; unfold frequency in Hf;
        rewrite Hf in Hp; exact Hp
      | simpl; rewrite !length_firstn; congruence
      | exact I | exact I | reflexivity ].
  cbn [bind option_map].
  change (factor_of F "mt") with 1. rewrite cscale_one.
  unfold truncated_object. unfold frequency in Hf. rewrite Hz, Hf.
  destruct (transfer_function_error (_dataset self)) as [e|] eqn:He.
  - pose proof (consistent_tf_error F self zc e Hwf Hz He) as Hle.
    rewrite z_error_setter_fresh
      by (rewrite !length_firstn; congruence).
    reflexivity.
  - reflexivity.
Qed.

Lemma X18_estimate_distortion_truncates_witness :
  estimate_distortion MT_TO_OHM_FACTOR_value
    (fun _ _ _ _ => Ok (identity_error, None))
    two_frequency_object (Some 1%nat) "det" false true
  = (fun _ _ _ _ => Ok (identity_error, None))
      (truncated_object MT_TO_OHM_FACTOR_value two_frequency_object 1)
      "det"%string false true.
Proof.
  apply (X18_estimate_distortion_truncates
           (fun _ _ _ _ => Ok (identity_error, None))
           MT_TO_OHM_FACTOR_value two_frequency_object
           (cscale [identity_tensor; identity_tensor] MT_TO_OHM_FACTOR_value)
           [1; 2] (Some 1%nat) "det" false true).
  - exact two_frequency_object_wf.
  - reflexivity.
  - reflexivity.
Defined.

(** X19: on an object that holds no tensor, [estimate_distortion] raises
    UnboundLocalError, the object for the estimator being bound only when
    there is a tensor, provided the number of frequencies can be taken
    (given, or a frequency axis is present); [remove_distortion] without a
    distortion tensor then fails the same way, in place or not, and leaves
    the object as it was. *)
Theorem X19_distortion_without_tensor
  (remove_distortion_from_z_object :
     ZObj -> mat2 R -> option (mat2 R) -> res (carray * rarray))
  (find_distortion : ZObj -> string -> bool -> bool ->
                     res (mat2 R * option (mat2 R)))
  (F : R) (self : ZObj) (n_frequencies : option nat) (comp : string)
  (only_2d clockwise inplace : bool) (de : option (mat2 R)) :
  transfer_function (_dataset self) = None ->
  n_frequencies <> None \/ frequency self <> None ->
  estimate_distortion F find_distortion self n_frequencies comp only_2d
                      clockwise
  = Err (UnboundLocalError "new_z_object") /\
  remove_distortion F remove_distortion_from_z_object find_distortion
    None de n_frequencies comp only_2d inplace self
  = (Err (UnboundLocalError "new_z_object"), self).
Proof.
  intros Hz Hn.
  assert (He : forall c,
             estimate_distortion F find_distortion self n_frequencies comp
                                 only_2d c
             = Err (UnboundLocalError "new_z_object")).
  { intros c. unfold estimate_distortion. rewrite Hz.
    destruct n_frequencies as [n|]; [reflexivity|].
    destruct (frequency self) as [f|]; [reflexivity|].
    destruct Hn as [Hn|Hn]; exfalso; apply Hn; reflexivity. }
  split; [apply He|].
  unfold remove_distortion. rewrite He. reflexivity.
Qed.

Lemma X19_distortion_without_tensor_witness :
  estimate_distortion MT_TO_OHM_FACTOR_value
    (fun _ _ _ _ => Ok (identity_error, None))
    error_only_object None "det" false true
  = Err (UnboundLocalError "new_z_object") /\
  remove_distortion MT_TO_OHM_FACTOR_value
    (fun _ _ _ => Ok ([identity_tensor], [identity_error]))
    (fun _ _ _ _ => Ok (identity_error, None))
    None None None "det" false false error_only_object
  = (Err (UnboundLocalError "new_z_object"), error_only_object).
Proof.
  apply (X19_distortion_without_tensor
           (fun _ _ _ => Ok ([identity_tensor], [identity_error]))
           (fun _ _ _ _ => Ok (identity_error, None))
           MT_TO_OHM_FACTOR_value error_only_object None "det" false true
           false None).
  - reflexivity.
  - right; discriminate.
Defined.

Lemma z_error_setter_with_tensor (F : R) (self : ZObj) (zc : carray)
  (E : rarray) :
  wf F self -> transfer_function (_dataset self) = Some zc ->
  length E = length zc ->
  z_error_setter (Some E) self
  = (Ok tt, with_dataset self (set_tf_error E (_dataset self))).
Proof.
  intros Hwf Hz Hlen.
  destruct (consistent_tf _ _ (wf_shape F self Hwf) Hz) as (He & _ & Hf).
  unfold z_error_setter, _has_tf_error, _has_frequency, _is_empty, _has_tf,
    shape, n_periods, frequency.
  rewrite Hz.
  destruct (transfer_function_error (_dataset self)) as [e|];
    destruct (TFBase.frequency (_dataset self)) as [f|]; simpl in *;
    rewrite ?Hf, ?Hlen, ?Nat.eqb_refl; reflexivity.
Qed.

Lemma wf_set_tf_error (F : R) (self : ZObj) (zc : carray) (E : rarray) :
  wf F self -> transfer_function (_dataset self) = Some zc ->
  length E = length zc ->
  wf F (with_dataset self (set_tf_error E (_dataset self))).
Proof.
  intros Hwf Hz Hlen.
  destruct (consistent_tf _ _ (wf_shape F self Hwf) Hz) as (He & Hm & Hf).
  split.
  - exact (wf_ohm F self Hwf).
  - exact (wf_table F self Hwf).
  - exact (wf_units F self Hwf).
  - exact (wf_freq F self Hwf).
  - intros n Hn. unfold n_periods in Hn; simpl in Hn. rewrite Hz in Hn.
    injection Hn as <-. simpl. rewrite Hz. simpl. auto.
Qed.

(** X20: the [z_error] setter, like the [z] setter, stores the array as
    given: on a well-formed object that holds a tensor of N frequencies,
    assigning an error array of length N succeeds, [z_error] then returns
    the assigned values divided by the scale factor, and the tensor, the
    model error, the frequency and the unit are as before. *)
Theorem X20_z_error_setter_stores_unscaled (F : R) (self : ZObj)
  (zc : carray) (E : rarray) :
  wf F self -> transfer_function (_dataset self) = Some zc ->
  length E = length zc ->
  exists s',
    z_error_setter (Some E) self = (Ok tt, s') /\
    transfer_function_error (_dataset s') = Some E /\
    z_error s' = Ok (Some (runscale E (factor_of F (_units self)))) /\
    z s' = z self /\
    z_model_error s' = z_model_error self /\
    frequency s' = frequency self /\
    units s' = units self /\
    wf F s'.
Proof.
  intros Hwf Hz Hlen.
  exists (with_dataset self (set_tf_error E (_dataset self))).
  pose proof (wf_set_tf_error F self zc E Hwf Hz Hlen) as Hwf'.
  split; [apply (z_error_setter_with_tensor F self zc); assumption|].
  split; [reflexivity|].
  split; [rewrite (z_error_wf F _ Hwf'); reflexivity|].
  split; [rewrite (z_wf F _ Hwf'), (z_wf F self Hwf); reflexivity|].
  split; [rewrite (z_model_error_wf F _ Hwf'), (z_model_error_wf F self Hwf);
          reflexivity|].
  split; [reflexivity|].
  split; [reflexivity|].
  exact Hwf'.
Qed.

Lemma X20_z_error_setter_stores_unscaled_witness :
  exists s',
    z_error_setter (Some [identity_error]) ohm_identity_object = (Ok tt, s') /\
    transfer_function_error (_dataset s') = Some [identity_error] /\
    z_error s'
    = Ok (Some (runscale [identity_error]
                  (factor_of MT_TO_OHM_FACTOR_value
                             (_units ohm_identity_object)))) /\
    z s' = z ohm_identity_object /\
    z_model_error s' = z_model_error ohm_identity_object /\
    frequency s' = frequency ohm_identity_object /\
    units s' = units ohm_identity_object /\
    wf MT_TO_OHM_FACTOR_value s'.
Proof.
  apply (X20_z_error_setter_stores_unscaled MT_TO_OHM_FACTOR_value
           ohm_identity_object
           (cscale [identity_tensor] MT_TO_OHM_FACTOR_value) [identity_error]).
  - exact ohm_identity_object_wf.
  - reflexivity.
  - reflexivity.
Defined.

(** X21: [remove_distortion] in place multiplies the corrected arrays by
    the scale factor and assigns them through the setters, which store
    them as given: for a collaborator result of the length of the tensor,
    [z] and [z_error] then return exactly the collaborator's arrays, and
    the model error, the frequency and the unit are untouched. *)
Theorem X21_remove_distortion_in_place
  (remove_distortion_from_z_object :
     ZObj -> mat2 R -> option (mat2 R) -> res (carray * rarray))
  (find_distortion : ZObj -> string -> bool -> bool ->
                     res (mat2 R * option (mat2 R)))
  (F : R) (self : ZObj) (zc z' : carray) (e' : rarray)
  (D : mat2 R) (De : option (mat2 R)) (n_frequencies : option nat)
  (comp : string) (only_2d : bool) :
  F <> 0 -> wf F self -> transfer_function (_dataset self) = Some zc ->
  remove_distortion_from_z_object self D De = Ok (z', e') ->
  length z' = length zc -> length e' = length zc ->
  exists s',
    remove_distortion F remove_distortion_from_z_object find_distortion
      (Some D) De n_frequencies comp only_2d true self = (Ok None, s') /\
    z s' = Ok (Some z') /\
    z_error s' = Ok (Some e') /\
    z_model_error s' = z_model_error self /\
    frequency s' = frequency self /\
    units s' = units self.
Proof.
  intros HF Hwf Hz Hrd Hlz Hle.
  set (sf := factor_of F (_units self)).
  assert (Hsf : sf <> 0) by (apply factor_of_nonzero; assumption).
  set (s1 := with_dataset self (set_tf (cscale z' sf) (_dataset self))).
  assert (Hwf1 : wf F s1)
    by (apply (wf_set_tf F self zc);
        [assumption|assumption|rewrite cscale_length; assumption]).
  set (s2 := with_dataset s1 (set_tf_error (rscale e' sf) (_dataset s1))).
  assert (Hwf2 : wf F s2)
    by (apply (wf_set_tf_error F s1 (cscale z' sf));
        [assumption|reflexivity
        |rewrite rscale_length, cscale_length; congruence]).
  exists s2.
  split.
  - unfold remove_distortion. cbn [bind fst snd]. rewrite Hrd. cbn [bind fst snd].
    rewrite (scale_factor_wf F self Hwf). cbn [bind]. fold sf.
    unfold bindM.
    rewrite (z_setter_with_tensor self zc (cscale z' sf) Hz)
      by (rewrite cscale_length; assumption).
    fold s1.
    rewrite (z_error_setter_with_tensor F s1 (cscale z' sf) (rscale e' sf)
               Hwf1 eq_refl)
      by (rewrite rscale_length, cscale_length; congruence).
    reflexivity.
  - split.
    { rewrite (z_wf F s2 Hwf2). simpl. fold sf.
      rewrite cunscale_cscale by assumption. reflexivity. }
    split.
    { rewrite (z_error_wf F s2 Hwf2). simpl. fold sf.
      rewrite runscale_rscale by assumption. reflexivity. }
    split.
    { rewrite (z_model_error_wf F s2 Hwf2), (z_model_error_wf F self Hwf).
      reflexivity. }
    split; reflexivity.
Qed.

Lemma X21_remove_distortion_in_place_witness :
  exists s',
    remove_distortion MT_TO_OHM_FACTOR_value
      (fun _ _ _ => Ok ([example_tensor], [identity_error]))
      (fun _ _ _ _ => Ok (identity_error, None))
      (Some identity_error) None None "det" false true ohm_model_object
    = (Ok None, s') /\
    z s' = Ok (Some [example_tensor]) /\
    z_error s' = Ok (Some [identity_error]) /\
    z_model_error s' = z_model_error ohm_model_object /\
    frequency s' = frequency ohm_model_object /\
    units s' = units ohm_model_object.
Proof.
  apply (X21_remove_distortion_in_place
           (fun _ _ _ => Ok ([example_tensor], [identity_error]))
           (fun _ _ _ _ => Ok (identity_error, None))
           MT_TO_OHM_FACTOR_value ohm_model_object
           (cscale [identity_tensor] MT_TO_OHM_FACTOR_value)
           [example_tensor] [identity_error] identity_error None None
           "det" false).
  - exact MT_TO_OHM_FACTOR_value_nonzero.
  - exact ohm_model_object_wf.
  - reflexivity.
  - reflexivity.
  - reflexivity.
  - reflexivity.
Defined.

Lemma validate_array_input_free {A : Type} (a : option (list (mat2 A))) :
  _validate_array_input a None = Ok a.
Proof. destruct a; reflexivity. Qed.

(** X22: [set_resistivity_phase] computes an error array only from a
    resistivity error.  A phase error (or phase model error) given without
    its resistivity error is ignored: the call behaves as if no error had
    been passed.  A resistivity error given without a phase error makes the
    call raise TypeError, but only after the frequency and the tensor have
    been assigned: the object is left with the new frequency and tensor and
    its old error array. *)
Theorem X22_set_resistivity_phase_errors (F : R) (self : ZObj)
  (rho phi rerr : rarray) (f : list R)
  (phase_error phase_model_error : option rarray) :
  wf F self ->
  n_periods (_dataset self) = None \/ n_periods (_dataset self) = Some (length f) ->
  length rho = length f -> length phi = length f -> length rerr = length f ->
  Forall (fun x => 0 < x) f ->
  set_resistivity_phase (Some rho) (Some phi) (Some f)
    None phase_error None phase_model_error self
  = set_resistivity_phase (Some rho) (Some phi) (Some f)
      None None None None self /\
  exists msg s',
    set_resistivity_phase (Some rho) (Some phi) (Some f)
      (Some rerr) None None None self = (Err (TypeError msg), s') /\
    frequency s' = Some f /\
    transfer_function (_dataset s') = Some (reconstructed rho phi f) /\
    transfer_function_error (_dataset s')
    = transfer_function_error (_dataset self) /\
    transfer_function_model_error (_dataset s')
    = transfer_function_model_error (_dataset self).
Proof.
  intros Hwf Hn Hr Hp He Hpos. split.
  - unfold set_resistivity_phase, bindM, readM.
    rewrite !validate_array_input_free. reflexivity.
  - exists "loop of ufunc does not support NoneType"%string.
    eexists. split.
    + unfold set_resistivity_phase, bindM, readM.
      rewrite (validate_frequency_positive f Hpos).
      unfold frequency_setter. rewrite (set_frequency_ok _ f Hn).
      cbn [_validate_array_input].
      set (self1 := with_dataset self _).
      assert (Hf1 : frequency self1 = Some f) by reflexivity.
      rewrite Hf1.
      rewrite broadcast_same by assumption. cbn [bind].
      rewrite broadcast_same by (rewrite zip_with_length; congruence).
      fold (reconstructed rho phi f).
      rewrite (z_setter_with_frequency self1 (reconstructed rho phi f) f);
        [|reflexivity|apply reconstructed_length; assumption
         |apply (has_length_tf (_dataset self));
          [exact (wf_shape F self Hwf)|assumption]].
      unfold _compute_z_error.
      set (self2 := with_dataset self1 _).
      assert (Hf2 : frequency self2 = Some f) by reflexivity.
      rewrite Hf2.
      rewrite broadcast_same by assumption. cbn [bind].
      reflexivity.
    + repeat split.
Qed.

Lemma X22_set_resistivity_phase_errors_witness :
  set_resistivity_phase (Some [unit_resistivity]) (Some [ninety_degrees])
    (Some [1]) None (Some [ninety_degrees]) None None
    (empty_object MT_TO_OHM_FACTOR_value "ohm")
  = set_resistivity_phase (Some [unit_resistivity]) (Some [ninety_degrees])
      (Some [1]) None None None None
      (empty_object MT_TO_OHM_FACTOR_value "ohm") /\
  exists msg s',
    set_resistivity_phase (Some [unit_resistivity]) (Some [ninety_degrees])
      (Some [1]) (Some [unit_resistivity]) None None None
      (empty_object MT_TO_OHM_FACTOR_value "ohm")
    = (Err (TypeError msg), s') /\
    frequency s' = Some [1] /\
    transfer_function (_dataset s')
    = Some (reconstructed [unit_resistivity] [ninety_degrees] [1]) /\
    transfer_function_error (_dataset s')
    = transfer_function_error
        (_dataset (empty_object MT_TO_OHM_FACTOR_value "ohm")) /\
    transfer_function_model_error (_dataset s')
    = transfer_function_model_error
        (_dataset (empty_object MT_TO_OHM_FACTOR_value "ohm")).
Proof.
  apply (X22_set_resistivity_phase_errors MT_TO_OHM_FACTOR_value).
  - apply empty_object_wf. right; reflexivity.
  - left; reflexivity.
  - reflexivity.
  - reflexivity.
  - reflexivity.
  - repeat constructor. lra.
Defined.

Lemma substring_append (p s : string) (n m : nat) :
  substring (String.length p + n) m (p ++ s) = substring n m s.
Proof. induction p as [|c p IH]; simpl; [reflexivity|exact IH]. Qed.

Lemma length_append (p s : string) :
  String.length (p ++ s) = (String.length p + String.length s)%nat.
Proof. induction p as [|c p IH]; simpl; [reflexivity|rewrite IH; reflexivity]. Qed.

Lemma neg_index_append (p s : string) (k : nat) :
  (k <= String.length s)%nat -> neg_index (p ++ s) k = neg_index s k.
Proof.
  intros Hk. unfold neg_index. rewrite length_append.
  replace (Nat.ltb (String.length p + String.length s) k) with false
    by (symmetry; apply Nat.ltb_ge; lia).
  replace (Nat.ltb (String.length s) k) with false
    by (symmetry; apply Nat.ltb_ge; lia).
  replace (String.length p + String.length s - k)%nat
    with (String.length p + (String.length s - k))%nat by lia.
  rewrite substring_append. reflexivity.
Qed.

(** X23: [_get_component] selects by the last two characters of the
    component name only: any prefix is ignored, so "res_xy" selects what
    "xy" selects.  A name of a single character raises IndexError when an
    array is present, and an absent array gives None whatever the name. *)
Theorem X23_component_uses_last_two_characters {A : Type} (prefix comp : string)
  (c1 c2 : ascii) (array : option (list (mat2 A))) (a : list (mat2 A)) :
  _get_component (prefix ++ String c1 (String c2 EmptyString)) array
  = _get_component (String c1 (String c2 EmptyString)) array /\
  _get_component (String c1 EmptyString) (Some a)
  = Err (IndexError "string index out of range") /\
  @_get_component A comp None = Ok None.
Proof.
  split; [|split; reflexivity].
  destruct array as [arr|]; [|reflexivity].
  unfold _get_component.
  rewrite !neg_index_append by (simpl; lia). reflexivity.
Qed.
